(** * AI Flashcard Generator: the generation-and-parsing pipeline of [app.py]

    A shallow embedding of [generate_flashcards], [save_flashcards] and
    [main] of [app.py], together with the parts of the Python runtime they
    rest on: [str.strip], [str.startswith], [str.split], slicing,
    [json.loads] and [json.dump(..., indent=2)].

    Conventions.
    - A Python [str] is a list of Unicode code points ([N]).
    - A Python value produced by [json.loads] is a [pyval].
    - A computation that may raise is a [res]; [OutOfFuel] only marks the
      end of the recursion budget of the embedding, and is shown never to
      be returned by [json_loads] ([json_loads_total]).
    - The decoder follows CPython's [json/decoder.py] and [json/scanner.py],
      with the string scanner and the digit and hex-digit classes of the
      C accelerator that CPython runs by default.  Positions carried by
      [JSONDecodeError] are not modelled.
    - Two limits of the interpreter are outside the embedding: [int] and
      [str] refuse a number of more than 4300 digits ([ValueError]), and
      nesting beyond the recursion limit raises [RecursionError].  On a
      text that meets one of them, [json.loads] raises where [json_loads]
      goes on.  A property of texts that can meet them is therefore
      stated for the runs in which the decoder returns (with
      [decode_response raw = Ok v] as a hypothesis), or as an equation
      between two runs of the decoder, which the limits leave true; the
      agreement of the scanner with the grammar (Parts VII to X) describes
      the decoder below the limits.
    - The disk is a map from paths to directories and files.  A write is
      taken to succeed; a property of the export names the disks on which
      it does ([writable]).
    - What lies outside the program is given: the reply of the provider,
      the rendering of floats, pandas' CSV writer, the widget state and the
      clock ([externals], [inputs]).

    Plan.
    - Parts I to IV: the program and the runtime it uses.
    - Parts V and VI: the JSON dialect as a grammar, and the vocabulary in
      which the properties are stated.
    - Parts VII to X: the scanner accepts exactly the grammar
      ([json_loads_iff]); what [json.dump] writes belongs to it.
    - Part XI: the properties C1 to C10 of the specification.
    - Part XII: further properties of the program, X1 to X22: what a run
      changes, the outcomes of [generate_flashcards] and [main], the fenced
      forms that decode and those that do not, and the export. *)

From Stdlib Require Import String Ascii Decimal.
From Stdlib Require Import NArith ZArith Lia Bool Arith List.
From Stdlib Require DecimalN.
Import ListNotations.

Set Implicit Arguments.
Set Warnings "-register-all".

(* ================================================================== *)
(** * Part I: Python strings *)
(* ================================================================== *)

Definition pystr := list N.

(** [lit] turns an ASCII literal of this file into a Python string. *)
Definition lit (s : string) : pystr := map N_of_ascii (list_ascii_of_string s).

(** Characters the code compares against, by code point. *)
Abbreviation DQUOTE := 34%N (only parsing).      (* double quote *)
Abbreviation BACKSLASH_C := 92%N (only parsing). (* backslash *)
Abbreviation SLASH := 47%N (only parsing).       (* / *)
Abbreviation LBRACKET := 91%N (only parsing).    (* [ *)
Abbreviation RBRACKET := 93%N (only parsing).    (* ] *)
Abbreviation LBRACE := 123%N (only parsing).     (* { *)
Abbreviation RBRACE := 125%N (only parsing).     (* } *)
Abbreviation COMMA := 44%N (only parsing).       (* , *)
Abbreviation COLON := 58%N (only parsing).       (* : *)
Abbreviation MINUS := 45%N (only parsing).       (* - *)
Abbreviation PLUS := 43%N (only parsing).        (* + *)
Abbreviation DOT := 46%N (only parsing).         (* . *)
Abbreviation ZERO := 48%N (only parsing).        (* 0 *)
Abbreviation NINE := 57%N (only parsing).        (* 9 *)
Abbreviation BACKTICK := 96%N (only parsing).    (* ` *)
Abbreviation SPACE := 32%N (only parsing).
Abbreviation TAB := 9%N (only parsing).
Abbreviation NEWLINE := 10%N (only parsing).
Abbreviation CR := 13%N (only parsing).

Fixpoint pystr_eqb (a b : pystr) : bool :=
  match a, b with
  | [], [] => true
  | x :: a', y :: b' => (x =? y)%N && pystr_eqb a' b'
  | _, _ => false
  end.

(** [str.isspace] on one code point: the characters [str.strip()] removes. *)
Definition isspace (c : N) : bool :=
  ((9 <=? c) && (c <=? 13) || (28 <=? c) && (c <=? 32)
   || (c =? 133) || (c =? 160) || (c =? 5760)
   || (8192 <=? c) && (c <=? 8202)
   || (c =? 8232) || (c =? 8233) || (c =? 8239) || (c =? 8287)
   || (c =? 12288))%N.

Fixpoint lstrip (s : pystr) : pystr :=
  match s with
  | c :: s' => if isspace c then lstrip s' else s
  | [] => []
  end.

Definition rstrip (s : pystr) : pystr := rev (lstrip (rev s)).

(** [s.strip()] *)
Definition strip (s : pystr) : pystr := rstrip (lstrip s).

(** [s.startswith(prefix)] *)
Fixpoint startswith (s prefix : pystr) {struct prefix} : bool :=
  match prefix, s with
  | [], _ => true
  | p :: prefix', c :: s' => (c =? p)%N && startswith s' prefix'
  | _ :: _, [] => false
  end.

(** [s.find(sep)]: index of the first occurrence, [None] for Python's -1. *)
Fixpoint find (sep s : pystr) : option nat :=
  if startswith s sep then Some 0
  else match s with
       | [] => None
       | _ :: s' => option_map S (find sep s')
       end.

(** [s.split(sep)] for a non-empty [sep]: cut at the first occurrence, go on
    after it.  Every cut removes at least one character, so [length s]
    rounds are enough; [split_enough_rounds] shows more rounds change
    nothing. *)
Fixpoint split_rounds (n : nat) (sep s : pystr) : list pystr :=
  match n with
  | O => [s]
  | S n' =>
      match find sep s with
      | None => [s]
      | Some i => firstn i s :: split_rounds n' sep (skipn (i + length sep) s)
      end
  end.

Definition split (sep s : pystr) : list pystr := split_rounds (length s) sep s.

(** [str(n)] for an int. *)
Fixpoint uint_chars (u : Decimal.uint) : pystr :=
  match u with
  | Nil => []
  | D0 u' => 48%N :: uint_chars u' | D1 u' => 49%N :: uint_chars u'
  | D2 u' => 50%N :: uint_chars u' | D3 u' => 51%N :: uint_chars u'
  | D4 u' => 52%N :: uint_chars u' | D5 u' => 53%N :: uint_chars u'
  | D6 u' => 54%N :: uint_chars u' | D7 u' => 55%N :: uint_chars u'
  | D8 u' => 56%N :: uint_chars u' | D9 u' => 57%N :: uint_chars u'
  end.

Definition str_of_N (n : N) : pystr := uint_chars (N.to_uint n).

(** [str(z)], for an integer of at most 4300 digits: beyond that the
    interpreter raises [ValueError] instead. *)
Definition str_of_int (z : Z) : pystr :=
  match z with
  | Zneg p => MINUS :: str_of_N (Npos p)
  | _ => str_of_N (Z.to_N z)
  end.

(** [x in s] for strings. *)
Definition substring (x s : pystr) : Prop :=
  exists pre post, s = pre ++ x ++ post.

(* ================================================================== *)
(** * Part II: Python values, exceptions and [json.loads] *)
(* ================================================================== *)

(** A float is kept as the text it was read from: [FloatOf l] stands for
    [float(l)].  What Python computes from a float ([repr], truth value) is
    a parameter of the definitions that need it. *)
Inductive pyfloat : Type :=
| FloatOf (lexeme : pystr)
| NaN
| PosInf
| NegInf.

(** The values [json.loads] builds.  A [dict] keeps its keys in insertion
    order, without duplicates. *)
Inductive pyval : Type :=
| PyNone
| PyBool (b : bool)
| PyInt (z : Z)
| PyFloat (f : pyfloat)
| PyStr (s : pystr)
| PyList (l : list pyval)
| PyDict (d : list (pystr * pyval)).

(** The messages of [JSONDecodeError]. *)
Inductive json_msg : Type :=
| ExpectingValue
| ExtraData
| UnexpectedBOM
| UnterminatedString
| InvalidControlCharacter
| InvalidEscape
| InvalidUnicodeEscape
| ExpectingPropertyName
| ExpectingColonDelimiter
| ExpectingCommaDelimiter.

Inductive pyexn : Type :=
| StopIteration
| JSONDecodeError (msg : json_msg)
| IndexError
| TypeError
| KeyError
| OtherException (what : pystr).

Inductive res (A : Type) : Type :=
| Ok (a : A)
| Raise (e : pyexn)
| OutOfFuel.

Arguments Raise {A} e.
Arguments OutOfFuel {A}.

Definition bind {A B : Type} (m : res A) (k : A -> res B) : res B :=
  match m with
  | Ok a => k a
  | Raise e => Raise e
  | OutOfFuel => OutOfFuel
  end.

Declare Scope res_scope.
Delimit Scope res_scope with res.
Notation "x <- m ;; k" := (bind m (fun x => k))
  (at level 61, m at next level, right associativity) : res_scope.
Notation "' p <- m ;; k" := (bind m (fun x => let 'p := x in k))
  (at level 61, p pattern, m at next level, right associativity) : res_scope.
Open Scope res_scope.

(** ** Whitespace: [WHITESPACE = re.compile(r'[ \t\n\r]*')] *)

Definition is_json_ws (c : N) : bool :=
  ((c =? SPACE) || (c =? TAB) || (c =? NEWLINE) || (c =? CR))%N.

(** [s[WHITESPACE.match(s, end).end():]] *)
Fixpoint skip_ws (s : pystr) : pystr :=
  match s with
  | c :: s' => if is_json_ws c then skip_ws s' else s
  | [] => []
  end.

(** ** Strings: [scanstring] *)

(** The [BACKSLASH] table. *)
Definition BACKSLASH (esc : N) : option N :=
  (if esc =? DQUOTE then Some DQUOTE
   else if esc =? BACKSLASH_C then Some BACKSLASH_C
   else if esc =? SLASH then Some SLASH
   else if esc =? 98 then Some 8        (* b *)
   else if esc =? 102 then Some 12      (* f *)
   else if esc =? 110 then Some 10      (* n *)
   else if esc =? 114 then Some 13      (* r *)
   else if esc =? 116 then Some 9       (* t *)
   else None)%N.

Definition hexval (c : N) : option N :=
  (if (48 <=? c) && (c <=? 57) then Some (c - 48)
   else if (97 <=? c) && (c <=? 102) then Some (c - 87)
   else if (65 <=? c) && (c <=? 70) then Some (c - 55)
   else None)%N.

(** [int(esc, 16)] for the four characters after [\u]. *)
Definition hex4 (h1 h2 h3 h4 : N) : option N :=
  match hexval h1, hexval h2, hexval h3, hexval h4 with
  | Some a, Some b, Some c, Some d => Some (((a * 16 + b) * 16 + c) * 16 + d)%N
  | _, _, _, _ => None
  end.

Definition is_high_surrogate (u : N) : bool := ((55296 <=? u) && (u <=? 56319))%N.
Definition is_low_surrogate (u : N) : bool := ((56320 <=? u) && (u <=? 57343))%N.

(** [0x10000 + (((uni - 0xd800) << 10) | (uni2 - 0xdc00))] *)
Definition join_surrogates (uni uni2 : N) : N :=
  (65536 + N.lor (N.shiftl (uni - 55296) 10) (uni2 - 56320))%N.

(** [scanstring(s, end)], which [json.decoder] binds to the C accelerator's
    [scanstring_unicode]: [s] is the text after the opening quote, [chunks]
    what has been decoded so far.  Returns the decoded string and the text
    after the closing quote.  A [\u] escape wants a character after its
    four digits ([end >= len] is refused), and a high surrogate is joined
    with the escape of a low one only when the text goes on after that
    escape ([end + 6 < len]). *)
Fixpoint scanstring (s : pystr) (chunks : pystr) {struct s}
  : res (pystr * pystr) :=
  match s with
  | [] => Raise (JSONDecodeError UnterminatedString)
  | c :: s1 =>
    if (c =? DQUOTE)%N then Ok (chunks, s1)
    else if negb (c =? BACKSLASH_C)%N then
      if (c <? 32)%N then Raise (JSONDecodeError InvalidControlCharacter)
      else scanstring s1 (chunks ++ [c])
    else
      match s1 with
      | [] => Raise (JSONDecodeError UnterminatedString)
      | esc :: s2 =>
        if negb (esc =? 117)%N then    (* esc != 'u' *)
          match BACKSLASH esc with
          | None => Raise (JSONDecodeError InvalidEscape)
          | Some char => scanstring s2 (chunks ++ [char])
          end
        else
          match s2 with
          | h1 :: h2 :: h3 :: h4 :: s3 =>
            if (length s3 =? 0)%nat
            then Raise (JSONDecodeError InvalidUnicodeEscape)
            else
            match hex4 h1 h2 h3 h4 with
            | None => Raise (JSONDecodeError InvalidUnicodeEscape)
            | Some uni =>
              if is_high_surrogate uni && (6 <? length s3)%nat
                 && startswith s3 [BACKSLASH_C; 117%N] then
                match s3 with
                | _ :: _ :: k1 :: k2 :: k3 :: k4 :: s4 =>
                  match hex4 k1 k2 k3 k4 with
                  | None => Raise (JSONDecodeError InvalidUnicodeEscape)
                  | Some uni2 =>
                    if is_low_surrogate uni2
                    then scanstring s4 (chunks ++ [join_surrogates uni uni2])
                    else scanstring s3 (chunks ++ [uni])
                  end
                | _ => Raise (JSONDecodeError InvalidUnicodeEscape)
                end
              else scanstring s3 (chunks ++ [uni])
            end
          | _ => Raise (JSONDecodeError InvalidUnicodeEscape)
          end
      end
  end.

(** ** Numbers: [NUMBER_RE] *)

Definition is_digit (c : N) : bool := ((ZERO <=? c) && (c <=? NINE))%N.

(** The longest run of digits at the front of [s], and what follows it. *)
Fixpoint take_digits (s : pystr) : pystr * pystr :=
  match s with
  | c :: s' =>
      if is_digit c then let (ds, r) := take_digits s' in (c :: ds, r)
      else ([], s)
  | [] => ([], [])
  end.

(** The integer group of [NUMBER_RE]: an optional minus sign, then either
    a single 0 or a non-zero digit followed by digits. *)
Definition match_digits (sign s1 : pystr) : option (pystr * pystr) :=
  match s1 with
  | c :: s2 =>
      if (c =? ZERO)%N then Some (sign ++ [c], s2)
      else if is_digit c then
        let (ds, r) := take_digits s2 in Some (sign ++ c :: ds, r)
      else None
  | [] => None
  end.

Definition match_integer (s : pystr) : option (pystr * pystr) :=
  match s with
  | c :: s' => if (c =? MINUS)%N then match_digits [c] s' else match_digits [] s
  | [] => None
  end.

(** The fraction group: a dot and at least one digit, or nothing. *)
Definition match_frac (s : pystr) : option pystr * pystr :=
  match s with
  | c :: s1 =>
      if (c =? DOT)%N then
        match take_digits s1 with
        | ([], _) => (None, s)
        | (ds, r) => (Some (c :: ds), r)
        end
      else (None, s)
  | [] => (None, s)
  end.

(** The exponent group: e or E, an optional sign and at least one digit,
    or nothing. *)
Definition match_exp (s : pystr) : option pystr * pystr :=
  match s with
  | e :: s1 =>
      if ((e =? 101) || (e =? 69))%N then
        let (sign, s2) :=
          match s1 with
          | c :: s' => if ((c =? MINUS) || (c =? PLUS))%N then ([c], s') else ([], s1)
          | [] => ([], s1)
          end in
        match take_digits s2 with
        | ([], _) => (None, s)
        | (ds, r) => (Some (e :: sign ++ ds), r)
        end
      else (None, s)
  | [] => (None, s)
  end.

(** [NUMBER_RE.match(s, idx)]: the three groups and the text after the
    match. *)
Definition match_number (s : pystr)
  : option (pystr * option pystr * option pystr * pystr) :=
  match match_integer s with
  | None => None
  | Some (integer, s1) =>
      let (frac, s2) := match_frac s1 in
      let (exp, s3) := match_exp s2 in
      Some (integer, frac, exp, s3)
  end.

Definition digits_value (ds : pystr) : N :=
  fold_left (fun acc c => (acc * 10 + (c - ZERO))%N) ds 0%N.

(** [int(integer)], for a literal that [int] accepts: beyond 4300 digits
    the interpreter raises [ValueError] instead. *)
Definition parse_int (integer : pystr) : Z :=
  match integer with
  | c :: ds =>
      if (c =? MINUS)%N then (- Z.of_N (digits_value ds))%Z
      else Z.of_N (digits_value integer)
  | [] => 0%Z
  end.

Definition or_empty (g : option pystr) : pystr :=
  match g with Some x => x | None => [] end.

(** ** Dictionaries: [dict(pairs)] *)

Fixpoint dict_setitem (d : list (pystr * pyval)) (k : pystr) (v : pyval)
  : list (pystr * pyval) :=
  match d with
  | [] => [(k, v)]
  | (k', v') :: d' =>
      if pystr_eqb k' k then (k', v) :: d'
      else (k', v') :: dict_setitem d' k v
  end.

Definition dict (pairs : list (pystr * pyval)) : list (pystr * pyval) :=
  fold_left (fun d kv => dict_setitem d (fst kv) (snd kv)) pairs [].

Fixpoint dict_get (d : list (pystr * pyval)) (k : pystr) : option pyval :=
  match d with
  | [] => None
  | (k', v) :: d' => if pystr_eqb k' k then Some v else dict_get d' k
  end.

(** ** Arrays and objects: [JSONArray], [JSONObject]

    Both receive the scanner as an argument, as in [decoder.py].  Their
    [while True] loops run on a budget [n]. *)

Section Containers.

Variable scan_once : pystr -> res (pyval * pystr).

(** A [StopIteration] of the scanner becomes
    [JSONDecodeError("Expecting value")]. *)
Definition scan_value (s : pystr) : res (pyval * pystr) :=
  match scan_once s with
  | Raise StopIteration => Raise (JSONDecodeError ExpectingValue)
  | r => r
  end.

Fixpoint JSONArray_loop (n : nat) (s : pystr) (values : list pyval)
  : res (pyval * pystr) :=
  match n with
  | O => OutOfFuel
  | S n' =>
      '(value, s) <- scan_value s ;;
      let values := values ++ [value] in
      match skip_ws s with
      | [] => Raise (JSONDecodeError ExpectingCommaDelimiter)
      | nextchar :: s =>
          if (nextchar =? RBRACKET)%N then Ok (PyList values, s)
          else if negb (nextchar =? COMMA)%N
          then Raise (JSONDecodeError ExpectingCommaDelimiter)
          else JSONArray_loop n' (skip_ws s) values
      end
  end.

(** [JSONArray((s, end), scan_once)]: [s] is the text after the bracket. *)
Definition JSONArray (n : nat) (s : pystr) : res (pyval * pystr) :=
  let s := skip_ws s in
  match s with
  | nextchar :: s' =>
      if (nextchar =? RBRACKET)%N then Ok (PyList [], s')
      else JSONArray_loop n s []
  | [] => JSONArray_loop n s []
  end.

(** The loop of [JSONObject]; [s] is the text after the opening quote of
    the next key. *)
Fixpoint JSONObject_loop (n : nat) (s : pystr) (pairs : list (pystr * pyval))
  : res (pyval * pystr) :=
  match n with
  | O => OutOfFuel
  | S n' =>
      '(key, s) <- scanstring s [] ;;
      match skip_ws s with
      | [] => Raise (JSONDecodeError ExpectingColonDelimiter)
      | c :: s =>
          if negb (c =? COLON)%N
          then Raise (JSONDecodeError ExpectingColonDelimiter)
          else
            '(value, s) <- scan_value (skip_ws s) ;;
            let pairs := pairs ++ [(key, value)] in
            match skip_ws s with
            | [] => Raise (JSONDecodeError ExpectingCommaDelimiter)
            | nextchar :: s =>
                if (nextchar =? RBRACE)%N then Ok (PyDict (dict pairs), s)
                else if negb (nextchar =? COMMA)%N
                then Raise (JSONDecodeError ExpectingCommaDelimiter)
                else
                  match skip_ws s with
                  | [] => Raise (JSONDecodeError ExpectingPropertyName)
                  | q :: s =>
                      if (q =? DQUOTE)%N then JSONObject_loop n' s pairs
                      else Raise (JSONDecodeError ExpectingPropertyName)
                  end
            end
      end
  end.

(** [JSONObject((s, end), ...)]: [s] is the text after the brace. *)
Definition JSONObject (n : nat) (s : pystr) : res (pyval * pystr) :=
  match skip_ws s with
  | nextchar :: s' =>
      if (nextchar =? DQUOTE)%N then JSONObject_loop n s' []
      else if (nextchar =? RBRACE)%N then Ok (PyDict [], s')
      else Raise (JSONDecodeError ExpectingPropertyName)
  | [] => Raise (JSONDecodeError ExpectingPropertyName)
  end.

End Containers.

(** ** The scanner: [_scan_once] *)

(** [fuel] bounds the recursion of the embedding, not that of the
    interpreter: the recursion limit, which [json.loads] meets on a text
    nested some thousand levels deep, is not part of it. *)
Fixpoint scan_once (fuel : nat) (s : pystr) {struct fuel} : res (pyval * pystr) :=
  match fuel with
  | O => OutOfFuel
  | S fuel' =>
    match s with
    | [] => Raise StopIteration
    | nextchar :: s1 =>
      if (nextchar =? DQUOTE)%N then
        '(str, r) <- scanstring s1 [] ;; Ok (PyStr str, r)
      else if (nextchar =? LBRACE)%N then JSONObject (scan_once fuel') fuel' s1
      else if (nextchar =? LBRACKET)%N then JSONArray (scan_once fuel') fuel' s1
      else if startswith s (lit "null") then Ok (PyNone, skipn 4 s)
      else if startswith s (lit "true") then Ok (PyBool true, skipn 4 s)
      else if startswith s (lit "false") then Ok (PyBool false, skipn 5 s)
      else
        match match_number s with
        | Some (integer, frac, exp, r) =>
            match frac, exp with
            | None, None => Ok (PyInt (parse_int integer), r)
            | _, _ =>
                Ok (PyFloat (FloatOf (integer ++ or_empty frac ++ or_empty exp)), r)
            end
        | None =>
            if startswith s (lit "NaN") then Ok (PyFloat NaN, skipn 3 s)
            else if startswith s (lit "Infinity") then Ok (PyFloat PosInf, skipn 8 s)
            else if startswith s (lit "-Infinity") then Ok (PyFloat NegInf, skipn 9 s)
            else Raise StopIteration
        end
    end
  end.

(** [JSONDecoder.raw_decode] and [JSONDecoder.decode] *)
Definition raw_decode (fuel : nat) (s : pystr) : res (pyval * pystr) :=
  scan_value (scan_once fuel) s.

Definition decode (fuel : nat) (s : pystr) : res pyval :=
  '(obj, r) <- raw_decode fuel (skip_ws s) ;;
  match skip_ws r with
  | [] => Ok obj
  | _ :: _ => Raise (JSONDecodeError ExtraData)
  end.

(** [json.loads(s)] for a [str]: the byte-order-mark check, then
    [decode].  The budget [S (length s)] is never exhausted
    ([json_loads_total]). *)
Definition json_loads (s : pystr) : res pyval :=
  if startswith s [65279%N]
  then Raise (JSONDecodeError UnexpectedBOM)
  else decode (S (length s)) s.

(* ================================================================== *)
(** * Part III: [json.dump(obj, f, indent=2)] *)
(* ================================================================== *)

(** ** [py_encode_basestring_ascii] *)

Definition hex_digit (d : N) : N := (if d <? 10 then 48 + d else 87 + d)%N.

(** ['\\u{0:04x}'.format(n)] for [n < 0x10000] *)
Definition u_escape (n : N) : pystr :=
  [BACKSLASH_C; 117%N;
   hex_digit (n / 4096); hex_digit ((n / 256) mod 16);
   hex_digit ((n / 16) mod 16); hex_digit (n mod 16)]%N.

(** [ESCAPE_ASCII]: a backslash, a double quote, or anything outside the
    range from space to tilde. *)
Definition needs_escape (c : N) : bool :=
  ((c =? BACKSLASH_C) || (c =? DQUOTE) || negb ((SPACE <=? c) && (c <=? 126)))%N.

(** The [replace] callback: [ESCAPE_DCT] first, then the [\u] forms. *)
Definition replace (c : N) : pystr :=
  (if c =? BACKSLASH_C then [BACKSLASH_C; BACKSLASH_C]
   else if c =? DQUOTE then [BACKSLASH_C; DQUOTE]
   else if c =? 8 then [BACKSLASH_C; 98]
   else if c =? 12 then [BACKSLASH_C; 102]
   else if c =? 10 then [BACKSLASH_C; 110]
   else if c =? 13 then [BACKSLASH_C; 114]
   else if c =? 9 then [BACKSLASH_C; 116]
   else if c <? 65536 then u_escape c
   else
     let n := c - 65536 in
     let s1 := N.lor 55296 (N.land (N.shiftr n 10) 1023) in
     let s2 := N.lor 56320 (N.land n 1023) in
     u_escape s1 ++ u_escape s2)%N.

Definition escape_ascii (s : pystr) : pystr :=
  flat_map (fun c => if needs_escape c then replace c else [c]) s.

Definition py_encode_basestring_ascii (s : pystr) : pystr :=
  DQUOTE :: escape_ascii s ++ [DQUOTE].

(** ** [_make_iterencode] with [_indent = ' ' * 2], [_item_separator = ','],
    [_key_separator = ': '] *)

Fixpoint join (sep : pystr) (chunks : list pystr) : pystr :=
  match chunks with
  | [] => []
  | [x] => x
  | x :: rest => x ++ sep ++ join sep rest
  end.

Definition newline_indent (level : nat) : pystr :=
  NEWLINE :: repeat SPACE (2 * level).

Section Encoder.

(** [floatstr(float(l))] for a finite literal [l] of the decoder. *)
Variable float_str : pystr -> pystr.

Definition floatstr (f : pyfloat) : pystr :=
  match f with
  | NaN => lit "NaN"
  | PosInf => lit "Infinity"
  | NegInf => lit "-Infinity"
  | FloatOf l => float_str l
  end.

(** [_iterencode(o, _current_indent_level)], chunks joined. *)
Fixpoint iterencode (o : pyval) (level : nat) {struct o} : pystr :=
  match o with
  | PyStr s => py_encode_basestring_ascii s
  | PyNone => lit "null"
  | PyBool true => lit "true"
  | PyBool false => lit "false"
  | PyInt z => str_of_int z
  | PyFloat f => floatstr f
  | PyList lst =>
      match lst with
      | [] => lit "[]"
      | _ :: _ =>
          lit "[" ++ newline_indent (S level)
          ++ join (COMMA :: newline_indent (S level))
                  (map (fun value => iterencode value (S level)) lst)
          ++ newline_indent level ++ lit "]"
      end
  | PyDict dct =>
      match dct with
      | [] => lit "{}"
      | _ :: _ =>
          lit "{" ++ newline_indent (S level)
          ++ join (COMMA :: newline_indent (S level))
                  (map (fun item =>
                          py_encode_basestring_ascii (fst item)
                          ++ lit ": " ++ iterencode (snd item) (S level)) dct)
          ++ newline_indent level ++ lit "}"
      end
  end.

(** The text [json.dump(obj, f, indent=2)] writes to [f]. *)
Definition json_dump_indent2 (obj : pyval) : pystr := iterencode obj 0.

End Encoder.

(* ================================================================== *)
(** * Part IV: [app.py] *)
(* ================================================================== *)

(** ** Effects

    A run of the script changes two things: the sequence of calls made to
    Streamlit and to the model, and the files on disk. *)

Inductive event : Type :=
| St (fn : pystr) (args : list pyval) (kwargs : list (pystr * pyval))
    (* the call [st.fn( *args, **kwargs )] *)
| StError (prefix : pystr) (e : pyexn)
    (* the call [st.error(f"{prefix}{e}")] *)
| GenerateContent (prompt : pystr).
    (* the call [model.generate_content(prompt)] *)

Inductive fsnode : Type :=
| Directory
| File (content : pystr).

Record world : Type := World {
  events : list event;
  fs : list (pystr * fsnode)
}.

Definition M (A : Type) : Type := world -> res A * world.

Definition ret {A : Type} (a : A) : M A := fun w => (Ok a, w).

Definition bindM {A B : Type} (m : M A) (k : A -> M B) : M B :=
  fun w =>
    match m w with
    | (Ok a, w') => k a w'
    | (Raise e, w') => (Raise e, w')
    | (OutOfFuel, w') => (OutOfFuel, w')
    end.

Declare Scope io_scope.
Delimit Scope io_scope with io.
Notation "x <- m ;; k" := (bindM m (fun x => k))
  (at level 61, m at next level, right associativity) : io_scope.
Notation "' p <- m ;; k" := (bindM m (fun x => let 'p := x in k))
  (at level 61, p pattern, m at next level, right associativity) : io_scope.
Notation "m ;; k" := (bindM m (fun _ => k))
  (at level 61, right associativity) : io_scope.

Definition lift {A : Type} (r : res A) : M A := fun w => (r, w).

Definition emit (e : event) : M unit :=
  fun w => (Ok tt, World (events w ++ [e]) (fs w)).

(** [try: body  except Exception as e: handler(e)] *)
Definition try_except {A : Type} (body : M A) (handler : pyexn -> M A) : M A :=
  fun w =>
    match body w with
    | (Raise e, w') => handler e w'
    | r => r
    end.

Fixpoint fs_lookup (l : list (pystr * fsnode)) (path : pystr) : option fsnode :=
  match l with
  | [] => None
  | (p, n) :: l' => if pystr_eqb p path then Some n else fs_lookup l' path
  end.

(** [os.path.exists(path)] *)
Definition path_exists (path : pystr) : M bool :=
  fun w => (Ok (match fs_lookup (fs w) path with Some _ => true | None => false end), w).

(** [os.makedirs(path)], on a disk where [path] is missing. *)
Definition makedirs (path : pystr) : M unit :=
  fun w => (Ok tt, World (events w) ((path, Directory) :: fs w)).

(** [open(path, 'w')] followed by writing [content], on a disk where the
    directory of [path] exists and [path] is no directory: elsewhere the
    call raises [OSError]. *)
Definition write_file (path content : pystr) : M unit :=
  fun w => (Ok tt, World (events w) ((path, File content) :: fs w)).

(** [open(path, 'r').read()] *)
Definition read_file (path : pystr) : M pystr :=
  fun w =>
    match fs_lookup (fs w) path with
    | Some (File content) => (Ok content, w)
    | _ => (Raise (OtherException (lit "OSError")), w)
    end.

(** ** What the program takes from outside *)

Inductive reply : Type :=
| Text (response_text : pystr)     (* [response.text] *)
| Failed (what : pystr).           (* the call or [response.text] raised *)

Record externals : Type := Externals {
  model_reply : pystr -> reply;         (* the generation provider *)
  float_str : pystr -> pystr;           (* [floatstr(float(l))] *)
  float_bool : pystr -> bool;           (* [bool(float(l))] *)
  str_other : pyval -> pystr;           (* [str(v)] for floats, lists, dicts *)
  dataframe_to_csv : pyval -> res pystr (* [pd.DataFrame(v).to_csv(index=False)] *)
}.

(** The state of the widgets in one run of the script, and the clock. *)
Record inputs : Type := Inputs {
  in_num_cards : Z;        (* [st.number_input], between 1 and 200 *)
  in_text_area : pystr;    (* [st.text_area] *)
  in_use_sample : bool;    (* [st.checkbox("Use sample text")] *)
  in_button : bool;        (* [st.button] *)
  in_timestamp : pystr     (* [datetime.now().strftime("%Y%m%d_%H%M%S")] *)
}.

(** ** Dynamic operations on values *)

(** [bool(v)] *)
Definition truthy (float_bool : pystr -> bool) (v : pyval) : bool :=
  match v with
  | PyNone => false
  | PyBool b => b
  | PyInt z => negb (z =? 0)%Z
  | PyFloat (FloatOf l) => float_bool l
  | PyFloat _ => true
  | PyStr s => match s with [] => false | _ => true end
  | PyList l => match l with [] => false | _ => true end
  | PyDict d => match d with [] => false | _ => true end
  end.

(** [len(v)] *)
Definition py_len (v : pyval) : res nat :=
  match v with
  | PyStr s => Ok (length s)
  | PyList l => Ok (length l)
  | PyDict d => Ok (length d)
  | _ => Raise TypeError
  end.

(** The items [for card in v] runs through. *)
Definition py_iter (v : pyval) : res (list pyval) :=
  match v with
  | PyStr s => Ok (map (fun c => PyStr [c]) s)
  | PyList l => Ok l
  | PyDict d => Ok (map (fun item => PyStr (fst item)) d)
  | _ => Raise TypeError
  end.

(** [v[key]] for a string [key] *)
Definition py_getitem (v : pyval) (key : pystr) : res pyval :=
  match v with
  | PyDict d => match dict_get d key with Some x => Ok x | None => Raise KeyError end
  | _ => Raise TypeError
  end.

(** [v[:n]] *)
Definition py_slice_to (n : nat) (v : pyval) : res pyval :=
  match v with
  | PyStr s => Ok (PyStr (firstn n s))
  | PyList l => Ok (PyList (firstn n l))
  | _ => Raise TypeError
  end.

(** [l[i]] on a list of strings *)
Definition list_getitem (l : list pystr) (i : nat) : res pystr :=
  match nth_error l i with
  | Some x => Ok x
  | None => Raise IndexError
  end.

(** ** [generate_flashcards] *)

Definition dq : pystr := [DQUOTE].
Definition nl : pystr := [NEWLINE].

(** The f-string of lines 20 to 39. *)
Definition build_prompt (text : pystr) (num_cards : Z) : pystr :=
  nl
  ++ lit "    You are an expert educator. Analyze the following text and create "
  ++ str_of_int num_cards ++ lit " flashcards." ++ nl
  ++ lit "    " ++ nl
  ++ lit "    TEXT:" ++ nl
  ++ lit "    " ++ text ++ nl
  ++ lit "    " ++ nl
  ++ lit "    INSTRUCTIONS:" ++ nl
  ++ lit "    - Create clear, concise questions that test understanding" ++ nl
  ++ lit "    - Provide accurate, complete answers" ++ nl
  ++ lit "    - Cover key concepts from the text" ++ nl
  ++ lit "    - Make questions varied (definitions, concepts, applications)" ++ nl
  ++ lit "    " ++ nl
  ++ lit "    OUTPUT FORMAT (JSON only, no markdown):" ++ nl
  ++ lit "    [" ++ nl
  ++ lit "        {" ++ dq ++ lit "question" ++ dq ++ lit ": " ++ dq
       ++ lit "What is...?" ++ dq ++ lit ", " ++ dq ++ lit "answer" ++ dq
       ++ lit ": " ++ dq ++ lit "..." ++ dq ++ lit "}," ++ nl
  ++ lit "        {" ++ dq ++ lit "question" ++ dq ++ lit ": " ++ dq
       ++ lit "Explain..." ++ dq ++ lit ", " ++ dq ++ lit "answer" ++ dq
       ++ lit ": " ++ dq ++ lit "..." ++ dq ++ lit "}" ++ nl
  ++ lit "    ]" ++ nl
  ++ lit "    " ++ nl
  ++ lit "    Generate exactly " ++ str_of_int num_cards
  ++ lit " flashcards in valid JSON format." ++ nl
  ++ lit "    ".

Definition fence : pystr := lit "```".

(** Lines 48 and 49: drop a leading [json]. *)
Definition drop_json_tag (response_text : pystr) : pystr :=
  if startswith response_text (lit "json")
  then skipn 4 response_text
  else response_text.

(** Lines 46 to 49: what is handed to [json.loads], given the stripped
    response. *)
Definition remove_code_block (response_text : pystr) : res pystr :=
  if startswith response_text fence then
    response_text <- list_getitem (split fence response_text) 1 ;;
    Ok (drop_json_tag response_text)
  else Ok response_text.

(** Lines 43 to 51: from [response.text] to the value of [flashcards]. *)
Definition decode_response (response_text : pystr) : res pyval :=
  response_text <- remove_code_block (strip response_text) ;;
  json_loads response_text.

Open Scope io_scope.

Definition st (fn : string) (args : list pyval) (kwargs : list (string * pyval))
  : M unit :=
  emit (St (lit fn) args (map (fun kw => (lit (fst kw), snd kw)) kwargs)).

Section App.

Variable ext : externals.

(** [response = model.generate_content(prompt)] and [response.text] *)
Definition generate_content (prompt : pystr) : M pystr :=
  emit (GenerateContent prompt) ;;
  match model_reply ext prompt with
  | Text t => ret t
  | Failed what => lift (Raise (OtherException what))
  end.

Definition st_error (prefix : string) (e : pyexn) : M unit :=
  emit (StError (lit prefix) e).

Definition generate_flashcards (text : pystr) (num_cards : Z) : M (option pyval) :=
  let prompt := build_prompt text num_cards in
  try_except
    (response_text <- generate_content prompt ;;
     flashcards <- lift (decode_response response_text) ;;
     ret (Some flashcards))
    (fun e =>
       match e with
       | JSONDecodeError _ =>
           st_error "Error parsing AI response: " e ;; ret None
       | _ =>
           st_error "Error generating flashcards: " e ;; ret None
       end).

(** ** [save_flashcards] *)

Definition save_flashcards (flashcards : pyval) (filename : pystr)
  : M (pystr * pystr) :=
  there <- path_exists (lit "flashcards") ;;
  (if negb there then makedirs (lit "flashcards") else ret tt) ;;
  (* Save as CSV *)
  csv <- lift (dataframe_to_csv ext flashcards) ;;
  let csv_path := lit "flashcards/" ++ filename ++ lit ".csv" in
  write_file csv_path csv ;;
  (* Save as JSON *)
  let json_path := lit "flashcards/" ++ filename ++ lit ".json" in
  write_file json_path (json_dump_indent2 (float_str ext) flashcards) ;;
  ret (csv_path, json_path).

(** ** [main] *)

(** [str(v)] as an f-string field renders it. *)
Definition py_format (v : pyval) : pystr :=
  match v with
  | PyStr s => s
  | PyInt z => str_of_int z
  | PyNone => lit "None"
  | PyBool true => lit "True"
  | PyBool false => lit "False"
  | _ => str_other ext v
  end.

Definition SAMPLE_TEXT : pystr :=
  nl
  ++ lit "        Machine Learning is a subset of Artificial Intelligence that enables computers to learn from data without being explicitly programmed. " ++ nl
  ++ lit "        There are three main types: Supervised Learning (labeled data), Unsupervised Learning (unlabeled data), and Reinforcement Learning (reward-based)." ++ nl
  ++ lit "        Common algorithms include Linear Regression, Decision Trees, Neural Networks, and K-Means Clustering." ++ nl
  ++ lit "        Applications range from image recognition to recommendation systems." ++ nl
  ++ lit "        ".

Fixpoint for_enumerate (body : nat -> pyval -> M unit) (i : nat) (l : list pyval)
  : M unit :=
  match l with
  | [] => ret tt
  | x :: l' => body i x ;; for_enumerate body (S i) l'
  end.

(** The body of the display loop, lines 124 to 129. *)
Definition show_card (i : nat) (card : pyval) : M unit :=
  question <- lift (py_getitem card (lit "question")) ;;
  head <- lift (py_slice_to 60 question) ;;
  st "expander"
     [PyStr (lit "Flashcard " ++ str_of_int (Z.of_nat i) ++ lit ": "
             ++ py_format head ++ lit "...")] [] ;;
  st "markdown" [PyStr (lit "**Question:**")] [] ;;
  st "info" [question] [] ;;
  st "markdown" [PyStr (lit "**Answer:**")] [] ;;
  answer <- lift (py_getitem card (lit "answer")) ;;
  st "success" [answer] [].

(** Lines 119 to 159: what happens once [flashcards] is truthy. *)
Definition show_and_save (flashcards : pyval) (timestamp : pystr) : M unit :=
  n <- lift (py_len flashcards) ;;
  st "success"
     [PyStr ([9989%N] ++ lit " Generated " ++ str_of_int (Z.of_nat n)
             ++ lit " flashcards!")] [] ;;
  st "subheader" [PyStr ([128218%N] ++ lit " Your Flashcards")] [] ;;
  cards <- lift (py_iter flashcards) ;;
  for_enumerate show_card 1 cards ;;
  let filename := lit "flashcards_" ++ timestamp in
  '(csv_path, json_path) <- save_flashcards flashcards filename ;;
  st "subheader" [PyStr ([128190%N] ++ lit " Download Your Flashcards")] [] ;;
  st "columns" [PyInt 2] [] ;;
  data <- read_file csv_path ;;
  st "download_button" []
     [("label"%string, PyStr ([128229%N] ++ lit " Download CSV"));
      ("data"%string, PyStr data);
      ("file_name"%string, PyStr (filename ++ lit ".csv"));
      ("mime"%string, PyStr (lit "text/csv"))] ;;
  data <- read_file json_path ;;
  st "download_button" []
     [("label"%string, PyStr ([128229%N] ++ lit " Download JSON"));
      ("data"%string, PyStr data);
      ("file_name"%string, PyStr (filename ++ lit ".json"));
      ("mime"%string, PyStr (lit "application/json"))] ;;
  st "info" [PyStr ([9989%N] ++ lit " Files saved in 'flashcards/' folder")] [].

(** Lines 118 to 159: [if flashcards: ...] *)
Definition if_flashcards (flashcards : option pyval) (timestamp : pystr)
  : M unit :=
  match flashcards with
  | Some v =>
      if truthy (float_bool ext) v then show_and_save v timestamp else ret tt
  | None => ret tt
  end.

(** Lines 111 to 159: the handler of the Generate button. *)
Definition on_generate (text_input : pystr) (num_cards : Z) (timestamp : pystr)
  : M unit :=
  if match text_input with [] => true | _ => false end
     || (length text_input <? 50)%nat
  then
    st "warning"
       [PyStr ([9888%N; 65039%N]
               ++ lit " Please enter at least 50 characters of study material.")] []
  else
    st "spinner"
       [PyStr ([129302%N] ++ lit " AI is creating your flashcards...")] [] ;;
    flashcards <- generate_flashcards text_input num_cards ;;
    if_flashcards flashcards timestamp.

(** Lines 80 to 111: the page, down to the Generate button.  Returns
    [text_input] and [num_cards]. *)
Definition draw_page (inp : inputs) : M (pystr * Z) :=
  st "set_page_config" []
     [("page_title"%string, PyStr (lit "AI Flashcard Generator"));
      ("page_icon"%string, PyStr [127924%N])] ;;
  st "title" [PyStr ([127924%N] ++ lit " AI Flashcard Generator")] [] ;;
  st "markdown"
     [PyStr (lit "Transform your study notes into flashcards instantly!")] [] ;;
  (* Sidebar *)
  st "header" [PyStr ([9881%N; 65039%N] ++ lit " Settings")] [] ;;
  st "number_input" [PyStr (lit "How many flashcards do you want?")]
     [("min_value"%string, PyInt 1); ("max_value"%string, PyInt 200);
      ("value"%string, PyInt 10); ("step"%string, PyInt 1)] ;;
  let num_cards := in_num_cards inp in
  st "markdown" [PyStr (lit "---")] [] ;;
  st "info"
     [PyStr ([128161%N]
             ++ lit " **Tip**: Paste lecture notes, textbook excerpts, or any study material!")] [] ;;
  (* Main input *)
  st "subheader" [PyStr ([128221%N] ++ lit " Enter Your Study Material")] [] ;;
  st "text_area" [PyStr (lit "Paste your notes here:")]
     [("height"%string, PyInt 200);
      ("placeholder"%string,
       PyStr (lit "Example: Machine learning is a subset of artificial intelligence..."))] ;;
  let text_input := in_text_area inp in
  (* Sample text option *)
  st "checkbox" [PyStr (lit "Use sample text")] [] ;;
  text_input <-
    (if in_use_sample inp then
       st "text_area" [PyStr (lit "Sample text loaded:"); PyStr SAMPLE_TEXT]
          [("height"%string, PyInt 150)] ;;
       ret SAMPLE_TEXT
     else ret text_input) ;;
  (* Generate button *)
  st "button" [PyStr ([128640%N] ++ lit " Generate Flashcards")]
     [("type"%string, PyStr (lit "primary"))] ;;
  ret (text_input, num_cards).

Definition main (inp : inputs) : M unit :=
  '(text_input, num_cards) <- draw_page inp ;;
  if in_button inp
  then on_generate text_input num_cards (in_timestamp inp)
  else ret tt.

End App.

Close Scope io_scope.

(* ================================================================== *)
(** * Part V: the JSON dialect of [json.loads], as a grammar

    A description of the texts [json.loads] accepts and of the value each
    one denotes, written without reference to the scanner: the grammar of
    RFC 8259, the three constants [NaN], [Infinity] and [-Infinity] that
    Python adds, and Python's rule that a [\u] escape of a high surrogate
    directly followed by a [\u] escape of a low surrogate denotes one
    character. *)
(* ================================================================== *)

Definition Ws (w : pystr) : Prop := Forall (fun c => is_json_ws c = true) w.

Definition Digits (ds : pystr) : Prop := Forall (fun c => is_digit c = true) ds.

(** [pairs_with u t]: [u] is a high surrogate and [t] begins with the
    escape of a low surrogate. *)
Definition pairs_with (u : N) (t : pystr) : bool :=
  is_high_surrogate u && startswith t [BACKSLASH_C; 117%N] &&
  match t with
  | _ :: _ :: k1 :: k2 :: k3 :: k4 :: _ =>
      match hex4 k1 k2 k3 k4 with
      | Some u2 => is_low_surrogate u2
      | None => false
      end
  | _ => false
  end.

(** [StringBody t d]: [t] is the text of a string after its opening quote,
    closing quote included, and [d] the string it denotes. *)
Inductive StringBody : pystr -> pystr -> Prop :=
| SB_end : StringBody [DQUOTE] []
| SB_char c t d :
    c <> DQUOTE -> c <> BACKSLASH_C -> (32 <= c)%N ->
    StringBody t d -> StringBody (c :: t) (c :: d)
| SB_escape e ch t d :
    BACKSLASH e = Some ch ->
    StringBody t d -> StringBody (BACKSLASH_C :: e :: t) (ch :: d)
| SB_unicode h1 h2 h3 h4 u t d :
    hex4 h1 h2 h3 h4 = Some u ->
    pairs_with u t = false ->
    StringBody t d ->
    StringBody (BACKSLASH_C :: 117%N :: h1 :: h2 :: h3 :: h4 :: t) (u :: d)
| SB_pair h1 h2 h3 h4 k1 k2 k3 k4 u u2 t d :
    hex4 h1 h2 h3 h4 = Some u -> is_high_surrogate u = true ->
    hex4 k1 k2 k3 k4 = Some u2 -> is_low_surrogate u2 = true ->
    StringBody t d ->
    StringBody (BACKSLASH_C :: 117%N :: h1 :: h2 :: h3 :: h4
                :: BACKSLASH_C :: 117%N :: k1 :: k2 :: k3 :: k4 :: t)
               (join_surrogates u u2 :: d).

(** The three parts of a number. *)
Inductive IntegerPart : pystr -> Prop :=
| IP_zero : IntegerPart [ZERO]
| IP_digits d ds :
    is_digit d = true -> d <> ZERO -> Digits ds -> IntegerPart (d :: ds)
| IP_minus i :
    hd 0%N i <> MINUS -> IntegerPart i -> IntegerPart (MINUS :: i).

Inductive FractionPart : pystr -> Prop :=
| FP ds : ds <> [] -> Digits ds -> FractionPart (DOT :: ds).

Inductive ExponentPart : pystr -> Prop :=
| EP e sign ds :
    e = 101%N \/ e = 69%N ->
    sign = [] \/ sign = [PLUS] \/ sign = [MINUS] ->
    ds <> [] -> Digits ds -> ExponentPart (e :: sign ++ ds).

Definition Optional (P : pystr -> Prop) (o : option pystr) : Prop :=
  match o with
  | Some x => P x
  | None => True
  end.

Inductive Number : pystr -> pyval -> Prop :=
| Num_int i :
    IntegerPart i -> Number i (PyInt (parse_int i))
| Num_float i frac exp :
    IntegerPart i -> Optional FractionPart frac -> Optional ExponentPart exp ->
    (frac <> None \/ exp <> None) ->
    Number (i ++ or_empty frac ++ or_empty exp)
           (PyFloat (FloatOf (i ++ or_empty frac ++ or_empty exp))).

(** [Value c v]: the text [c], without surrounding whitespace, is a JSON
    value denoting [v].  [Elements] is the inside of an array from its first
    element to the closing bracket; [Members] the inside of an object from
    just after the opening quote of a key to the closing brace. *)
Inductive Value : pystr -> pyval -> Prop :=
| V_null : Value (lit "null") PyNone
| V_true : Value (lit "true") (PyBool true)
| V_false : Value (lit "false") (PyBool false)
| V_NaN : Value (lit "NaN") (PyFloat NaN)
| V_Infinity : Value (lit "Infinity") (PyFloat PosInf)
| V_NegInfinity : Value (lit "-Infinity") (PyFloat NegInf)
| V_number c v : Number c v -> Value c v
| V_string body s : StringBody body s -> Value (DQUOTE :: body) (PyStr s)
| V_array_empty w : Ws w -> Value (LBRACKET :: w ++ [RBRACKET]) (PyList [])
| V_array w body l :
    Ws w -> Elements body l -> Value (LBRACKET :: w ++ body) (PyList l)
| V_object_empty w : Ws w -> Value (LBRACE :: w ++ [RBRACE]) (PyDict [])
| V_object w body pairs :
    Ws w -> Members body pairs ->
    Value (LBRACE :: w ++ DQUOTE :: body) (PyDict (dict pairs))
with Elements : pystr -> list pyval -> Prop :=
| E_last c v w :
    Value c v -> Ws w -> Elements (c ++ w ++ [RBRACKET]) [v]
| E_more c v w w' rest l :
    Value c v -> Ws w -> Ws w' -> Elements rest l ->
    Elements (c ++ w ++ COMMA :: w' ++ rest) (v :: l)
with Members : pystr -> list (pystr * pyval) -> Prop :=
| M_last key k w1 w2 c v w3 :
    StringBody key k -> Ws w1 -> Ws w2 -> Value c v -> Ws w3 ->
    Members (key ++ w1 ++ COLON :: w2 ++ c ++ w3 ++ [RBRACE]) [(k, v)]
| M_more key k w1 w2 c v w3 w4 rest l :
    StringBody key k -> Ws w1 -> Ws w2 -> Value c v -> Ws w3 -> Ws w4 ->
    Members rest l ->
    Members (key ++ w1 ++ COLON :: w2 ++ c ++ w3 ++ COMMA :: w4 ++ DQUOTE :: rest)
            ((k, v) :: l).

Scheme Value_mind := Minimality for Value Sort Prop
  with Elements_mind := Minimality for Elements Sort Prop
  with Members_mind := Minimality for Members Sort Prop.

Combined Scheme Value_mutind from Value_mind, Elements_mind, Members_mind.

(** A JSON document: a value with JSON whitespace around it. *)
Definition JsonText (s : pystr) (v : pyval) : Prop :=
  exists w1 c w2, s = w1 ++ c ++ w2 /\ Ws w1 /\ Ws w2 /\ Value c v.

(** RFC 8259 has no [NaN], [Infinity] or [-Infinity]: the three constants
    are an extension of [json.loads].  A value is strict when none of them
    occurs in it, and a text is a document of RFC 8259 when it is a document
    of the dialect that denotes a strict value. *)
Fixpoint strict_value (v : pyval) : Prop :=
  match v with
  | PyFloat (FloatOf _) => True
  | PyFloat _ => False
  | PyList l =>
      (fix all (l : list pyval) : Prop :=
         match l with
         | [] => True
         | x :: l' => strict_value x /\ all l'
         end) l
  | PyDict d =>
      (fix all (d : list (pystr * pyval)) : Prop :=
         match d with
         | [] => True
         | item :: d' => strict_value (snd item) /\ all d'
         end) d
  | _ => True
  end.

Definition Rfc8259Text (s : pystr) : Prop :=
  exists v, JsonText s v /\ strict_value v.

(** What may follow a number without changing how it is read: the end of
    the text, or a character that is not a digit, a dot or an exponent
    mark. *)
Definition is_number (v : pyval) : bool :=
  match v with
  | PyInt _ => true
  | PyFloat (FloatOf _) => true
  | _ => false
  end.

Definition number_stop (c : N) : bool :=
  negb (is_digit c || (c =? DOT) || (c =? 101) || (c =? 69))%N.


(** [stops r]: [r] does not begin with a digit.  [num_follow r]: [r] may
    follow a number. *)
Definition stops (r : pystr) : Prop :=
  match r with
  | [] => True
  | c :: _ => is_digit c = false
  end.

Definition num_follow (r : pystr) : Prop :=
  match r with
  | [] => True
  | c :: _ => number_stop c = true
  end.

Definition follow_ok (v : pyval) (r : pystr) : Prop :=
  is_number v = true -> num_follow r.

(** The characters a value can begin with and end with. *)
Definition value_start (c : N) : bool :=
  ((c =? DQUOTE) || (c =? LBRACE) || (c =? LBRACKET)
   || (c =? 110) || (c =? 116) || (c =? 102)       (* n t f *)
   || is_digit c || (c =? MINUS)
   || (c =? 78) || (c =? 73))%N.                    (* N I *)

Definition value_end (c : N) : bool :=
  ((c =? DQUOTE) || (c =? RBRACE) || (c =? RBRACKET)
   || (c =? 108) || (c =? 101)                      (* l e *)
   || is_digit c
   || (c =? 78) || (c =? 121))%N.                   (* N y *)

Definition is_decode_error (e : pyexn) : Prop :=
  exists msg, e = JSONDecodeError msg.

(* ================================================================== *)
(** * Part VI: the vocabulary of the properties *)
(* ================================================================== *)

(** Python whitespace. *)
Definition Spaces (w : pystr) : Prop := Forall (fun c => isspace c = true) w.

(** A text wrapped in a fence with the [json] language tag. *)
Definition fenced (t : pystr) : pystr := fence ++ lit "json" ++ t ++ fence.

(** A flashcard record and the value [json.loads] builds for it. *)
Record flashcard : Type := Flashcard {
  question : pystr;
  answer : pystr
}.

Definition card_value (c : flashcard) : pyval :=
  PyDict [(lit "question", PyStr (question c)); (lit "answer", PyStr (answer c))].

Definition flashcards_value (cards : list flashcard) : pyval :=
  PyList (map card_value cards).

(** The text of a field: code points up to 0x10FFFF, in which no high
    surrogate is directly followed by a low surrogate.  Every sequence of
    Unicode scalar values is such a text. *)
Fixpoint unpaired (t : pystr) : bool :=
  match t with
  | a :: t' =>
      negb (is_high_surrogate a && is_low_surrogate (hd 0%N t')) && unpaired t'
  | [] => true
  end.

Definition is_code_point (c : N) : bool := (c <=? 1114111)%N.

Definition is_text (t : pystr) : Prop :=
  forallb is_code_point t = true /\ unpaired t = true.

Definition is_scalar_value (c : N) : bool :=
  is_code_point c && negb (is_high_surrogate c) && negb (is_low_surrogate c).

Definition well_formed_card (c : flashcard) : Prop :=
  is_text (question c) /\ is_text (answer c).

(** The three shapes of an escape. *)
Inductive escape_shape (c : N) : pystr -> Prop :=
| Esc_short e :
    BACKSLASH e = Some c -> escape_shape c [92%N; e]
| Esc_unicode h1 h2 h3 h4 :
    hex4 h1 h2 h3 h4 = Some c ->
    escape_shape c [92%N; 117%N; h1; h2; h3; h4]
| Esc_pair h1 h2 h3 h4 k1 k2 k3 k4 u u2 :
    hex4 h1 h2 h3 h4 = Some u -> is_high_surrogate u = true ->
    hex4 k1 k2 k3 k4 = Some u2 -> is_low_surrogate u2 = true ->
    join_surrogates u u2 = c ->
    escape_shape c [92%N; 117%N; h1; h2; h3; h4; 92%N; 117%N; k1; k2; k3; k4].

(** The piece [escape_ascii] writes for one character. *)
Definition escape_one (c : N) : pystr :=
  if needs_escape c then replace c else [c].

(** The number of calls made to the provider in a log. *)
Fixpoint provider_calls (evs : list event) : nat :=
  match evs with
  | [] => 0
  | GenerateContent _ :: evs' => S (provider_calls evs')
  | _ :: evs' => provider_calls evs'
  end.

(** What [draw_page] adds to the log. *)
Definition page_events (inp : inputs) : list event :=
  events (snd (draw_page inp (World [] []))).

Definition page_text (inp : inputs) : pystr :=
  if in_use_sample inp then SAMPLE_TEXT else in_text_area inp.

Definition spinner_event : event :=
  St (lit "spinner")
     [PyStr ([129302%N] ++ lit " AI is creating your flashcards...")] [].

Definition warning_event : event :=
  St (lit "warning")
     [PyStr ([9888%N; 65039%N]
             ++ lit " Please enter at least 50 characters of study material.")] [].

(** A text made of Unicode scalar values only, such as one decoded from
    UTF-8. *)
Definition Scalars (t : pystr) : Prop :=
  Forall (fun c => is_scalar_value c = true) t.

(** Every string inside a value, keys included, is a text. *)
Fixpoint strings_are_text (v : pyval) : Prop :=
  match v with
  | PyStr s => is_text s
  | PyList l =>
      (fix all (l : list pyval) : Prop :=
         match l with
         | [] => True
         | x :: l' => strings_are_text x /\ all l'
         end) l
  | PyDict d =>
      (fix all (d : list (pystr * pyval)) : Prop :=
         match d with
         | [] => True
         | item :: d' =>
             (is_text (fst item) /\ strings_are_text (snd item)) /\ all d'
         end) d
  | _ => True
  end.

Definition item_is_text (item : pystr * pyval) : Prop :=
  is_text (fst item) /\ strings_are_text (snd item).

(** Externals for worked examples: a provider that always answers [raw]. *)
Definition answering (raw : pystr) : externals :=
  Externals (fun _ => Text raw) (fun l => l) (fun _ => true)
            (fun _ => []) (fun _ => Ok []).

(** ** Worked examples *)

(** The array whose one element is a string of three backticks. *)
Definition ex_fence_in_array : pystr := lit "[" ++ dq ++ fence ++ dq ++ lit "]".

(** The one-card response of the specification, on a line of its own. *)
Definition ex_one_card : pystr :=
  nl ++ lit "[{" ++ dq ++ lit "question" ++ dq ++ lit ":" ++ dq ++ lit "Q" ++ dq
  ++ lit "," ++ dq ++ lit "answer" ++ dq ++ lit ":" ++ dq ++ lit "A" ++ dq
  ++ lit "}]" ++ nl.

Definition ex_one_card_value : list pyval :=
  [PyDict [(lit "question", PyStr (lit "Q")); (lit "answer", PyStr (lit "A"))]].

(** A JSON object. *)
Definition ex_object : pystr := lit "{" ++ dq ++ lit "a" ++ dq ++ lit ": 1}".

Definition ex_object_value : pyval := PyDict [(lit "a", PyInt 1)].

(** A truncated array and an array with a trailing comma. *)
Definition ex_truncated : pystr :=
  lit "[{" ++ dq ++ lit "question" ++ dq ++ lit ": " ++ dq ++ lit "Q" ++ dq
  ++ lit ", " ++ dq ++ lit "answer" ++ dq ++ lit ": " ++ dq ++ lit "A" ++ dq
  ++ lit "}, {" ++ dq ++ lit "question" ++ dq ++ lit ": " ++ dq ++ lit "Wh".

Definition ex_trailing_comma : pystr := lit "[1, 2,]".

(** An array that holds the constant [NaN]. *)
Definition ex_nan : pystr := lit "[NaN]".

(** A fenced response whose payload itself contains a fence. *)
Definition ex_fence_in_payload : pystr :=
  fence ++ lit "json" ++ nl ++ lit "[" ++ dq ++ lit "a" ++ fence ++ lit "b" ++ dq
  ++ lit "]" ++ nl ++ fence.

(** Forty characters of study material. *)
Definition ex_forty : pystr := lit "Photosynthesis turns sunlight into food.".

Definition ex_inputs (text : pystr) (use_sample : bool) : inputs :=
  Inputs 3 text use_sample true (lit "20250101_120000").

Definition ex_cards : list flashcard :=
  [Flashcard (lit "Q") (lit "A");
   Flashcard (lit "What is " ++ dq ++ lit "x" ++ dq ++ lit "?" ++ [233%N; 128512%N])
             (lit "a\b" ++ nl ++ [55357%N] ++ lit "z")].

(** ** What a computation changes *)

(** [keeps R m]: running [m] takes every state to one related to it by [R],
    whether [m] returns or raises. *)
Definition keeps (R : world -> world -> Prop) (A : Type) (m : M A) : Prop :=
  forall w, R w (snd (m w)).

(** Entries are added to the log, none of them a call to the provider. *)
Definition no_call (w w' : world) : Prop :=
  exists es, events w' = events w ++ es /\ provider_calls es = 0.

(** The files are left as they are. *)
Definition same_files (w w' : world) : Prop := fs w' = fs w.

(** The files are left as they are except, possibly, at [paths]. *)
Definition same_files_but (paths : list pystr) (w w' : world) : Prop :=
  forall p, ~ In p paths -> fs_lookup (fs w') p = fs_lookup (fs w) p.

(** ** The export of a run *)

(** [filename], [csv_path] and [json_path] of lines 133, 68 and 72. *)
Definition filename_of (timestamp : pystr) : pystr := lit "flashcards_" ++ timestamp.

Definition csv_path_of (filename : pystr) : pystr :=
  lit "flashcards/" ++ filename ++ lit ".csv".

Definition json_path_of (filename : pystr) : pystr :=
  lit "flashcards/" ++ filename ++ lit ".json".

Definition export_paths (filename : pystr) : list pystr :=
  [lit "flashcards"; csv_path_of filename; json_path_of filename].

(** The files after an export: the directory made if it was missing, then
    the CSV file, then the JSON file. *)
Definition exported (filename csv json : pystr) (files : list (pystr * fsnode))
  : list (pystr * fsnode) :=
  (json_path_of filename, File json)
  :: (csv_path_of filename, File csv)
  :: match fs_lookup files (lit "flashcards") with
     | Some _ => files
     | None => (lit "flashcards", Directory) :: files
     end.

(** A disk the export can be written to: [flashcards] is missing or is a
    directory, and neither of the two paths of the export is a directory. *)
Definition writable (filename : pystr) (files : list (pystr * fsnode)) : Prop :=
  (fs_lookup files (lit "flashcards") = None \/
   fs_lookup files (lit "flashcards") = Some Directory) /\
  fs_lookup files (csv_path_of filename) <> Some Directory /\
  fs_lookup files (json_path_of filename) <> Some Directory.

(** ** The page of a successful run *)

(** What the display loop adds to the log for the card numbered [i]. *)
Definition card_events (i : nat) (c : flashcard) : list event :=
  [St (lit "expander")
      [PyStr (lit "Flashcard " ++ str_of_int (Z.of_nat i) ++ lit ": "
              ++ firstn 60 (question c) ++ lit "...")] [];
   St (lit "markdown") [PyStr (lit "**Question:**")] [];
   St (lit "info") [PyStr (question c)] [];
   St (lit "markdown") [PyStr (lit "**Answer:**")] [];
   St (lit "success") [PyStr (answer c)] []].

Fixpoint cards_events (i : nat) (cards : list flashcard) : list event :=
  match cards with
  | [] => []
  | c :: cards' => card_events i c ++ cards_events (S i) cards'
  end.

(** Lines 119 to 129: the success message, the heading and the cards. *)
Definition display_events (cards : list flashcard) : list event :=
  [St (lit "success")
      [PyStr ([9989%N] ++ lit " Generated "
              ++ str_of_int (Z.of_nat (length cards)) ++ lit " flashcards!")] [];
   St (lit "subheader") [PyStr ([128218%N] ++ lit " Your Flashcards")] []]
  ++ cards_events 1 cards.

(** Lines 137 to 159: the two download buttons and the closing note. *)
Definition download_events (filename csv json : pystr) : list event :=
  [St (lit "subheader") [PyStr ([128190%N] ++ lit " Download Your Flashcards")] [];
   St (lit "columns") [PyInt 2] [];
   St (lit "download_button") []
      [(lit "label", PyStr ([128229%N] ++ lit " Download CSV"));
       (lit "data", PyStr csv);
       (lit "file_name", PyStr (filename ++ lit ".csv"));
       (lit "mime", PyStr (lit "text/csv"))];
   St (lit "download_button") []
      [(lit "label", PyStr ([128229%N] ++ lit " Download JSON"));
       (lit "data", PyStr json);
       (lit "file_name", PyStr (filename ++ lit ".json"));
       (lit "mime", PyStr (lit "application/json"))];
   St (lit "info") [PyStr ([9989%N] ++ lit " Files saved in 'flashcards/' folder")] []].

(** An element of the response the display loop cannot show: not an object,
    or an object without [question] or without [answer]. *)
Definition lacks_field (card : pyval) : bool :=
  match py_getitem card (lit "question"), py_getitem card (lit "answer") with
  | Ok _, Ok _ => false
  | _, _ => true
  end.

(** A text that reading the file in text mode gives back as it was written:
    ASCII characters, none of them a carriage return. *)
Definition plain_ascii (c : N) : bool := ((c <? 128) && negb (c =? CR))%N.

Definition reads_back (t : pystr) : Prop := Forall (fun c => plain_ascii c = true) t.

(** ** Values that can be exported and read back *)

(** Every object inside the value has pairwise distinct keys. *)
Fixpoint keys_distinct (v : pyval) : Prop :=
  match v with
  | PyList l =>
      (fix all (l : list pyval) : Prop :=
         match l with
         | [] => True
         | x :: l' => keys_distinct x /\ all l'
         end) l
  | PyDict d =>
      NoDup (map fst d) /\
      (fix all (d : list (pystr * pyval)) : Prop :=
         match d with
         | [] => True
         | item :: d' => keys_distinct (snd item) /\ all d'
         end) d
  | _ => True
  end.

(** No float inside the value: its numbers are integers. *)
Fixpoint no_float (v : pyval) : Prop :=
  match v with
  | PyFloat _ => False
  | PyList l =>
      (fix all (l : list pyval) : Prop :=
         match l with
         | [] => True
         | x :: l' => no_float x /\ all l'
         end) l
  | PyDict d =>
      (fix all (d : list (pystr * pyval)) : Prop :=
         match d with
         | [] => True
         | item :: d' => no_float (snd item) /\ all d'
         end) d
  | _ => True
  end.

Definition exportable (v : pyval) : Prop :=
  strings_are_text v /\ keys_distinct v /\ no_float v.

(** ** More worked examples *)

(** A response whose only card has no answer. *)
Definition ex_missing_answer : pystr :=
  lit "[{" ++ dq ++ lit "question" ++ dq ++ lit ": " ++ dq ++ lit "Q" ++ dq
  ++ lit "}]".

(** Externals of a provider that answers [raw], with a CSV writer that
    returns [csv]. *)
Definition answering_with_csv (raw csv : pystr) : externals :=
  Externals (fun _ => Text raw) (fun l => l) (fun _ => true)
            (fun _ => []) (fun _ => Ok csv).

Definition ex_csv : pystr :=
  lit "question,answer" ++ nl ++ lit "Q,A" ++ nl.

(** A fenced response whose tag is written in capitals. *)
Definition ex_capital_tag : pystr :=
  fence ++ lit "JSON" ++ nl ++ lit "[1]" ++ nl ++ fence.

(** A JSON text followed by a remark. *)
Definition ex_remark_after : pystr := lit "[1]" ++ nl ++ lit "Hope this helps!".

(** A value with every kind of entry but a float. *)
Definition ex_mixed_value : pyval :=
  PyList
    [PyDict [(lit "question", PyStr ([233%N; 128512%N] ++ nl));
             (lit "answer", PyList [PyInt (-12); PyInt 0; PyNone; PyBool true]);
             (lit "more", PyDict [])];
     PyList [];
     PyBool false;
     PyStr []].

(** An object whose text repeats a key. *)
Definition ex_repeated_key : pystr :=
  lit "{" ++ dq ++ lit "a" ++ dq ++ lit ": 1, " ++ dq ++ lit "a" ++ dq
  ++ lit ": 2}".

(** A disk that holds one file of the user. *)
Definition ex_disk : list (pystr * fsnode) := [(lit "notes.txt", File (lit "keep"))].

(* ================================================================== *)
(** * Part VII: facts about Python strings *)
(* ================================================================== *)

Lemma pystr_eqb_refl (a : pystr) : pystr_eqb a a = true.
Proof. induction a; simpl; auto. rewrite N.eqb_refl; auto. Qed.

Lemma pystr_eqb_eq (a b : pystr) : pystr_eqb a b = true <-> a = b.
Proof.
  split.
  - revert b; induction a as [|x a IH]; destruct b as [|y b]; simpl; try easy.
    intros H. apply andb_true_iff in H as [H1 H2].
    apply N.eqb_eq in H1. f_equal; auto.
  - intros ->. apply pystr_eqb_refl.
Qed.

Lemma startswith_app (p s : pystr) : startswith (p ++ s) p = true.
Proof. induction p; simpl; auto. rewrite N.eqb_refl; auto. Qed.

Lemma startswith_true (s p : pystr) :
  startswith s p = true -> s = p ++ skipn (length p) s.
Proof.
  revert s; induction p as [|x p IH]; intros [|c s]; simpl; try easy.
  intros H. apply andb_true_iff in H as [H1 H2].
  apply N.eqb_eq in H1. subst. f_equal. auto.
Qed.

Lemma startswith_iff (s p : pystr) :
  startswith s p = true <-> exists r, s = p ++ r.
Proof.
  split.
  - intros H. eexists. apply startswith_true, H.
  - intros [r ->]. apply startswith_app.
Qed.

(** ** [find] and [split] *)

Lemma find_Some (sep s : pystr) (i : nat) :
  find sep s = Some i ->
  s = firstn i s ++ sep ++ skipn (i + length sep) s /\ i + length sep <= length s.
Proof.
  revert i; induction s as [|c s IH]; intros i.
  - simpl. destruct sep; simpl; try discriminate.
    intros [= <-]. auto.
  - cbn [find]. destruct (startswith (c :: s) sep) eqn:E.
    + intros [= <-]. simpl firstn. simpl plus.
      apply startswith_true in E. split; [exact E|].
      apply (f_equal (@length N)) in E. rewrite length_app in E. lia.
    + destruct (find sep s) as [j|] eqn:F; simpl; try discriminate.
      intros [= <-]. destruct (IH j eq_refl) as [H1 H2].
      simpl. split; [f_equal; exact H1 | lia].
Qed.

Lemma find_None (sep s : pystr) :
  find sep s = None -> ~ substring sep s.
Proof.
  induction s as [|c s IH]; cbn [find].
  - destruct (startswith [] sep) eqn:E; try discriminate.
    intros _ (pre & post & H).
    destruct pre; destruct sep; simpl in *; try discriminate.
  - destruct (startswith (c :: s) sep) eqn:E; try discriminate.
    destruct (find sep s) eqn:F; simpl; try discriminate.
    intros _ (pre & post & H). destruct pre as [|x pre].
    + simpl in H. rewrite H, startswith_app in E. discriminate.
    + simpl in H. injection H as -> ->. apply IH; auto.
      exists pre, post; auto.
Qed.

Lemma find_substring (sep s : pystr) :
  substring sep s <-> exists i, find sep s = Some i.
Proof.
  split.
  - intros H. destruct (find sep s) eqn:F; eauto.
    exfalso. eapply find_None; eauto.
  - intros [i H]. apply find_Some in H as [H _].
    eexists _, _. exact H.
Qed.

Lemma find_not_substring (sep s : pystr) :
  ~ substring sep s -> find sep s = None.
Proof.
  intros H. destruct (find sep s) eqn:F; auto.
  exfalso. apply H, find_substring. eauto.
Qed.

(** More rounds than characters change nothing. *)
Lemma find_nil (sep : pystr) : sep <> [] -> find sep [] = None.
Proof. destruct sep; [congruence | reflexivity]. Qed.

Lemma split_rounds_stable (sep : pystr) :
  sep <> [] ->
  forall n m s, length s <= n -> length s <= m ->
  split_rounds n sep s = split_rounds m sep s.
Proof.
  intros Hsep. induction n as [|n IH]; intros m s Hn Hm.
  - destruct s; [|simpl in Hn; lia].
    destruct m; cbn [split_rounds]; auto. rewrite find_nil; auto.
  - destruct m as [|m].
    + destruct s; [|simpl in Hm; lia]. cbn [split_rounds]. rewrite find_nil; auto.
    + cbn [split_rounds]. destruct (find sep s) as [i|] eqn:F; auto.
      f_equal. apply find_Some in F as [_ F].
      assert (length sep <> 0) by (destruct sep; [congruence | simpl; lia]).
      apply IH; rewrite length_skipn; lia.
Qed.

Lemma split_enough_rounds (sep : pystr) :
  sep <> [] ->
  forall n s, length s <= n -> split_rounds n sep s = split sep s.
Proof. intros Hsep n s Hn. apply split_rounds_stable; auto. Qed.

(** ** [strip] *)

Lemma lstrip_spaces (w s : pystr) :
  Forall (fun c => isspace c = true) w -> lstrip (w ++ s) = lstrip s.
Proof. induction 1 as [|c w Hc _ IH]; simpl; auto. rewrite Hc; auto. Qed.

Lemma lstrip_nonspace (c : N) (s : pystr) :
  isspace c = false -> lstrip (c :: s) = c :: s.
Proof. intros H; simpl; rewrite H; auto. Qed.

Lemma strip_all_spaces (w : pystr) :
  Forall (fun c => isspace c = true) w -> strip w = [].
Proof.
  intros H. unfold strip, rstrip.
  rewrite <- (app_nil_r w), lstrip_spaces; auto.
Qed.

(** Stripping removes exactly the whitespace around a text whose first and
    last characters are not whitespace. *)
Lemma strip_core (w1 w2 core : pystr) :
  Forall (fun c => isspace c = true) w1 ->
  Forall (fun c => isspace c = true) w2 ->
  core <> [] ->
  isspace (hd 0%N core) = false ->
  isspace (last core 0%N) = false ->
  strip (w1 ++ core ++ w2) = core.
Proof.
  intros H1 H2 Hne Hh Hl. unfold strip, rstrip.
  rewrite lstrip_spaces by auto.
  destruct core as [|c core]; [congruence|]. simpl in Hh.
  change ((c :: core) ++ w2) with (c :: core ++ w2).
  rewrite lstrip_nonspace by auto.
  change (c :: core ++ w2) with ((c :: core) ++ w2).
  rewrite rev_app_distr, lstrip_spaces.
  2:{ apply Forall_rev; auto. }
  destruct (exists_last Hne) as (core' & z & E).
  rewrite E in *. rewrite last_last in Hl.
  rewrite rev_app_distr. simpl. rewrite Hl.
  simpl. rewrite rev_involutive. reflexivity.
Qed.

(** ** JSON whitespace *)

Lemma json_ws_isspace (c : N) : is_json_ws c = true -> isspace c = true.
Proof.
  unfold is_json_ws, isspace. intros H.
  repeat (apply orb_true_iff in H as [H|H]); apply N.eqb_eq in H; subst; reflexivity.
Qed.

Lemma Ws_spaces (w : pystr) : Ws w -> Forall (fun c => isspace c = true) w.
Proof. intros H. eapply Forall_impl; [|exact H]. apply json_ws_isspace. Qed.

Lemma skip_ws_app (w s : pystr) : Ws w -> skip_ws (w ++ s) = skip_ws s.
Proof. induction 1 as [|c w Hc _ IH]; simpl; auto. rewrite Hc; auto. Qed.

Lemma skip_ws_stop (c : N) (s : pystr) :
  is_json_ws c = false -> skip_ws (c :: s) = c :: s.
Proof. intros H; simpl; rewrite H; auto. Qed.

Lemma skip_ws_split (s : pystr) : exists w, Ws w /\ s = w ++ skip_ws s.
Proof.
  induction s as [|c s (w & Hw & E)]; simpl.
  - exists []; split; [constructor | reflexivity].
  - destruct (is_json_ws c) eqn:Hc.
    + exists (c :: w); split; [constructor; auto | simpl; f_equal; auto].
    + exists []; split; [constructor | reflexivity].
Qed.

Lemma skip_ws_head (s : pystr) (c : N) (r : pystr) :
  skip_ws s = c :: r -> is_json_ws c = false.
Proof.
  induction s as [|x s IH]; simpl; try discriminate.
  destruct (is_json_ws x) eqn:Hx; auto.
  intros [= -> ->]; auto.
Qed.

Lemma skip_ws_all (w : pystr) : Ws w -> skip_ws w = [].
Proof. intros H. rewrite <- (app_nil_r w), skip_ws_app; auto. Qed.

Lemma skip_ws_nil (s : pystr) : skip_ws s = [] -> Ws s.
Proof.
  intros H. destruct (skip_ws_split s) as (w & Hw & E).
  rewrite H, app_nil_r in E. subst; auto.
Qed.

Lemma Ws_app (a b : pystr) : Ws a -> Ws b -> Ws (a ++ b).
Proof. intros; apply Forall_app; auto. Qed.

(* ================================================================== *)
(** * Part VIII: the scanner and the grammar agree *)
(* ================================================================== *)

(** ** Strings *)

Lemma pairs_with_app (u : N) (t r : pystr) :
  pairs_with u t = true -> pairs_with u (t ++ r) = true.
Proof.
  unfold pairs_with. destruct (is_high_surrogate u); [|discriminate].
  destruct t as [|a [|b [|k1 [|k2 [|k3 [|k4 t]]]]]]; simpl;
    rewrite ?andb_false_r; try discriminate; auto.
Qed.

Lemma StringBody_nonempty (t d : pystr) : StringBody t d -> t <> [].
Proof. destruct 1; discriminate. Qed.

Lemma StringBody_length (t d : pystr) : StringBody t d -> 0 < length t.
Proof. destruct 1; simpl; lia. Qed.

Lemma BACKSLASH_not_u : BACKSLASH 117 = None.
Proof. reflexivity. Qed.

(** A body that begins with the escape of a low surrogate goes on after
    it, be it with the closing quote alone. *)
Lemma pairs_with_length (u : N) (t d : pystr) :
  pairs_with u t = true -> StringBody t d -> 6 < length t.
Proof.
  unfold pairs_with. intros Hp HB.
  apply andb_true_iff in Hp as [Hp _]. apply andb_true_iff in Hp as [_ Hsw].
  inversion HB as [ | c t' d' Hq Hb Hc HB' | e ch t' d' He HB'
                  | h1 h2 h3 h4 u' t' d' Hx Hpw HB'
                  | h1 h2 h3 h4 k1 k2 k3 k4 u' u2 t' d' Hx Hhi Hx2 Hlo HB' ];
    subst; simpl in Hsw; try discriminate.
  - destruct (N.eqb_spec c 92); [contradiction | discriminate].
  - destruct (N.eqb_spec e 117) as [->|]; [|discriminate].
    rewrite BACKSLASH_not_u in He. discriminate.
  - pose proof (StringBody_length HB'). simpl. lia.
  - simpl. lia.
Qed.

Lemma pairs_with_start (u : N) (t : pystr) :
  pairs_with u t = true ->
  is_high_surrogate u = true /\ startswith t [92%N; 117%N] = true.
Proof.
  unfold pairs_with. intros Hp.
  apply andb_true_iff in Hp as [Hp _]. now apply andb_true_iff in Hp.
Qed.

Lemma scanstring_sound (n : nat) :
  forall s chunks str r,
    length s <= n ->
    scanstring s chunks = Ok (str, r) ->
    exists body d, s = body ++ r /\ StringBody body d /\ str = chunks ++ d.
Proof.
  induction n as [|n IH]; intros s chunks str r Hlen H.
  { destruct s; simpl in *; [discriminate | lia]. }
  destruct s as [|c s1]; [discriminate|]. cbn [scanstring] in H.
  destruct (N.eqb_spec c 34) as [->|Hq].
  { injection H as <- <-. exists [34%N], []. repeat split.
    - constructor.
    - now rewrite app_nil_r. }
  destruct (N.eqb_spec c 92) as [->|Hb]; cbn [negb] in H.
  2:{ destruct (N.ltb_spec c 32); [discriminate|].
      apply IH in H; [|simpl in Hlen; lia].
      destruct H as (body & d & -> & HB & ->).
      exists (c :: body), (c :: d). repeat split.
      - now constructor.
      - now rewrite <- app_assoc. }
  destruct s1 as [|esc s2]; [discriminate|].
  destruct (N.eqb_spec esc 117) as [->|Hu]; cbn [negb] in H.
  2:{ destruct (BACKSLASH esc) as [ch|] eqn:Hesc; [|discriminate].
      apply IH in H; [|simpl in Hlen; lia].
      destruct H as (body & d & -> & HB & ->).
      exists (92%N :: esc :: body), (ch :: d). repeat split.
      - now constructor.
      - now rewrite <- app_assoc. }
  destruct s2 as [|h1 [|h2 [|h3 [|h4 s3]]]]; try discriminate.
  destruct (Nat.eqb_spec (length s3) 0) as [|Hne3]; [discriminate|].
  destruct (hex4 h1 h2 h3 h4) as [uni|] eqn:Hx; [|discriminate].
  destruct (is_high_surrogate uni && (6 <? length s3)%nat
            && startswith s3 [92%N; 117%N]) eqn:Hp.
  - destruct s3 as [|a [|b [|k1 [|k2 [|k3 [|k4 s4]]]]]];
      try (rewrite andb_false_r in Hp; discriminate Hp).
    destruct (hex4 k1 k2 k3 k4) as [uni2|] eqn:Hx2; [|discriminate].
    apply andb_true_iff in Hp as [Hp Hsw].
    apply andb_true_iff in Hp as [Hhi _].
    destruct (is_low_surrogate uni2) eqn:Hlo.
    + apply IH in H; [|simpl in Hlen; lia].
      destruct H as (body & d & -> & HB & ->).
      simpl in Hsw. apply andb_true_iff in Hsw as [Ea Eb].
      apply andb_true_iff in Eb as [Eb _].
      apply N.eqb_eq in Ea, Eb. subst a b.
      exists (92 :: 117 :: h1 :: h2 :: h3 :: h4
              :: 92 :: 117 :: k1 :: k2 :: k3 :: k4 :: body)%N,
             (join_surrogates uni uni2 :: d). repeat split.
      * eapply SB_pair; eauto.
      * now rewrite <- app_assoc.
    + apply IH in H; [|simpl in Hlen; simpl; lia].
      destruct H as (body & d & E & HB & ->).
      exists (92 :: 117 :: h1 :: h2 :: h3 :: h4 :: body)%N, (uni :: d).
      repeat split.
      * simpl. now rewrite E.
      * eapply SB_unicode; eauto.
        destruct (pairs_with uni body) eqn:Hpw; auto.
        apply pairs_with_app with (r := r) in Hpw. rewrite <- E in Hpw.
        unfold pairs_with in Hpw. rewrite Hx2, Hlo, andb_false_r in Hpw.
        discriminate.
      * now rewrite <- app_assoc.
  - apply IH in H; [|simpl in Hlen; lia].
    destruct H as (body & d & -> & HB & ->).
    exists (92 :: 117 :: h1 :: h2 :: h3 :: h4 :: body)%N, (uni :: d).
    repeat split.
    + eapply SB_unicode; eauto.
      destruct (pairs_with uni body) eqn:Hpw; auto.
      pose proof (pairs_with_length _ Hpw HB) as Hl.
      apply pairs_with_app with (r := r) in Hpw.
      apply pairs_with_start in Hpw as [Hhi Hsw].
      rewrite Hhi, Hsw in Hp.
      assert (Hl' : (6 <? length (body ++ r))%nat = true)
        by (apply Nat.ltb_lt; rewrite length_app; lia).
      rewrite Hl' in Hp. discriminate.
    + now rewrite <- app_assoc.
Qed.

Lemma StringBody_lookahead (t d r : pystr) :
  StringBody t d ->
  startswith (t ++ r) [92%N; 117%N] = startswith t [92%N; 117%N].
Proof.
  destruct 1; simpl; auto.
  destruct (N.eqb_spec c 92); [contradiction | reflexivity].
Qed.

Lemma StringBody_escape_start (t d : pystr) :
  StringBody t d ->
  startswith t [92%N; 117%N] = true ->
  exists k1 k2 k3 k4 t' u2,
    t = (92 :: 117 :: k1 :: k2 :: k3 :: k4 :: t')%N /\ hex4 k1 k2 k3 k4 = Some u2.
Proof.
  destruct 1; simpl; try discriminate.
  - destruct (N.eqb_spec c 92); [contradiction | discriminate].
  - destruct (N.eqb_spec e 117) as [->|]; [|discriminate].
    rewrite BACKSLASH_not_u in H. discriminate.
  - intros _. eauto 10.
  - intros _. eauto 10.
Qed.

Lemma scanstring_complete (t d : pystr) :
  StringBody t d ->
  forall chunks r, scanstring (t ++ r) chunks = Ok (chunks ++ d, r).
Proof.
  induction 1 as [ | c t d Hq Hb Hc HB IH | e ch t d He HB IH
                 | h1 h2 h3 h4 u t d Hx Hpw HB IH
                 | h1 h2 h3 h4 k1 k2 k3 k4 u u2 t d Hx Hhi Hx2 Hlo HB IH ];
    intros chunks r.
  - simpl. now rewrite app_nil_r.
  - cbn [app scanstring].
    destruct (N.eqb_spec c 34); [contradiction|].
    destruct (N.eqb_spec c 92); [contradiction|]. cbn [negb].
    destruct (N.ltb_spec c 32); [lia|].
    rewrite IH. now rewrite <- app_assoc.
  - cbn [app scanstring]. cbn [N.eqb Pos.eqb negb].
    destruct (N.eqb_spec e 117) as [->|].
    { rewrite BACKSLASH_not_u in He. discriminate. }
    cbn [negb]. rewrite He, IH. now rewrite <- app_assoc.
  - cbn [app scanstring]. cbn [N.eqb Pos.eqb negb].
    pose proof (StringBody_length HB) as Hl.
    destruct (Nat.eqb_spec (length (t ++ r)) 0) as [E0|_].
    { rewrite length_app in E0. lia. }
    rewrite Hx, (StringBody_lookahead r HB).
    destruct (is_high_surrogate u && (6 <? length (t ++ r))%nat
              && startswith t [92%N; 117%N]) eqn:Hp.
    + apply andb_true_iff in Hp as [Hp Hsw].
      apply andb_true_iff in Hp as [Hhi _].
      destruct (StringBody_escape_start HB Hsw)
        as (k1 & k2 & k3 & k4 & t' & u2 & -> & Hx2).
      cbn [app]. rewrite Hx2.
      unfold pairs_with in Hpw. rewrite Hhi, Hx2 in Hpw. simpl in Hpw.
      rewrite Hpw.
      change (92 :: 117 :: k1 :: k2 :: k3 :: k4 :: t' ++ r)%N
        with ((92 :: 117 :: k1 :: k2 :: k3 :: k4 :: t')%N ++ r).
      rewrite IH. now rewrite <- app_assoc.
    + rewrite IH. now rewrite <- app_assoc.
  - cbn [app scanstring]. cbn [N.eqb Pos.eqb negb].
    pose proof (StringBody_length HB) as Hl.
    cbn [length Nat.eqb]. rewrite Hx, Hhi.
    assert (Hl' : (6 <? S (S (S (S (S (S (length (t ++ r))))))))%nat = true)
      by (apply Nat.ltb_lt; rewrite length_app; lia).
    rewrite Hl'.
    cbn [startswith N.eqb Pos.eqb andb]. rewrite Hx2, Hlo.
    rewrite IH. now rewrite <- app_assoc.
Qed.

Lemma StringBody_last (t d : pystr) : StringBody t d -> last t 0%N = 34%N.
Proof.
  induction 1 as [ | c t d _ _ _ HB IH | e ch t d _ HB IH
                 | h1 h2 h3 h4 u t d _ _ HB IH
                 | h1 h2 h3 h4 k1 k2 k3 k4 u u2 t d _ _ _ _ HB IH ];
    auto; pose proof (StringBody_nonempty HB) as Hne;
    destruct t as [|x t]; try congruence; exact IH.
Qed.

(** ** Numbers *)

Ltac bool_to_prop :=
  repeat match goal with
  | H : _ && _ = true |- _ => apply andb_true_iff in H; destruct H
  | H : _ || _ = false |- _ => apply orb_false_iff in H; destruct H
  | H : negb _ = true |- _ => apply negb_true_iff in H
  | H : negb _ = false |- _ => apply negb_false_iff in H
  | H : (_ <=? _)%N = true |- _ => apply N.leb_le in H
  | H : (_ <=? _)%N = false |- _ => apply N.leb_gt in H
  | H : (_ <? _)%N = true |- _ => apply N.ltb_lt in H
  | H : (_ <? _)%N = false |- _ => apply N.ltb_ge in H
  | H : (_ =? _)%N = true |- _ => apply N.eqb_eq in H
  | H : (_ =? _)%N = false |- _ => apply N.eqb_neq in H
  end.

Lemma is_digit_range (c : N) : is_digit c = true <-> (48 <= c <= 57)%N.
Proof.
  unfold is_digit. rewrite andb_true_iff, !N.leb_le. tauto.
Qed.

Lemma is_digit_false (c : N) : is_digit c = false <-> (c < 48 \/ 57 < c)%N.
Proof.
  unfold is_digit. rewrite andb_false_iff, !N.leb_gt. tauto.
Qed.

Lemma take_digits_spec (s : pystr) :
  forall ds r, take_digits s = (ds, r) -> s = ds ++ r /\ Digits ds /\ stops r.
Proof.
  induction s as [|c s IH]; simpl; intros ds r H.
  - injection H as <- <-. repeat split. constructor.
  - destruct (is_digit c) eqn:Hc.
    + destruct (take_digits s) as [ds' r'].
      injection H as <- <-. destruct (IH _ _ eq_refl) as (-> & Hd & Hs).
      repeat split; auto. constructor; auto.
    + injection H as <- <-. repeat split; auto. constructor.
Qed.

Lemma take_digits_app (ds r : pystr) :
  Digits ds -> stops r -> take_digits (ds ++ r) = (ds, r).
Proof.
  induction 1 as [|d ds Hd _ IH]; intros Hr.
  - destruct r as [|c r]; simpl in *; auto. now rewrite Hr.
  - simpl. rewrite Hd, IH; auto.
Qed.

Lemma IntegerPart_head (i : pystr) :
  IntegerPart i ->
  exists c i', i = c :: i' /\ (is_digit c = true \/ c = 45%N).
Proof.
  destruct 1.
  - eexists _, _; split; eauto.
  - eexists _, _; split; eauto.
  - eexists _, _; split; eauto.
Qed.

Lemma Digits_last (l : pystr) :
  Digits l -> l <> [] -> is_digit (last l 0%N) = true.
Proof.
  induction 1 as [|x l Hx Hl IH]; [congruence|]. intros _.
  destruct l as [|y l]; [exact Hx|].
  change (last (x :: y :: l) 0%N) with (last (y :: l) 0%N).
  apply IH; discriminate.
Qed.

Lemma IntegerPart_last (i : pystr) :
  IntegerPart i -> is_digit (last i 0%N) = true.
Proof.
  induction 1 as [| d ds Hd Hz Hds | i Hh Hi IH].
  - reflexivity.
  - apply Digits_last; [constructor; auto | discriminate].
  - destruct i as [|c i]; [inversion Hi | exact IH].
Qed.

Lemma match_digits_sound (sign s1 i r : pystr) :
  match_digits sign s1 = Some (i, r) ->
  exists u, i = sign ++ u /\ s1 = u ++ r /\ IntegerPart u /\ hd 0%N u <> 45%N.
Proof.
  unfold match_digits. destruct s1 as [|c s2]; [discriminate|].
  destruct (N.eqb_spec c 48) as [->|Hz].
  - intros [= <- <-]. exists [48%N]. repeat split; [constructor | discriminate].
  - destruct (is_digit c) eqn:Hc; [|discriminate].
    destruct (take_digits s2) as [ds r'] eqn:Htd.
    intros [= <- <-]. apply take_digits_spec in Htd as (-> & Hd & _).
    exists (c :: ds). repeat split; [now constructor|]. simpl.
    apply is_digit_range in Hc. lia.
Qed.

Lemma match_digits_complete (sign u r : pystr) :
  IntegerPart u -> hd 0%N u <> 45%N -> stops r ->
  match_digits sign (u ++ r) = Some (sign ++ u, r).
Proof.
  intros Hu Hh Hr. unfold match_digits.
  destruct Hu as [| d ds Hd Hz Hds | i Hh' Hi].
  - reflexivity.
  - cbn [app]. destruct (N.eqb_spec d 48); [contradiction|].
    rewrite Hd, take_digits_app; auto.
  - simpl in Hh. congruence.
Qed.

Lemma match_integer_sound (s i r : pystr) :
  match_integer s = Some (i, r) -> s = i ++ r /\ IntegerPart i.
Proof.
  unfold match_integer. destruct s as [|c s']; [discriminate|].
  destruct (N.eqb_spec c 45) as [->|Hm]; intros H;
    apply match_digits_sound in H as (u & -> & E & Hu & Hh).
  - subst s'. split; [reflexivity | now constructor].
  - split; auto.
Qed.

Lemma match_integer_complete (i r : pystr) :
  IntegerPart i -> stops r -> match_integer (i ++ r) = Some (i, r).
Proof.
  intros Hi Hr. unfold match_integer.
  destruct Hi as [| d ds Hd Hz Hds | i Hh Hi].
  - reflexivity.
  - cbn [app]. apply is_digit_range in Hd as Hd'.
    destruct (N.eqb_spec d 45); [lia|].
    apply (match_digits_complete [] (u := d :: ds));
      [now constructor | simpl; lia | auto].
  - cbn [app N.eqb Pos.eqb]. now apply (match_digits_complete [45%N]).
Qed.

Lemma match_frac_sound (s : pystr) (f : option pystr) (r : pystr) :
  match_frac s = (f, r) -> s = or_empty f ++ r /\ Optional FractionPart f.
Proof.
  unfold match_frac. destruct s as [|c s1].
  { intros [= <- <-]. simpl; auto. }
  destruct (N.eqb_spec c 46) as [->|Hd].
  2:{ intros [= <- <-]. simpl; auto. }
  destruct (take_digits s1) as [ds r'] eqn:Htd.
  apply take_digits_spec in Htd as (-> & Hds & _).
  destruct ds as [|d ds].
  - intros [= <- <-]. simpl; auto.
  - intros [= <- <-]. simpl. split; auto. constructor; [discriminate | auto].
Qed.

Lemma match_frac_complete (f : option pystr) (r : pystr) :
  Optional FractionPart f -> stops r ->
  (f = None -> hd 0%N r <> 46%N) ->
  match_frac (or_empty f ++ r) = (f, r).
Proof.
  intros Hf Hr Hn. destruct f as [x|]; simpl in *.
  - destruct Hf as [ds Hne Hds]. cbn [app match_frac N.eqb Pos.eqb].
    rewrite take_digits_app; auto. destruct ds; [congruence | reflexivity].
  - specialize (Hn eq_refl). unfold match_frac.
    destruct r as [|c r]; auto. simpl in Hn.
    destruct (N.eqb_spec c 46); [contradiction | reflexivity].
Qed.

Lemma match_exp_sound (s : pystr) (e : option pystr) (r : pystr) :
  match_exp s = (e, r) -> s = or_empty e ++ r /\ Optional ExponentPart e.
Proof.
  unfold match_exp. destruct s as [|x s1].
  { intros [= <- <-]. simpl; auto. }
  destruct ((x =? 101) || (x =? 69))%N eqn:Hx.
  2:{ intros [= <- <-]. simpl; auto. }
  assert (Hx' : x = 101%N \/ x = 69%N).
  { apply orb_true_iff in Hx as [Hx|Hx]; apply N.eqb_eq in Hx; auto. }
  assert (Hsign : exists sign s2,
    match s1 with
    | [] => ([], s1)
    | c :: s' => if ((c =? 45) || (c =? 43))%N then ([c], s') else ([], s1)
    end = (sign, s2) /\ s1 = sign ++ s2 /\
    (sign = [] \/ sign = [43%N] \/ sign = [45%N])).
  { destruct s1 as [|c s']; [exists [], []; auto|].
    destruct ((c =? 45) || (c =? 43))%N eqn:Hc.
    - exists [c], s'. repeat split.
      apply orb_true_iff in Hc as [Hc|Hc]; apply N.eqb_eq in Hc; subst; auto.
    - exists [], (c :: s'). auto. }
  destruct Hsign as (sign & s2 & -> & -> & Hs).
  destruct (take_digits s2) as [ds r'] eqn:Htd.
  apply take_digits_spec in Htd as (-> & Hds & _).
  destruct ds as [|d ds].
  - intros [= <- <-]. simpl; auto.
  - intros [= <- <-]. simpl. split.
    + now rewrite <- app_assoc.
    + constructor; auto. discriminate.
Qed.

Lemma match_exp_complete (e : option pystr) (r : pystr) :
  Optional ExponentPart e -> stops r ->
  (e = None -> hd 0%N r <> 101%N /\ hd 0%N r <> 69%N) ->
  match_exp (or_empty e ++ r) = (e, r).
Proof.
  intros He Hr Hn. destruct e as [x|]; simpl in *.
  - destruct He as [e sign ds He Hsign Hne Hds].
    cbn [app match_exp].
    replace ((e =? 101) || (e =? 69))%N with true
      by (destruct He; subst; reflexivity).
    destruct ds as [|d ds]; [congruence|].
    inversion Hds as [|? ? Hd Hds']; subst.
    apply is_digit_range in Hd as Hd'.
    destruct Hsign as [->|[->| ->]]; cbn [app N.eqb Pos.eqb orb].
    + destruct (N.eqb_spec d 45); [lia|]. destruct (N.eqb_spec d 43); [lia|].
      cbn [orb].
      change (d :: ds ++ r) with ((d :: ds) ++ r).
      rewrite take_digits_app; auto.
    + change (d :: ds ++ r) with ((d :: ds) ++ r).
      rewrite take_digits_app; auto.
    + change (d :: ds ++ r) with ((d :: ds) ++ r).
      rewrite take_digits_app; auto.
  - destruct (Hn eq_refl) as [H1 H2]. unfold match_exp.
    destruct r as [|c r]; auto. simpl in H1, H2.
    destruct (N.eqb_spec c 101); [contradiction|].
    destruct (N.eqb_spec c 69); [contradiction | reflexivity].
Qed.

Lemma match_number_sound (s i : pystr) (f e : option pystr) (r : pystr) :
  match_number s = Some (i, f, e, r) ->
  s = (i ++ or_empty f ++ or_empty e) ++ r /\
  IntegerPart i /\ Optional FractionPart f /\ Optional ExponentPart e.
Proof.
  unfold match_number.
  destruct (match_integer s) as [[i' s1]|] eqn:Hi; [|discriminate].
  destruct (match_frac s1) as [f' s2] eqn:Hf.
  destruct (match_exp s2) as [e' s3] eqn:He.
  intros [= <- <- <- <-].
  apply match_integer_sound in Hi as (-> & Hi).
  apply match_frac_sound in Hf as (-> & Hf).
  apply match_exp_sound in He as (-> & He).
  repeat split; auto. now rewrite <- !app_assoc.
Qed.

Lemma num_follow_stops (r : pystr) : num_follow r -> stops r.
Proof.
  destruct r as [|c r]; simpl; auto. unfold number_stop.
  intros H. apply negb_true_iff in H.
  repeat (apply orb_false_iff in H as [H ?]). exact H.
Qed.

Lemma num_follow_head (r : pystr) :
  num_follow r -> hd 0%N r <> 46%N /\ hd 0%N r <> 101%N /\ hd 0%N r <> 69%N.
Proof.
  destruct r as [|c r]; simpl.
  - intros _. repeat split; discriminate.
  - unfold number_stop. intros H. apply negb_true_iff in H.
    repeat (apply orb_false_iff in H as [H ?]).
    bool_to_prop. auto.
Qed.

Lemma match_number_complete (i : pystr) (f e : option pystr) (r : pystr) :
  IntegerPart i -> Optional FractionPart f -> Optional ExponentPart e ->
  num_follow r ->
  match_number ((i ++ or_empty f ++ or_empty e) ++ r) = Some (i, f, e, r).
Proof.
  intros Hi Hf He Hr.
  pose proof (num_follow_stops _ Hr) as Hs.
  destruct (num_follow_head _ Hr) as (Hdot & He1 & He2).
  assert (Hse : stops (or_empty e ++ r)).
  { destruct e as [x|]; simpl; auto. destruct He as [c ? ? [->| ->]]; reflexivity. }
  assert (Hde : hd 0%N (or_empty e ++ r) <> 46%N).
  { destruct e as [x|]; simpl; auto.
    destruct He as [c ? ? [->| ->]]; simpl; discriminate. }
  unfold match_number. rewrite <- !app_assoc.
  rewrite match_integer_complete; auto.
  2:{ destruct f as [x|]; simpl; auto. destruct Hf. reflexivity. }
  rewrite match_frac_complete; auto.
  rewrite match_exp_complete; auto.
Qed.

(** ** Soundness: what the scanner accepts is in the grammar *)

Section ContainersSound.

Variable scan : pystr -> res (pyval * pystr).

Hypothesis scan_sound :
  forall s v r, scan s = Ok (v, r) -> exists c, s = c ++ r /\ Value c v.

Lemma scan_value_Ok (s : pystr) (x : pyval * pystr) :
  scan_value scan s = Ok x -> scan s = Ok x.
Proof.
  unfold scan_value. destruct (scan s) as [a|e|]; auto.
  destruct e; discriminate.
Qed.

Lemma JSONArray_loop_sound (n : nat) :
  forall s vals v r,
    JSONArray_loop scan n s vals = Ok (v, r) ->
    exists body l, s = body ++ r /\ Elements body l /\ v = PyList (vals ++ l).
Proof.
  induction n as [|n IH]; intros s vals v r H; [discriminate|].
  cbn [JSONArray_loop] in H. unfold bind in H.
  destruct (scan_value scan s) as [[value s1]|e|] eqn:Hs; try discriminate.
  apply scan_value_Ok, scan_sound in Hs as (c & -> & Hc).
  destruct (skip_ws s1) as [|nextchar s2] eqn:Hw; [discriminate|].
  destruct (skip_ws_split s1) as (w & Hws & E). rewrite Hw in E.
  destruct (N.eqb_spec nextchar 93) as [->|Hn].
  { injection H as <- <-.
    exists (c ++ w ++ [93%N]), [value]. repeat split.
    - rewrite E. now rewrite <- !app_assoc.
    - now constructor. }
  destruct (N.eqb_spec nextchar 44) as [->|Hn']; [|discriminate].
  cbn [negb] in H. apply IH in H as (body & l & E2 & Hb & ->).
  destruct (skip_ws_split s2) as (w' & Hws' & E').
  exists (c ++ w ++ 44%N :: w' ++ body), (value :: l). repeat split.
  - rewrite E, E', E2. now rewrite <- !app_assoc; cbn [app]; rewrite <- !app_assoc.
  - now constructor.
  - now rewrite <- app_assoc.
Qed.

Lemma JSONArray_sound (n : nat) (s : pystr) (v : pyval) (r : pystr) :
  JSONArray scan n s = Ok (v, r) ->
  exists c, 91%N :: s = c ++ r /\ Value c v.
Proof.
  unfold JSONArray. intros H.
  destruct (skip_ws_split s) as (w & Hw & E).
  assert (Hloop : JSONArray_loop scan n (skip_ws s) [] = Ok (v, r) ->
                  exists c, 91%N :: s = c ++ r /\ Value c v).
  { intros HL. apply JSONArray_loop_sound in HL as (body & l & E2 & Hb & ->).
    exists (91%N :: w ++ body). split.
    - rewrite E at 1. rewrite E2. cbn [app]. now rewrite <- app_assoc.
    - now constructor. }
  destruct (skip_ws s) as [|nextchar s'] eqn:Hs; auto.
  destruct (N.eqb_spec nextchar 93) as [->|]; auto.
  injection H as <- <-.
  exists (91%N :: w ++ [93%N]). split.
  - rewrite E at 1. cbn [app]. now rewrite <- app_assoc.
  - now constructor.
Qed.

Lemma JSONObject_loop_sound (n : nat) :
  forall s pairs v r,
    JSONObject_loop scan n s pairs = Ok (v, r) ->
    exists body l,
      s = body ++ r /\ Members body l /\ v = PyDict (dict (pairs ++ l)).
Proof.
  induction n as [|n IH]; intros s pairs v r H; [discriminate|].
  cbn [JSONObject_loop] in H. unfold bind in H.
  destruct (scanstring s []) as [[key s1]|e|] eqn:Hk; try discriminate.
  apply (scanstring_sound (n := length s)) in Hk; auto.
  destruct Hk as (kt & k & -> & Hkt & Ek). cbn [app] in Ek. subst key.
  destruct (skip_ws s1) as [|c s2] eqn:Hw1; [discriminate|].
  destruct (skip_ws_split s1) as (w1 & Hws1 & E1). rewrite Hw1 in E1.
  destruct (N.eqb_spec c 58) as [->|]; [|discriminate]. cbn [negb] in H.
  destruct (scan_value scan (skip_ws s2)) as [[value s3]|e|] eqn:Hs;
    try discriminate.
  apply scan_value_Ok, scan_sound in Hs as (cv & E2 & Hcv).
  destruct (skip_ws_split s2) as (w2 & Hws2 & E2'). rewrite E2 in E2'.
  destruct (skip_ws s3) as [|nextchar s4] eqn:Hw3; [discriminate|].
  destruct (skip_ws_split s3) as (w3 & Hws3 & E3). rewrite Hw3 in E3.
  destruct (N.eqb_spec nextchar 125) as [->|Hn].
  { injection H as <- <-.
    exists (kt ++ w1 ++ 58%N :: w2 ++ cv ++ w3 ++ [125%N]), [(k, value)].
    repeat split.
    - rewrite E1, E2', E3.
      repeat (rewrite <- !app_assoc; cbn [app]). reflexivity.
    - now constructor. }
  destruct (N.eqb_spec nextchar 44) as [->|]; [|discriminate].
  cbn [negb] in H.
  destruct (skip_ws s4) as [|q s5] eqn:Hw4; [discriminate|].
  destruct (skip_ws_split s4) as (w4 & Hws4 & E4). rewrite Hw4 in E4.
  destruct (N.eqb_spec q 34) as [->|]; [|discriminate].
  apply IH in H as (body & l & E5 & Hb & ->).
  exists (kt ++ w1 ++ 58%N :: w2 ++ cv ++ w3 ++ 44%N :: w4 ++ 34%N :: body),
         ((k, value) :: l).
  repeat split.
  - rewrite E1, E2', E3, E4, E5.
    repeat (rewrite <- !app_assoc; cbn [app]). reflexivity.
  - now constructor.
  - now rewrite <- app_assoc.
Qed.

Lemma JSONObject_sound (n : nat) (s : pystr) (v : pyval) (r : pystr) :
  JSONObject scan n s = Ok (v, r) ->
  exists c, 123%N :: s = c ++ r /\ Value c v.
Proof.
  unfold JSONObject. intros H.
  destruct (skip_ws_split s) as (w & Hw & E).
  destruct (skip_ws s) as [|nextchar s'] eqn:Hs; [discriminate|].
  destruct (N.eqb_spec nextchar 34) as [->|].
  - apply JSONObject_loop_sound in H as (body & l & -> & Hb & ->).
    exists (123%N :: w ++ 34%N :: body). split.
    + rewrite E at 1. cbn [app]. rewrite <- app_assoc. reflexivity.
    + now constructor.
  - destruct (N.eqb_spec nextchar 125) as [->|]; [|discriminate].
    injection H as <- <-.
    exists (123%N :: w ++ [125%N]). split.
    + rewrite E at 1. cbn [app]. now rewrite <- app_assoc.
    + now constructor.
Qed.

End ContainersSound.

Theorem scan_once_sound (fuel : nat) :
  forall s v r,
    scan_once fuel s = Ok (v, r) -> exists c, s = c ++ r /\ Value c v.
Proof.
  induction fuel as [|fuel IH]; intros s v r H; [discriminate|].
  cbn [scan_once] in H.
  destruct s as [|nextchar s1]; [discriminate|].
  destruct (N.eqb_spec nextchar 34) as [->|].
  { unfold bind in H.
    destruct (scanstring s1 []) as [[str r']|e|] eqn:Hs; try discriminate.
    injection H as <- <-.
    apply (scanstring_sound (n := length s1)) in Hs; auto.
    destruct Hs as (body & d & -> & Hb & ->).
    exists (34%N :: body). split; [reflexivity | now constructor]. }
  destruct (N.eqb_spec nextchar 123) as [->|].
  { eapply JSONObject_sound; eauto. }
  destruct (N.eqb_spec nextchar 91) as [->|].
  { eapply JSONArray_sound; eauto. }
  set (s := nextchar :: s1) in *.
  destruct (startswith s (lit "null")) eqn:E1.
  { injection H as <- <-. apply startswith_true in E1.
    exists (lit "null"). split; [exact E1 | constructor]. }
  destruct (startswith s (lit "true")) eqn:E2.
  { injection H as <- <-. apply startswith_true in E2.
    exists (lit "true"). split; [exact E2 | constructor]. }
  destruct (startswith s (lit "false")) eqn:E3.
  { injection H as <- <-. apply startswith_true in E3.
    exists (lit "false"). split; [exact E3 | constructor]. }
  destruct (match_number s) as [[[[i f] e] r']|] eqn:Hn.
  { apply match_number_sound in Hn as (E & Hi & Hf & He).
    destruct f as [f|]; [|destruct e as [e|]]; injection H as <- <-;
      eexists; (split; [exact E|]).
    - apply V_number. apply Num_float; auto. left; discriminate.
    - apply V_number. apply Num_float; auto. right; discriminate.
    - cbn [or_empty]. rewrite !app_nil_r.
      apply V_number. now apply Num_int. }
  destruct (startswith s (lit "NaN")) eqn:E4.
  { injection H as <- <-. apply startswith_true in E4.
    exists (lit "NaN"). split; [exact E4 | constructor]. }
  destruct (startswith s (lit "Infinity")) eqn:E5.
  { injection H as <- <-. apply startswith_true in E5.
    exists (lit "Infinity"). split; [exact E5 | constructor]. }
  destruct (startswith s (lit "-Infinity")) eqn:E6; [|discriminate].
  injection H as <- <-. apply startswith_true in E6.
  exists (lit "-Infinity"). split; [exact E6 | constructor].
Qed.

(** ** The first and the last character of a value *)

Lemma last_app_ne (a b : pystr) (d : N) : b <> [] -> last (a ++ b) d = last b d.
Proof.
  intros Hb. induction a as [|x a IH]; auto.
  cbn [app]. destruct (a ++ b) eqn:E.
  - apply app_eq_nil in E as [_ E]. congruence.
  - rewrite <- IH. reflexivity.
Qed.

Lemma app_ne_r (a b : pystr) : b <> [] -> a ++ b <> [].
Proof. intros Hb E. apply app_eq_nil in E as [_ E]. congruence. Qed.

Ltac ne := repeat first [assumption | discriminate | apply app_ne_r].

Lemma last_cons_ne (x : N) (b : pystr) (d : N) : b <> [] -> last (x :: b) d = last b d.
Proof. intros Hb. apply (last_app_ne [x] d Hb). Qed.

Lemma value_start_digit (c : N) : is_digit c = true -> value_start c = true.
Proof. unfold value_start. intros ->. now rewrite !orb_true_r. Qed.

Lemma Value_head (c : pystr) (v : pyval) :
  Value c v -> exists h c', c = h :: c' /\ value_start h = true.
Proof.
  destruct 1; try (eexists _, _; split; [reflexivity | reflexivity]).
  destruct H as [i Hi | i frac exp Hi _ _ _];
    destruct (IntegerPart_head Hi) as (h & i' & -> & [Hd| ->]);
    eexists _, _; (split; [reflexivity|]);
    solve [now apply value_start_digit | reflexivity].
Qed.

Lemma Elements_head (body : pystr) (l : list pyval) :
  Elements body l -> exists h b', body = h :: b' /\ value_start h = true.
Proof.
  destruct 1 as [c v w Hc _ | c v w w' rest l Hc _ _ _];
    destruct (Value_head Hc) as (h & c' & -> & Hh);
    eexists _, _; (split; [reflexivity | exact Hh]).
Qed.

Lemma value_start_not_ws (c : N) : value_start c = true -> is_json_ws c = false.
Proof.
  unfold value_start, is_json_ws, is_digit. intros H.
  repeat (apply orb_true_iff in H as [H|H]); bool_to_prop; subst;
    try reflexivity.
  repeat (apply orb_false_iff; split); apply N.eqb_neq; lia.
Qed.

Lemma value_start_not_space (c : N) : value_start c = true -> isspace c = false.
Proof.
  unfold value_start, isspace, is_digit. intros H.
  repeat (apply orb_true_iff in H as [H|H]); bool_to_prop; subst;
    try reflexivity.
  repeat (apply orb_false_iff; split);
    try (apply N.eqb_neq; lia);
    apply andb_false_iff; rewrite !N.leb_gt; lia.
Qed.

Lemma value_start_plain (c : N) :
  value_start c = true -> c <> 93%N /\ c <> 65279%N /\ c <> 96%N.
Proof.
  unfold value_start, is_digit. intros H.
  repeat (apply orb_true_iff in H as [H|H]); bool_to_prop; subst;
    repeat split; try discriminate; lia.
Qed.

Lemma value_end_not_space (c : N) : value_end c = true -> isspace c = false.
Proof.
  unfold value_end, isspace, is_digit. intros H.
  repeat (apply orb_true_iff in H as [H|H]); bool_to_prop; subst;
    try reflexivity.
  repeat (apply orb_false_iff; split);
    try (apply N.eqb_neq; lia);
    apply andb_false_iff; rewrite !N.leb_gt; lia.
Qed.

Lemma Elements_nonempty (body : pystr) (l : list pyval) :
  Elements body l -> body <> [].
Proof. intros H. destruct (Elements_head H) as (? & ? & -> & _). discriminate. Qed.

Lemma Elements_last (body : pystr) (l : list pyval) :
  Elements body l -> last body 0%N = 93%N.
Proof.
  induction 1 as [c v w Hc Hw | c v w w' rest l Hc Hw Hw' Hr IH].
  - rewrite app_assoc. apply last_last.
  - pose proof (Elements_nonempty Hr) as Hne.
    rewrite !last_app_ne by ne.
    rewrite last_cons_ne by ne.
    rewrite last_app_ne by ne. exact IH.
Qed.

Lemma Members_last (body : pystr) (l : list (pystr * pyval)) :
  Members body l -> last body 0%N = 125%N /\ body <> [].
Proof.
  induction 1 as [key k w1 w2 c v w3 Hk _ _ _ _
                 | key k w1 w2 c v w3 w4 rest l Hk _ _ _ _ _ Hr [IH Hne]].
  - split; [|ne].
    rewrite !last_app_ne by ne. rewrite last_cons_ne by ne.
    rewrite !last_app_ne by ne. reflexivity.
  - split; [|ne].
    rewrite !last_app_ne by ne. rewrite last_cons_ne by ne.
    rewrite !last_app_ne by ne. rewrite last_cons_ne by ne.
    rewrite !last_app_ne by ne. rewrite last_cons_ne by ne. exact IH.
Qed.

Lemma value_end_digit (c : N) : is_digit c = true -> value_end c = true.
Proof. unfold value_end. intros ->. now rewrite !orb_true_r. Qed.

Lemma Number_last (c : pystr) (v : pyval) :
  Number c v -> is_digit (last c 0%N) = true.
Proof.
  destruct 1 as [i Hi | i frac exp Hi Hf He Hor].
  - now apply IntegerPart_last.
  - destruct exp as [e|]; cbn [or_empty].
    + destruct He as [e sign ds _ _ Hne Hds].
      rewrite !last_app_ne by ne. rewrite last_cons_ne by ne.
      rewrite last_app_ne by ne. now apply Digits_last.
    + rewrite app_nil_r. destruct frac as [f|]; cbn [or_empty].
      * destruct Hf as [ds Hne Hds].
        rewrite last_app_ne by ne.
        rewrite last_cons_ne by ne. now apply Digits_last.
      * destruct Hor; congruence.
Qed.

Lemma Value_last (c : pystr) (v : pyval) :
  Value c v -> value_end (last c 0%N) = true.
Proof.
  destruct 1 as [ | | | | | | c v Hn | body s Hb | w Hw | w body l Hw Hb
                | w Hw | w body pairs Hw Hb ]; try reflexivity.
  - apply value_end_digit. eapply Number_last; eauto.
  - pose proof (StringBody_nonempty Hb).
    rewrite last_cons_ne by ne. now rewrite (StringBody_last Hb).
  - rewrite last_cons_ne by ne. now rewrite last_last.
  - pose proof (Elements_nonempty Hb).
    rewrite last_cons_ne by ne.
    rewrite last_app_ne by ne. now rewrite (Elements_last Hb).
  - rewrite last_cons_ne by ne. now rewrite last_last.
  - destruct (Members_last Hb) as [Hl Hne].
    rewrite last_cons_ne by ne. rewrite last_app_ne by ne.
    rewrite last_cons_ne by ne. now rewrite Hl.
Qed.

Lemma Value_nonempty (c : pystr) (v : pyval) : Value c v -> c <> [].
Proof. intros H. destruct (Value_head H) as (? & ? & -> & _). discriminate. Qed.

(** ** Completeness: the scanner reads every text of the grammar *)

Lemma json_ws_number_stop (c : N) : is_json_ws c = true -> number_stop c = true.
Proof.
  unfold is_json_ws. intros H.
  repeat (apply orb_true_iff in H as [H|H]); apply N.eqb_eq in H; subst; reflexivity.
Qed.

Lemma num_follow_ws (w : pystr) (d : N) (r : pystr) :
  Ws w -> number_stop d = true -> num_follow (w ++ d :: r).
Proof.
  intros Hw Hd. destruct Hw as [|c w Hc _]; simpl; auto.
  now apply json_ws_number_stop.
Qed.

Lemma follow_ok_ws (v : pyval) (w : pystr) (d : N) (r : pystr) :
  Ws w -> number_stop d = true -> follow_ok v (w ++ d :: r).
Proof. intros Hw Hd _. now apply num_follow_ws. Qed.

Lemma follow_ok_Ws (v : pyval) (w : pystr) : Ws w -> follow_ok v w.
Proof.
  intros Hw _. destruct Hw as [|c w Hc _]; simpl; auto.
  now apply json_ws_number_stop.
Qed.

Lemma scan_value_of_Ok (scan : pystr -> res (pyval * pystr)) (s : pystr)
      (x : pyval * pystr) :
  scan s = Ok x -> scan_value scan s = Ok x.
Proof. unfold scan_value. now intros ->. Qed.

(** A text beginning with a digit or a minus sign is read as a number or
    as [-Infinity]. *)
Lemma scan_once_numeric_head (fuel : nat) (h : N) (s : pystr) :
  is_digit h = true \/ h = 45%N ->
  scan_once (S fuel) (h :: s) =
  match match_number (h :: s) with
  | Some (integer, frac, exp, r) =>
      match frac, exp with
      | None, None => Ok (PyInt (parse_int integer), r)
      | _, _ =>
          Ok (PyFloat (FloatOf (integer ++ or_empty frac ++ or_empty exp)), r)
      end
  | None =>
      if startswith (h :: s) (lit "NaN") then Ok (PyFloat NaN, skipn 3 (h :: s))
      else if startswith (h :: s) (lit "Infinity")
           then Ok (PyFloat PosInf, skipn 8 (h :: s))
      else if startswith (h :: s) (lit "-Infinity")
           then Ok (PyFloat NegInf, skipn 9 (h :: s))
      else Raise StopIteration
  end.
Proof.
  intros Hh.
  assert (Hr : (48 <= h <= 57 \/ h = 45)%N).
  { destruct Hh as [Hh|Hh]; [apply is_digit_range in Hh|]; auto. }
  cbn [scan_once].
  destruct (N.eqb_spec h 34); [lia|].
  destruct (N.eqb_spec h 123); [lia|].
  destruct (N.eqb_spec h 91); [lia|].
  replace (startswith (h :: s) (lit "null")) with false
    by (cbn; destruct (N.eqb_spec h 110); [lia | reflexivity]).
  replace (startswith (h :: s) (lit "true")) with false
    by (cbn; destruct (N.eqb_spec h 116); [lia | reflexivity]).
  replace (startswith (h :: s) (lit "false")) with false
    by (cbn; destruct (N.eqb_spec h 102); [lia | reflexivity]).
  reflexivity.
Qed.

Lemma scan_once_number (fuel : nat) (c : pystr) (v : pyval) (r : pystr) :
  Number c v -> num_follow r -> scan_once (S fuel) (c ++ r) = Ok (v, r).
Proof.
  intros Hn Hr.
  assert (Hhead : exists h c', c ++ r = h :: c' /\ (is_digit h = true \/ h = 45%N)).
  { destruct Hn as [i Hi | i frac exp Hi _ _ _];
      destruct (IntegerPart_head Hi) as (h & i' & -> & Hh);
      eexists _, _; (split; [reflexivity | exact Hh]). }
  destruct Hhead as (h & c' & E & Hh).
  rewrite E, scan_once_numeric_head by exact Hh. rewrite <- E.
  destruct Hn as [i Hi | i frac exp Hi Hf He Hor].
  - replace (i ++ r) with ((i ++ or_empty None ++ or_empty None) ++ r)
      by (cbn [or_empty]; now rewrite !app_nil_r).
    rewrite match_number_complete; simpl; auto.
  - rewrite match_number_complete; auto.
    destruct frac, exp; auto. destruct Hor; congruence.
Qed.

Theorem scan_complete :
  (forall c v, Value c v ->
     exists f0, forall f, f0 <= f -> forall r, follow_ok v r ->
       scan_once f (c ++ r) = Ok (v, r)) /\
  (forall body l, Elements body l ->
     exists f0, forall f n, f0 <= f -> f0 <= n -> forall vals r,
       JSONArray_loop (scan_once f) n (body ++ r) vals = Ok (PyList (vals ++ l), r)) /\
  (forall body l, Members body l ->
     exists f0, forall f n, f0 <= f -> f0 <= n -> forall acc r,
       JSONObject_loop (scan_once f) n (body ++ r) acc
       = Ok (PyDict (dict (acc ++ l)), r)).
Proof.
  apply Value_mutind.
  - exists 1. intros [|f] Hf r _; [lia | reflexivity].
  - exists 1. intros [|f] Hf r _; [lia | reflexivity].
  - exists 1. intros [|f] Hf r _; [lia | reflexivity].
  - exists 1. intros [|f] Hf r _; [lia | reflexivity].
  - exists 1. intros [|f] Hf r _; [lia | reflexivity].
  - exists 1. intros [|f] Hf r _; [lia | reflexivity].
  - (* numbers *)
    intros c v Hn. exists 1. intros [|f] Hf r Hr; [lia|].
    apply scan_once_number; auto. apply Hr.
    destruct Hn; reflexivity.
  - (* strings *)
    intros body s Hb. exists 1. intros [|f] Hf r _; [lia|].
    cbn [app scan_once N.eqb Pos.eqb].
    rewrite (scanstring_complete Hb). reflexivity.
  - (* the empty array *)
    intros w Hw. exists 1. intros [|f] Hf r _; [lia|].
    cbn [app scan_once N.eqb Pos.eqb]. unfold JSONArray.
    rewrite <- app_assoc, skip_ws_app by exact Hw. reflexivity.
  - (* arrays *)
    intros w body l Hw Hb [f0 IH]. exists (S f0).
    intros [|f] Hf r _; [lia|].
    cbn [app scan_once N.eqb Pos.eqb]. unfold JSONArray.
    rewrite <- app_assoc, skip_ws_app by exact Hw.
    destruct (Elements_head Hb) as (h & b' & E & Hh).
    pose proof (IH f f ltac:(lia) ltac:(lia) [] r) as IH'.
    rewrite E in *. cbn [app] in *.
    rewrite skip_ws_stop by now apply value_start_not_ws.
    destruct (value_start_plain _ Hh) as (Hh1 & _).
    destruct (N.eqb_spec h 93); [contradiction|]. exact IH'.
  - (* the empty object *)
    intros w Hw. exists 1. intros [|f] Hf r _; [lia|].
    cbn [app scan_once N.eqb Pos.eqb]. unfold JSONObject.
    rewrite <- app_assoc, skip_ws_app by exact Hw. reflexivity.
  - (* objects *)
    intros w body pairs Hw Hb [f0 IH]. exists (S f0).
    intros [|f] Hf r _; [lia|].
    cbn [app scan_once N.eqb Pos.eqb]. unfold JSONObject.
    rewrite <- app_assoc, skip_ws_app by exact Hw.
    cbn [app skip_ws is_json_ws N.eqb Pos.eqb orb].
    rewrite IH by lia. reflexivity.
  - (* the last element *)
    intros c v w Hc [f0 IH] Hw. exists (S f0).
    intros f [|n] Hf Hn vals r; [lia|].
    cbn [JSONArray_loop]. rewrite <- !app_assoc.
    erewrite scan_value_of_Ok;
      [| apply IH; [lia | apply follow_ok_ws; auto]].
    cbn [bind]. rewrite skip_ws_app by exact Hw. reflexivity.
  - (* an element and more *)
    intros c v w w' rest l Hc [f1 IHv] Hw Hw' Hr [f2 IHr].
    exists (S (Nat.max f1 f2)).
    intros f [|n] Hf Hn vals r; [lia|].
    cbn [JSONArray_loop]. rewrite <- !app_assoc.
    erewrite scan_value_of_Ok;
      [| apply IHv; [lia | apply follow_ok_ws; auto]].
    cbn [bind]. rewrite skip_ws_app by exact Hw.
    cbn [app skip_ws is_json_ws N.eqb Pos.eqb orb negb].
    rewrite <- app_assoc, skip_ws_app by exact Hw'.
    assert (Hsk : skip_ws (rest ++ r) = rest ++ r).
    { destruct (Elements_head Hr) as (h & b' & -> & Hh). cbn [app].
      now apply skip_ws_stop, value_start_not_ws. }
    rewrite Hsk, IHr by lia. now rewrite <- app_assoc.
  - (* the last member *)
    intros key k w1 w2 c v w3 Hk Hw1 Hw2 Hc [f0 IH] Hw3. exists (S f0).
    intros f [|n] Hf Hn acc r; [lia|].
    cbn [JSONObject_loop]. rewrite <- !app_assoc.
    rewrite (scanstring_complete Hk). cbn [bind app].
    rewrite skip_ws_app by exact Hw1.
    cbn [app skip_ws is_json_ws N.eqb Pos.eqb orb negb].
    rewrite <- !app_assoc, skip_ws_app by exact Hw2.
    assert (Hsk : forall x, skip_ws (c ++ x) = c ++ x).
    { destruct (Value_head Hc) as (h & c' & -> & Hh). intros x. cbn [app].
      now apply skip_ws_stop, value_start_not_ws. }
    rewrite Hsk.
    erewrite scan_value_of_Ok;
      [| apply IH; [lia | apply follow_ok_ws; auto]].
    cbn [bind]. rewrite skip_ws_app by exact Hw3. reflexivity.
  - (* a member and more *)
    intros key k w1 w2 c v w3 w4 rest l Hk Hw1 Hw2 Hc [f1 IHv] Hw3 Hw4 Hr [f2 IHr].
    exists (S (Nat.max f1 f2)).
    intros f [|n] Hf Hn acc r; [lia|].
    cbn [JSONObject_loop]. rewrite <- !app_assoc.
    rewrite (scanstring_complete Hk). cbn [bind app].
    rewrite skip_ws_app by exact Hw1.
    cbn [app skip_ws is_json_ws N.eqb Pos.eqb orb negb].
    rewrite <- !app_assoc, skip_ws_app by exact Hw2.
    assert (Hsk : forall x, skip_ws (c ++ x) = c ++ x).
    { destruct (Value_head Hc) as (h & c' & -> & Hh). intros x. cbn [app].
      now apply skip_ws_stop, value_start_not_ws. }
    rewrite Hsk.
    erewrite scan_value_of_Ok;
      [| apply IHv; [lia | apply follow_ok_ws; auto]].
    cbn [bind]. rewrite skip_ws_app by exact Hw3.
    cbn [app skip_ws is_json_ws N.eqb Pos.eqb orb negb].
    rewrite <- app_assoc, skip_ws_app by exact Hw4.
    cbn [app skip_ws is_json_ws N.eqb Pos.eqb orb negb].
    rewrite IHr by lia. now rewrite <- app_assoc.
Qed.

(** ** The recursion budget of the embedding *)

Lemma skip_ws_length (s : pystr) : length (skip_ws s) <= length s.
Proof.
  induction s as [|c s IH]; simpl; auto.
  destruct (is_json_ws c); simpl; lia.
Qed.

Lemma scanstring_not_OutOfFuel (n : nat) :
  forall s chunks, length s <= n -> scanstring s chunks <> OutOfFuel.
Proof.
  induction n as [|n IH]; intros s chunks Hlen.
  { destruct s; simpl in *; [discriminate | lia]. }
  destruct s as [|c s1]; [discriminate|]. cbn [scanstring].
  simpl in Hlen.
  destruct (c =? 34)%N; [discriminate|].
  destruct (negb (c =? 92)%N).
  { destruct (c <? 32)%N; [discriminate | apply IH; lia]. }
  destruct s1 as [|esc s2]; [discriminate|]. simpl in Hlen.
  destruct (negb (esc =? 117)%N).
  { destruct (BACKSLASH esc); [apply IH; lia | discriminate]. }
  destruct s2 as [|h1 [|h2 [|h3 [|h4 s3]]]]; try discriminate.
  simpl in Hlen.
  destruct (length s3 =? 0)%nat; [discriminate|].
  destruct (hex4 h1 h2 h3 h4); [|discriminate].
  destruct (is_high_surrogate n0 && (6 <? length s3)%nat
            && startswith s3 [92%N; 117%N]).
  - destruct s3 as [|a [|b [|k1 [|k2 [|k3 [|k4 s4]]]]]]; try discriminate.
    simpl in Hlen.
    destruct (hex4 k1 k2 k3 k4); [|discriminate].
    destruct (is_low_surrogate n1); apply IH; simpl; lia.
  - apply IH; lia.
Qed.

Lemma scanstring_shorter (s chunks str r : pystr) :
  scanstring s chunks = Ok (str, r) -> length r < length s.
Proof.
  intros H. apply (scanstring_sound (n := length s)) in H; auto.
  destruct H as (body & d & -> & Hb & _).
  apply StringBody_nonempty in Hb. rewrite length_app.
  destruct body; [congruence | simpl; lia].
Qed.

Lemma Value_shorter (c : pystr) (v : pyval) (r : pystr) :
  Value c v -> length r < length (c ++ r).
Proof.
  intros H. apply Value_nonempty in H. rewrite length_app.
  destruct c; [congruence | simpl; lia].
Qed.

Section ContainersTotal.

Variable scan : pystr -> res (pyval * pystr).
Variable bound : nat.

Hypothesis scan_sound :
  forall s v r, scan s = Ok (v, r) -> exists c, s = c ++ r /\ Value c v.
Hypothesis scan_total :
  forall s, length s < bound -> scan s <> OutOfFuel.

Lemma scan_value_total (s : pystr) :
  length s < bound -> scan_value scan s <> OutOfFuel.
Proof.
  intros H. specialize (scan_total H). unfold scan_value.
  destruct (scan s) as [a|e|]; try congruence. destruct e; discriminate.
Qed.

Lemma scan_value_shorter (s : pystr) (v : pyval) (r : pystr) :
  scan_value scan s = Ok (v, r) -> length r < length s.
Proof.
  intros H. apply scan_value_Ok, scan_sound in H as (c & -> & Hc).
  eapply Value_shorter; eauto.
Qed.

Lemma JSONArray_loop_total (n : nat) :
  forall s vals,
    length s < n -> length s < bound ->
    JSONArray_loop scan n s vals <> OutOfFuel.
Proof.
  induction n as [|n IH]; intros s vals Hn Hb; [lia|].
  cbn [JSONArray_loop]. unfold bind.
  pose proof (scan_value_total s Hb) as Ht.
  destruct (scan_value scan s) as [[value s1]|e|] eqn:Hs;
    try congruence; try discriminate.
  apply scan_value_shorter in Hs.
  pose proof (skip_ws_length s1) as Hl1.
  destruct (skip_ws s1) as [|nextchar s2]; [discriminate|].
  destruct (nextchar =? 93)%N; [discriminate|].
  destruct (negb (nextchar =? 44)%N); [discriminate|].
  pose proof (skip_ws_length s2). simpl in Hl1.
  apply IH; lia.
Qed.

Lemma JSONArray_total (n : nat) (s : pystr) :
  length s < n -> length s < bound -> JSONArray scan n s <> OutOfFuel.
Proof.
  intros Hn Hb. unfold JSONArray.
  pose proof (skip_ws_length s) as Hl.
  assert (JSONArray_loop scan n (skip_ws s) [] <> OutOfFuel)
    by (apply JSONArray_loop_total; lia).
  destruct (skip_ws s) as [|nextchar s']; auto.
  destruct (nextchar =? 93)%N; [discriminate | auto].
Qed.

Lemma JSONObject_loop_total (n : nat) :
  forall s pairs,
    length s < n -> length s < bound ->
    JSONObject_loop scan n s pairs <> OutOfFuel.
Proof.
  induction n as [|n IH]; intros s pairs Hn Hb; [lia|].
  cbn [JSONObject_loop]. unfold bind.
  pose proof (@scanstring_not_OutOfFuel (length s) s [] (le_n _)) as Hk.
  destruct (scanstring s []) as [[key s1]|e|] eqn:Hs;
    try congruence; try discriminate.
  apply scanstring_shorter in Hs.
  pose proof (skip_ws_length s1) as Hl1.
  destruct (skip_ws s1) as [|c s2]; [discriminate|]. simpl in Hl1.
  destruct (negb (c =? 58)%N); [discriminate|].
  pose proof (skip_ws_length s2) as Hl2.
  assert (Hv : scan_value scan (skip_ws s2) <> OutOfFuel)
    by (apply scan_value_total; lia).
  destruct (scan_value scan (skip_ws s2)) as [[value s3]|e|] eqn:Hs3;
    try congruence; try discriminate.
  apply scan_value_shorter in Hs3.
  pose proof (skip_ws_length s3) as Hl3.
  destruct (skip_ws s3) as [|nextchar s4]; [discriminate|]. simpl in Hl3.
  destruct (nextchar =? 125)%N; [discriminate|].
  destruct (negb (nextchar =? 44)%N); [discriminate|].
  pose proof (skip_ws_length s4) as Hl4.
  destruct (skip_ws s4) as [|q s5]; [discriminate|]. simpl in Hl4.
  destruct (q =? 34)%N; [|discriminate].
  apply IH; lia.
Qed.

Lemma JSONObject_total (n : nat) (s : pystr) :
  length s < n -> length s < bound -> JSONObject scan n s <> OutOfFuel.
Proof.
  intros Hn Hb. unfold JSONObject.
  pose proof (skip_ws_length s) as Hl.
  destruct (skip_ws s) as [|nextchar s']; [discriminate|]. simpl in Hl.
  destruct (nextchar =? 34)%N.
  - apply JSONObject_loop_total; lia.
  - destruct (nextchar =? 125)%N; discriminate.
Qed.

End ContainersTotal.

(** A budget above the length of the text is never exhausted. *)
Theorem scan_once_total (fuel : nat) :
  forall s, length s < fuel -> scan_once fuel s <> OutOfFuel.
Proof.
  induction fuel as [|fuel IH]; intros s Hlen; [lia|].
  cbn [scan_once]. destruct s as [|nextchar s1]; [discriminate|].
  simpl in Hlen.
  destruct (nextchar =? 34)%N.
  { unfold bind.
    pose proof (@scanstring_not_OutOfFuel (length s1) s1 [] (le_n _)).
    destruct (scanstring s1 []) as [[str r]|e|]; congruence. }
  destruct (nextchar =? 123)%N.
  { apply JSONObject_total with (bound := fuel);
      [apply scan_once_sound | exact IH | lia | lia]. }
  destruct (nextchar =? 91)%N.
  { apply JSONArray_total with (bound := fuel);
      [apply scan_once_sound | exact IH | lia | lia]. }
  destruct (startswith _ (lit "null")); [discriminate|].
  destruct (startswith _ (lit "true")); [discriminate|].
  destruct (startswith _ (lit "false")); [discriminate|].
  destruct (match_number _) as [[[[i f] e] r]|].
  { destruct f, e; discriminate. }
  destruct (startswith _ (lit "NaN")); [discriminate|].
  destruct (startswith _ (lit "Infinity")); [discriminate|].
  destruct (startswith _ (lit "-Infinity")); discriminate.
Qed.

Section ContainersMono.

Variables scan1 scan2 : pystr -> res (pyval * pystr).

Hypothesis scan_mono :
  forall s x, scan1 s = x -> x <> OutOfFuel -> scan2 s = x.

Lemma scan_value_mono (s : pystr) (x : res (pyval * pystr)) :
  scan_value scan1 s = x -> x <> OutOfFuel -> scan_value scan2 s = x.
Proof.
  unfold scan_value. intros H Hx.
  destruct (scan1 s) as [a|e|] eqn:E.
  - now rewrite (scan_mono E) by discriminate.
  - now rewrite (scan_mono E) by discriminate.
  - exfalso. apply Hx. now rewrite <- H.
Qed.

Lemma JSONArray_loop_mono (n : nat) :
  forall s vals x,
    JSONArray_loop scan1 n s vals = x -> x <> OutOfFuel ->
    JSONArray_loop scan2 (S n) s vals = x.
Proof.
  induction n as [|n IH]; intros s vals x H Hx; [simpl in H; congruence|].
  cbn [JSONArray_loop] in H.
  change (JSONArray_loop scan2 (S (S n)) s vals) with
    ('(value, s) <- scan_value scan2 s ;;
     let values := vals ++ [value] in
     match skip_ws s with
     | [] => Raise (JSONDecodeError ExpectingCommaDelimiter)
     | nextchar :: s =>
         if (nextchar =? 93)%N then Ok (PyList values, s)
         else if negb (nextchar =? 44)%N
         then Raise (JSONDecodeError ExpectingCommaDelimiter)
         else JSONArray_loop scan2 (S n) (skip_ws s) values
     end).
  unfold bind in *.
  destruct (scan_value scan1 s) as [[value s1]|e|] eqn:Hs; try congruence.
  - rewrite (scan_value_mono _ Hs) by discriminate.
    destruct (skip_ws s1) as [|nextchar s2]; auto.
    destruct (nextchar =? 93)%N; auto.
    destruct (negb (nextchar =? 44)%N); auto.
  - rewrite (scan_value_mono _ Hs) by discriminate. auto.
  - exfalso. apply Hx. now rewrite <- H.
Qed.

Lemma JSONArray_mono (n : nat) (s : pystr) (x : res (pyval * pystr)) :
  JSONArray scan1 n s = x -> x <> OutOfFuel -> JSONArray scan2 (S n) s = x.
Proof.
  unfold JSONArray. intros H Hx.
  destruct (skip_ws s) as [|nextchar s'].
  - now apply JSONArray_loop_mono.
  - destruct (nextchar =? 93)%N; auto. now apply JSONArray_loop_mono.
Qed.

Lemma JSONObject_loop_mono (n : nat) :
  forall s pairs x,
    JSONObject_loop scan1 n s pairs = x -> x <> OutOfFuel ->
    JSONObject_loop scan2 (S n) s pairs = x.
Proof.
  induction n as [|n IH]; intros s pairs x H Hx; [simpl in H; congruence|].
  cbn [JSONObject_loop] in H.
  remember (S n) as m eqn:Hm. cbn [JSONObject_loop]. subst m.
  unfold bind in *.
  destruct (scanstring s []) as [[key s1]|e|]; auto.
  destruct (skip_ws s1) as [|c s2]; auto.
  destruct (negb (c =? 58)%N); auto.
  destruct (scan_value scan1 (skip_ws s2)) as [[value s3]|e|] eqn:Hs;
    try congruence.
  - rewrite (scan_value_mono _ Hs) by discriminate.
    destruct (skip_ws s3) as [|nextchar s4]; auto.
    destruct (nextchar =? 125)%N; auto.
    destruct (negb (nextchar =? 44)%N); auto.
    destruct (skip_ws s4) as [|q s5]; auto.
    destruct (q =? 34)%N; auto.
  - rewrite (scan_value_mono _ Hs) by discriminate. auto.
  - exfalso. apply Hx. now rewrite <- H.
Qed.

Lemma JSONObject_mono (n : nat) (s : pystr) (x : res (pyval * pystr)) :
  JSONObject scan1 n s = x -> x <> OutOfFuel -> JSONObject scan2 (S n) s = x.
Proof.
  unfold JSONObject. intros H Hx.
  destruct (skip_ws s) as [|nextchar s']; auto.
  destruct (nextchar =? 34)%N; auto. now apply JSONObject_loop_mono.
Qed.

End ContainersMono.

(** A result reached within some budget is reached within any larger one. *)
Lemma scan_once_mono_S (fuel : nat) :
  forall s x, scan_once fuel s = x -> x <> OutOfFuel -> scan_once (S fuel) s = x.
Proof.
  induction fuel as [|fuel IH]; intros s x H Hx; [simpl in H; congruence|].
  cbn [scan_once] in H.
  remember (S fuel) as m eqn:Hm. cbn [scan_once]. subst m.
  destruct s as [|nextchar s1]; auto.
  destruct (nextchar =? 34)%N; auto.
  destruct (nextchar =? 123)%N.
  { eapply JSONObject_mono; eauto. }
  destruct (nextchar =? 91)%N; auto.
  eapply JSONArray_mono; eauto.
Qed.

Lemma scan_once_mono (fuel fuel' : nat) (s : pystr) (x : res (pyval * pystr)) :
  fuel <= fuel' -> scan_once fuel s = x -> x <> OutOfFuel ->
  scan_once fuel' s = x.
Proof.
  induction 1 as [|m Hle IH]; auto.
  intros H Hx. apply scan_once_mono_S; auto.
Qed.

(** The budget plays no part in the result. *)
Lemma scan_once_any_fuel (fuel fuel' : nat) (s : pystr) (x : pyval * pystr) :
  scan_once fuel s = Ok x -> length s < fuel' -> scan_once fuel' s = Ok x.
Proof.
  intros H Hlen.
  pose proof (@scan_once_total fuel' s Hlen) as Ht.
  destruct (Nat.le_ge_cases fuel fuel') as [Hle|Hle].
  - eapply scan_once_mono; eauto. discriminate.
  - pose proof (scan_once_mono s Hle eq_refl Ht) as E. congruence.
Qed.

(** ** The exceptions of the decoder *)

Lemma decode_error_intro (msg : json_msg) : is_decode_error (JSONDecodeError msg).
Proof. now exists msg. Qed.

#[local] Hint Resolve decode_error_intro : core.

Lemma scanstring_raises (n : nat) :
  forall s chunks e,
    length s <= n -> scanstring s chunks = Raise e -> is_decode_error e.
Proof.
  induction n as [|n IH]; intros s chunks e Hlen H.
  { destruct s; simpl in *; [injection H as <-; auto | lia]. }
  destruct s as [|c s1]; [injection H as <-; auto|].
  cbn [scanstring] in H. simpl in Hlen.
  destruct (c =? 34)%N; [discriminate|].
  destruct (negb (c =? 92)%N).
  { destruct (c <? 32)%N; [injection H as <-; auto | eapply IH; eauto; lia]. }
  destruct s1 as [|esc s2]; [injection H as <-; auto|]. simpl in Hlen.
  destruct (negb (esc =? 117)%N).
  { destruct (BACKSLASH esc); [eapply IH; eauto; lia | injection H as <-; auto]. }
  destruct s2 as [|h1 [|h2 [|h3 [|h4 s3]]]]; try (injection H as <-; auto; fail).
  simpl in Hlen.
  destruct (length s3 =? 0)%nat; [injection H as <-; auto|].
  destruct (hex4 h1 h2 h3 h4); [|injection H as <-; auto].
  destruct (is_high_surrogate n0 && (6 <? length s3)%nat
            && startswith s3 [92%N; 117%N]).
  - destruct s3 as [|a [|b [|k1 [|k2 [|k3 [|k4 s4]]]]]];
      try (injection H as <-; auto; fail).
    simpl in Hlen.
    destruct (hex4 k1 k2 k3 k4); [|injection H as <-; auto].
    destruct (is_low_surrogate n1); eapply IH; eauto; simpl; lia.
  - eapply IH; eauto; lia.
Qed.

Section ContainersRaise.

Variable scan : pystr -> res (pyval * pystr).

Hypothesis scan_raises :
  forall s e, scan s = Raise e -> e = StopIteration \/ is_decode_error e.

Lemma scan_value_raises (s : pystr) (e : pyexn) :
  scan_value scan s = Raise e -> is_decode_error e.
Proof.
  unfold scan_value. destruct (scan s) as [a|e'|] eqn:E; try discriminate.
  destruct (scan_raises E) as [->|[m ->]]; intros [= <-]; auto.
Qed.

Lemma JSONArray_loop_raises (n : nat) :
  forall s vals e,
    JSONArray_loop scan n s vals = Raise e -> is_decode_error e.
Proof.
  induction n as [|n IH]; intros s vals e H; [discriminate|].
  cbn [JSONArray_loop] in H. unfold bind in H.
  destruct (scan_value scan s) as [[value s1]|e'|] eqn:Hs; try discriminate.
  2:{ injection H as <-. eapply scan_value_raises; eauto. }
  destruct (skip_ws s1) as [|nextchar s2]; [injection H as <-; auto|].
  destruct (nextchar =? 93)%N; [discriminate|].
  destruct (negb (nextchar =? 44)%N); [injection H as <-; auto|].
  eapply IH; eauto.
Qed.

Lemma JSONArray_raises (n : nat) (s : pystr) (e : pyexn) :
  JSONArray scan n s = Raise e -> is_decode_error e.
Proof.
  unfold JSONArray. destruct (skip_ws s) as [|nextchar s'].
  - apply JSONArray_loop_raises.
  - destruct (nextchar =? 93)%N; [discriminate|]. apply JSONArray_loop_raises.
Qed.

Lemma JSONObject_loop_raises (n : nat) :
  forall s pairs e,
    JSONObject_loop scan n s pairs = Raise e -> is_decode_error e.
Proof.
  induction n as [|n IH]; intros s pairs e H; [discriminate|].
  cbn [JSONObject_loop] in H. unfold bind in H.
  destruct (scanstring s []) as [[key s1]|e'|] eqn:Hk; try discriminate.
  2:{ injection H as <-. eapply scanstring_raises; eauto. }
  destruct (skip_ws s1) as [|c s2]; [injection H as <-; auto|].
  destruct (negb (c =? 58)%N); [injection H as <-; auto|].
  destruct (scan_value scan (skip_ws s2)) as [[value s3]|e'|] eqn:Hs;
    try discriminate.
  2:{ injection H as <-. eapply scan_value_raises; eauto. }
  destruct (skip_ws s3) as [|nextchar s4]; [injection H as <-; auto|].
  destruct (nextchar =? 125)%N; [discriminate|].
  destruct (negb (nextchar =? 44)%N); [injection H as <-; auto|].
  destruct (skip_ws s4) as [|q s5]; [injection H as <-; auto|].
  destruct (q =? 34)%N; [|injection H as <-; auto].
  eapply IH; eauto.
Qed.

Lemma JSONObject_raises (n : nat) (s : pystr) (e : pyexn) :
  JSONObject scan n s = Raise e -> is_decode_error e.
Proof.
  unfold JSONObject. destruct (skip_ws s) as [|nextchar s'].
  - intros [= <-]; auto.
  - destruct (nextchar =? 34)%N; [apply JSONObject_loop_raises|].
    destruct (nextchar =? 125)%N; [discriminate | intros [= <-]; auto].
Qed.

End ContainersRaise.

Lemma scan_once_raises (fuel : nat) :
  forall s e, scan_once fuel s = Raise e -> e = StopIteration \/ is_decode_error e.
Proof.
  induction fuel as [|fuel IH]; intros s e H; [discriminate|].
  cbn [scan_once] in H. destruct s as [|nextchar s1]; [injection H as <-; auto|].
  destruct (nextchar =? 34)%N.
  { unfold bind in H.
    destruct (scanstring s1 []) as [[str r]|e'|] eqn:Hs; try discriminate.
    injection H as <-. right. eapply scanstring_raises; eauto. }
  destruct (nextchar =? 123)%N.
  { right. eapply JSONObject_raises; eauto. }
  destruct (nextchar =? 91)%N.
  { right. eapply JSONArray_raises; eauto. }
  destruct (startswith _ (lit "null")); [discriminate|].
  destruct (startswith _ (lit "true")); [discriminate|].
  destruct (startswith _ (lit "false")); [discriminate|].
  destruct (match_number _) as [[[[i f] ex] r]|].
  { destruct f, ex; discriminate. }
  destruct (startswith _ (lit "NaN")); [discriminate|].
  destruct (startswith _ (lit "Infinity")); [discriminate|].
  destruct (startswith _ (lit "-Infinity")); [discriminate|].
  injection H as <-; auto.
Qed.

(** ** [json.loads] accepts exactly the documents of the grammar *)

Theorem json_loads_total (s : pystr) : json_loads s <> OutOfFuel.
Proof.
  unfold json_loads. destruct (startswith s [65279%N]); [discriminate|].
  unfold decode, raw_decode, bind.
  pose proof (skip_ws_length s) as Hl.
  assert (Ht : scan_value (scan_once (S (length s))) (skip_ws s) <> OutOfFuel).
  { apply scan_value_total with (bound := S (length s)); [|lia].
    intros s' Hs'. now apply scan_once_total. }
  destruct (scan_value _ _) as [[obj r]|e|]; try congruence; try discriminate.
  destruct (skip_ws r); discriminate.
Qed.

Theorem json_loads_raises (s : pystr) (e : pyexn) :
  json_loads s = Raise e -> is_decode_error e.
Proof.
  unfold json_loads. destruct (startswith s [65279%N]); [intros [= <-]; auto|].
  unfold decode, raw_decode, bind.
  destruct (scan_value _ _) as [[obj r]|e'|] eqn:Hs; try discriminate.
  - destruct (skip_ws r); [discriminate | intros [= <-]; auto].
  - intros [= <-]. eapply scan_value_raises; [|exact Hs].
    apply scan_once_raises.
Qed.

Theorem json_loads_sound (s : pystr) (v : pyval) :
  json_loads s = Ok v -> JsonText s v.
Proof.
  unfold json_loads. destruct (startswith s [65279%N]); [discriminate|].
  unfold decode, raw_decode, bind.
  destruct (scan_value _ _) as [[obj r]|e'|] eqn:Hs; try discriminate.
  destruct (skip_ws r) eqn:Hr; [|discriminate]. intros [= <-].
  apply scan_value_Ok, scan_once_sound in Hs as (c & E & Hc).
  destruct (skip_ws_split s) as (w & Hw & Es).
  exists w, c, r. repeat split; auto.
  - now rewrite <- E.
  - now apply skip_ws_nil.
Qed.

Theorem json_loads_complete (s : pystr) (v : pyval) :
  JsonText s v -> json_loads s = Ok v.
Proof.
  intros (w1 & c & w2 & -> & Hw1 & Hw2 & Hc).
  destruct (Value_head Hc) as (h & c' & Ec & Hh).
  assert (Hskip : skip_ws (w1 ++ c ++ w2) = c ++ w2).
  { rewrite skip_ws_app by exact Hw1. rewrite Ec. cbn [app].
    now apply skip_ws_stop, value_start_not_ws. }
  unfold json_loads.
  replace (startswith (w1 ++ c ++ w2) [65279%N]) with false.
  2:{ destruct Hw1 as [|x w1 Hx _]; cbn [app startswith].
      - rewrite Ec. cbn [app].
        destruct (value_start_plain _ Hh) as (_ & Hb & _).
        destruct (N.eqb_spec h 65279); [contradiction | reflexivity].
      - destruct (N.eqb_spec x 65279) as [->|]; [discriminate | reflexivity]. }
  unfold decode, raw_decode. rewrite Hskip.
  destruct scan_complete as (Hcomplete & _ & _).
  destruct (Hcomplete c v Hc) as [f0 Hf0].
  specialize (Hf0 f0 (le_n _) w2 (follow_ok_Ws v Hw2)).
  erewrite scan_value_of_Ok.
  2:{ eapply scan_once_any_fuel; [exact Hf0|].
      rewrite !length_app. lia. }
  cbn [bind]. now rewrite skip_ws_all.
Qed.

Theorem json_loads_iff (s : pystr) (v : pyval) :
  json_loads s = Ok v <-> JsonText s v.
Proof. split; [apply json_loads_sound | apply json_loads_complete]. Qed.

(** A text outside the grammar is refused with [JSONDecodeError]. *)
Theorem json_loads_rejects (s : pystr) :
  (forall v, ~ JsonText s v) ->
  exists msg, json_loads s = Raise (JSONDecodeError msg).
Proof.
  intros Hno. destruct (json_loads s) as [v|e|] eqn:E.
  - exfalso. apply (Hno v). now apply json_loads_sound.
  - destruct (json_loads_raises s E) as [msg ->]. now exists msg.
  - exfalso. now apply (json_loads_total s).
Qed.

(* ================================================================== *)
(** * Part IX: facts about [app.py] *)
(* ================================================================== *)

(** ** Removing the code fence *)

Lemma fence_nonempty : fence <> [].
Proof. discriminate. Qed.

Lemma split_head (sep t : pystr) :
  sep <> [] ->
  exists rest,
    split sep t
    = match find sep t with Some i => firstn i t | None => t end :: rest.
Proof.
  intros Hsep. unfold split. destruct t as [|c t].
  - rewrite find_nil by assumption. now exists [].
  - cbn [length split_rounds]. destruct (find sep (c :: t)); eauto.
Qed.

Lemma split_fence (t : pystr) : split fence (fence ++ t) = [] :: split fence t.
Proof.
  unfold split at 1. rewrite length_app.
  change (length fence + length t) with (S (2 + length t)).
  cbn [split_rounds].
  replace (find fence (fence ++ t)) with (Some 0) by reflexivity.
  cbn [firstn]. f_equal.
  change (skipn (0 + length fence) (fence ++ t)) with t.
  apply split_enough_rounds; [apply fence_nonempty | lia].
Qed.

(** The segment kept from a response that begins with a fence: the text up
    to the next fence, or all of it when there is none. *)
Lemma remove_code_block_fenced (t : pystr) :
  remove_code_block (fence ++ t)
  = Ok (drop_json_tag
          match find fence t with Some i => firstn i t | None => t end).
Proof.
  unfold remove_code_block. rewrite startswith_app, split_fence.
  destruct (split_head t fence_nonempty) as [rest ->]. reflexivity.
Qed.

Lemma remove_code_block_plain (s : pystr) :
  startswith s fence = false -> remove_code_block s = Ok s.
Proof. unfold remove_code_block. now intros ->. Qed.

(** [split(...)[1]] never raises [IndexError] here. *)
Lemma remove_code_block_total (s : pystr) : exists p, remove_code_block s = Ok p.
Proof.
  destruct (startswith s fence) eqn:E.
  - apply startswith_true in E. rewrite E, remove_code_block_fenced. eauto.
  - rewrite remove_code_block_plain by assumption. eauto.
Qed.

Lemma find_skip (x : N) (s : pystr) :
  x <> 96%N -> find fence (x :: s) = option_map S (find fence s).
Proof.
  intros Hx. cbn [find]. cbn [startswith fence lit map list_ascii_of_string].
  change (N_of_ascii "`") with 96%N.
  destruct (N.eqb_spec x 96); [contradiction | reflexivity].
Qed.

Lemma startswith_fence_app (a rest : pystr) :
  startswith a fence = false -> last a 0%N <> 96%N -> a <> [] ->
  startswith (a ++ fence ++ rest) fence = false.
Proof.
  intros H Hl Hne.
  destruct a as [|x [|y [|z a]]]; [congruence| | |]; cbn in *.
  - destruct (N.eqb_spec x 96); [contradiction | reflexivity].
  - destruct (N.eqb_spec x 96); [|reflexivity].
    destruct (N.eqb_spec y 96); [contradiction | reflexivity].
  - exact H.
Qed.

(** The next fence after a text that contains none and does not end with a
    backtick is right behind it. *)
Lemma find_fence_app (mid rest : pystr) :
  find fence mid = None -> last mid 0%N <> 96%N ->
  find fence (mid ++ fence ++ rest) = Some (length mid).
Proof.
  induction mid as [|x mid IH]; intros Hf Hl.
  - reflexivity.
  - cbn [find] in Hf. destruct (startswith (x :: mid) fence) eqn:E; [discriminate|].
    destruct (find fence mid) eqn:F; [discriminate|].
    change ((x :: mid) ++ fence ++ rest) with (x :: mid ++ fence ++ rest).
    cbn [find].
    change (x :: mid ++ fence ++ rest) with ((x :: mid) ++ fence ++ rest).
    rewrite startswith_fence_app by (auto; discriminate).
    rewrite IH; auto.
    destruct mid; [discriminate | exact Hl].
Qed.

Lemma firstn_length_app (a b : pystr) : firstn (length a) (a ++ b) = a.
Proof. induction a; simpl; f_equal; auto. Qed.

(** ** Decoding a response *)

Lemma JsonText_edges (s : pystr) (v : pyval) :
  JsonText s v ->
  exists w1 c w2,
    s = w1 ++ c ++ w2 /\ Ws w1 /\ Ws w2 /\ Value c v /\ c <> [] /\
    value_start (hd 0%N c) = true /\ value_end (last c 0%N) = true.
Proof.
  intros (w1 & c & w2 & -> & H1 & H2 & Hc).
  exists w1, c, w2. repeat split; auto.
  - eapply Value_nonempty; eauto.
  - destruct (Value_head Hc) as (h & c' & -> & Hh). exact Hh.
  - eapply Value_last; eauto.
Qed.

Lemma Ws_nil : Ws [].
Proof. constructor. Qed.

Lemma Value_JsonText (c : pystr) (v : pyval) : Value c v -> JsonText c v.
Proof.
  intros H. exists [], c, []. rewrite app_nil_r.
  repeat split; auto using Ws_nil.
Qed.

(** Stripping a JSON document leaves its value text. *)
Lemma strip_JsonText (s : pystr) (v : pyval) :
  JsonText s v -> exists c, strip s = c /\ Value c v.
Proof.
  intros H. destruct (JsonText_edges H)
    as (w1 & c & w2 & -> & H1 & H2 & Hc & Hne & Hh & Hl).
  exists c. split; auto.
  apply strip_core; auto using Ws_spaces.
  - now apply value_start_not_space.
  - now apply value_end_not_space.
Qed.

Lemma Value_not_fenced (c : pystr) (v : pyval) :
  Value c v -> startswith c fence = false.
Proof.
  intros H. destruct (Value_head H) as (h & c' & -> & Hh).
  destruct (value_start_plain _ Hh) as (_ & _ & Hb). cbn.
  destruct (N.eqb_spec h 96); [contradiction | reflexivity].
Qed.

(** A response that is a JSON document decodes to its value. *)
Theorem decode_response_JsonText (s : pystr) (v : pyval) :
  JsonText s v -> decode_response s = Ok v.
Proof.
  intros H. destruct (strip_JsonText H) as (c & E & Hc).
  unfold decode_response. rewrite E.
  rewrite remove_code_block_plain by (eapply Value_not_fenced; eauto).
  cbn [bind]. now apply json_loads_complete, Value_JsonText.
Qed.

(** The decoder is [json.loads] on the payload. *)
Lemma decode_response_payload (raw p : pystr) :
  remove_code_block (strip raw) = Ok p -> decode_response raw = json_loads p.
Proof. unfold decode_response. now intros ->. Qed.

Lemma decode_response_total (raw : pystr) : decode_response raw <> OutOfFuel.
Proof.
  destruct (remove_code_block_total (strip raw)) as [p Hp].
  rewrite (decode_response_payload _ Hp). apply json_loads_total.
Qed.

Lemma decode_response_raises (raw : pystr) (e : pyexn) :
  decode_response raw = Raise e -> is_decode_error e.
Proof.
  destruct (remove_code_block_total (strip raw)) as [p Hp].
  rewrite (decode_response_payload _ Hp). apply json_loads_raises.
Qed.

(** ** Running [generate_flashcards] *)

Section Runs.

Variable ext : externals.

Lemma generate_flashcards_decoded (text : pystr) (num_cards : Z)
      (raw : pystr) (v : pyval) (w : world) :
  model_reply ext (build_prompt text num_cards) = Text raw ->
  decode_response raw = Ok v ->
  generate_flashcards ext text num_cards w
  = (Ok (Some v),
     World (events w ++ [GenerateContent (build_prompt text num_cards)]) (fs w)).
Proof.
  intros Hr Hd.
  cbv [generate_flashcards try_except bindM generate_content emit lift ret].
  rewrite Hr, Hd. reflexivity.
Qed.

Lemma generate_flashcards_failed (text : pystr) (num_cards : Z)
      (raw : pystr) (msg : json_msg) (w : world) :
  model_reply ext (build_prompt text num_cards) = Text raw ->
  decode_response raw = Raise (JSONDecodeError msg) ->
  generate_flashcards ext text num_cards w
  = (Ok None,
     World (events w
            ++ [GenerateContent (build_prompt text num_cards);
                StError (lit "Error parsing AI response: ") (JSONDecodeError msg)])
           (fs w)).
Proof.
  intros Hr Hd.
  cbv [generate_flashcards try_except bindM generate_content emit lift ret
       st_error].
  rewrite Hr, Hd. cbn [events fs]. now rewrite <- app_assoc.
Qed.

Lemma generate_flashcards_provider_failed (text : pystr) (num_cards : Z)
      (what : pystr) (w : world) :
  model_reply ext (build_prompt text num_cards) = Failed what ->
  generate_flashcards ext text num_cards w
  = (Ok None,
     World (events w
            ++ [GenerateContent (build_prompt text num_cards);
                StError (lit "Error generating flashcards: ") (OtherException what)])
           (fs w)).
Proof.
  intros Hr.
  cbv [generate_flashcards try_except bindM generate_content emit lift ret
       st_error].
  rewrite Hr. cbn [events fs]. now rewrite <- app_assoc.
Qed.

(** [generate_flashcards] always returns: with the value decoded, or with
    [None] after one [st.error]. *)
Lemma generate_flashcards_returns (text : pystr) (num_cards : Z) (w : world) :
  exists flashcards w',
    generate_flashcards ext text num_cards w = (Ok flashcards, w').
Proof.
  destruct (model_reply ext (build_prompt text num_cards)) as [raw|what] eqn:Hr.
  - destruct (decode_response raw) as [v|e|] eqn:Hd.
    + erewrite generate_flashcards_decoded; eauto.
    + destruct (decode_response_raises raw Hd) as [msg ->].
      erewrite generate_flashcards_failed; eauto.
    + now apply decode_response_total in Hd.
  - erewrite generate_flashcards_provider_failed; eauto.
Qed.

End Runs.

(** ** Running [main] *)

Lemma draw_page_run (inp : inputs) (w : world) :
  draw_page inp w
  = (Ok (page_text inp, in_num_cards inp),
     World (events w ++ page_events inp) (fs w)).
Proof.
  cbv [page_events page_text draw_page st emit bindM ret].
  destruct (in_use_sample inp); cbn [events fs fst snd app map];
    rewrite <- ?app_assoc; reflexivity.
Qed.

Lemma page_events_no_provider_call (inp : inputs) :
  provider_calls (page_events inp) = 0.
Proof.
  cbv [page_events draw_page st emit bindM ret].
  destruct (in_use_sample inp); reflexivity.
Qed.

Lemma provider_calls_app (a b : list event) :
  provider_calls (a ++ b) = provider_calls a + provider_calls b.
Proof.
  induction a as [|e a IH]; simpl; auto. destruct e; simpl; auto.
Qed.

Lemma main_run (ext : externals) (inp : inputs) (w : world) :
  main ext inp w
  = if in_button inp
    then on_generate ext (page_text inp) (in_num_cards inp) (in_timestamp inp)
           (World (events w ++ page_events inp) (fs w))
    else (Ok tt, World (events w ++ page_events inp) (fs w)).
Proof.
  unfold main, bindM. rewrite draw_page_run.
  destruct (in_button inp); reflexivity.
Qed.

Lemma on_generate_short (ext : externals) (text : pystr) (n : Z) (ts : pystr)
      (w : world) :
  length text < 50 ->
  on_generate ext text n ts w = (Ok tt, World (events w ++ [warning_event]) (fs w)).
Proof.
  intros H. unfold on_generate.
  replace (length text <? 50) with true by (symmetry; now apply Nat.ltb_lt).
  rewrite orb_true_r. reflexivity.
Qed.

Lemma on_generate_long (ext : externals) (text : pystr) (n : Z) (ts : pystr)
      (w : world) :
  50 <= length text ->
  on_generate ext text n ts w
  = match generate_flashcards ext text n
            (World (events w ++ [spinner_event]) (fs w)) with
    | (Ok flashcards, w') => if_flashcards ext flashcards ts w'
    | (Raise e, w') => (Raise e, w')
    | (OutOfFuel, w') => (OutOfFuel, w')
    end.
Proof.
  intros H. unfold on_generate.
  replace (length text <? 50) with false by (symmetry; apply Nat.ltb_ge; lia).
  destruct text as [|c text]; [simpl in H; lia|]. reflexivity.
Qed.

(** ** Running [save_flashcards] *)

Lemma save_flashcards_run (ext : externals) (flashcards : pyval)
      (filename csv : pystr) (w : world) :
  dataframe_to_csv ext flashcards = Ok csv ->
  save_flashcards ext flashcards filename w
  = (Ok (lit "flashcards/" ++ filename ++ lit ".csv",
         lit "flashcards/" ++ filename ++ lit ".json"),
     World (events w)
           ((lit "flashcards/" ++ filename ++ lit ".json",
             File (json_dump_indent2 (float_str ext) flashcards))
            :: (lit "flashcards/" ++ filename ++ lit ".csv", File csv)
            :: match fs_lookup (fs w) (lit "flashcards") with
               | Some _ => fs w
               | None => (lit "flashcards", Directory) :: fs w
               end)).
Proof.
  intros Hcsv.
  cbv [save_flashcards bindM path_exists makedirs write_file lift ret].
  rewrite Hcsv. destruct (fs_lookup (fs w) (lit "flashcards")); reflexivity.
Qed.

Lemma read_file_head (path content : pystr) (evs : list event)
      (files : list (pystr * fsnode)) :
  read_file path (World evs ((path, File content) :: files))
  = (Ok content, World evs ((path, File content) :: files)).
Proof.
  unfold read_file. cbn [fs fs_lookup]. now rewrite pystr_eqb_refl.
Qed.

(* ================================================================== *)
(** * Part X: what [json.dump] writes is read back by [json.loads] *)
(* ================================================================== *)

Section Escapes.

Ltac Zify.zify_post_hook ::= Z.to_euclidean_division_equations.

Lemma hexval_hex_digit (d : N) : (d < 16)%N -> hexval (hex_digit d) = Some d.
Proof.
  intros Hd. unfold hex_digit, hexval.
  destruct (N.ltb_spec d 10).
  - replace ((48 <=? 48 + d) && (48 + d <=? 57))%N with true.
    + f_equal. lia.
    + symmetry. apply andb_true_iff. rewrite !N.leb_le. lia.
  - replace ((48 <=? 87 + d) && (87 + d <=? 57))%N with false.
    + replace ((97 <=? 87 + d) && (87 + d <=? 102))%N with true.
      * f_equal. lia.
      * symmetry. apply andb_true_iff. rewrite !N.leb_le. lia.
    + symmetry. apply andb_false_iff. rewrite !N.leb_gt. lia.
Qed.

Lemma hex4_u_escape (n : N) :
  (n < 65536)%N ->
  hex4 (hex_digit (n / 4096)) (hex_digit ((n / 256) mod 16))
       (hex_digit ((n / 16) mod 16)) (hex_digit (n mod 16)) = Some n.
Proof.
  intros Hn. unfold hex4.
  rewrite !hexval_hex_digit by lia. f_equal. lia.
Qed.

Lemma lor_shiftl_low (a b k : N) :
  (b < 2 ^ k)%N -> N.lor (N.shiftl a k) b = (N.shiftl a k + b)%N.
Proof.
  intros Hb.
  assert (H0 : N.land (N.shiftl a k) b = 0%N).
  { apply N.bits_inj. intros i. rewrite N.land_spec, N.bits_0.
    destruct (N.lt_ge_cases i k) as [Hi|Hi].
    - now rewrite N.shiftl_spec_low.
    - replace (N.testbit b i) with false; [apply andb_false_r|].
      symmetry. destruct (N.eq_dec b 0) as [->|Hne]; [apply N.bits_0|].
      apply N.bits_above_log2.
      apply N.lt_le_trans with k; auto.
      apply N.log2_lt_pow2; auto. lia. }
  rewrite <- N.lxor_lor by exact H0.
  symmetry. now apply N.add_nocarry_lxor.
Qed.

(** The two halves [replace] writes for a character beyond the basic
    plane, as numbers. *)
Lemma surrogate_halves (c : N) :
  (65536 <= c <= 1114111)%N ->
  N.lor 55296 (N.land (N.shiftr (c - 65536) 10) 1023)
  = (55296 + (c - 65536) / 1024)%N /\
  N.lor 56320 (N.land (c - 65536) 1023)
  = (56320 + (c - 65536) mod 1024)%N.
Proof.
  intros Hc. set (n := (c - 65536)%N).
  assert (Hn : (n < 1048576)%N) by (unfold n; lia).
  change 1023%N with (N.ones 10). rewrite !N.land_ones, N.shiftr_div_pow2.
  change (2 ^ 10)%N with 1024%N.
  change 55296%N with (N.shiftl 54 10). change 56320%N with (N.shiftl 55 10).
  rewrite !lor_shiftl_low by (change (2 ^ 10)%N with 1024%N; lia).
  split; [|reflexivity]. f_equal. apply N.mod_small. lia.
Qed.

Lemma join_surrogates_halves (hi lo : N) :
  (hi < 1024)%N -> (lo < 1024)%N ->
  join_surrogates (55296 + hi) (56320 + lo) = (65536 + (hi * 1024 + lo))%N.
Proof.
  intros Hhi Hlo. unfold join_surrogates.
  replace (55296 + hi - 55296)%N with hi by lia.
  replace (56320 + lo - 56320)%N with lo by lia.
  rewrite lor_shiftl_low by (change (2 ^ 10)%N with 1024%N; lia).
  now rewrite N.shiftl_mul_pow2.
Qed.

Lemma split_1024 (n : N) : (n / 1024 * 1024 + n mod 1024 = n)%N.
Proof. lia. Qed.

Lemma halves_bounds (n : N) :
  (n < 1048576)%N -> (n / 1024 < 1024)%N /\ (n mod 1024 < 1024)%N.
Proof. lia. Qed.

Lemma replace_shape (c : N) :
is_code_point c = true -> escape_shape c (replace c).
Proof.
unfold is_code_point. intros Hc. apply N.leb_le in Hc. unfold replace.
destruct (N.eqb_spec c 92) as [->|]; [now apply Esc_short|].
destruct (N.eqb_spec c 34) as [->|]; [now apply Esc_short|].
destruct (N.eqb_spec c 8) as [->|]; [now apply Esc_short|].
destruct (N.eqb_spec c 12) as [->|]; [now apply Esc_short|].
destruct (N.eqb_spec c 10) as [->|]; [now apply Esc_short|].
destruct (N.eqb_spec c 13) as [->|]; [now apply Esc_short|].
destruct (N.eqb_spec c 9) as [->|]; [now apply Esc_short|].
destruct (N.ltb_spec c 65536) as [Hlt|Hge].
- apply Esc_unicode. now apply hex4_u_escape.
- cbv zeta.
  destruct (surrogate_halves (c := c)) as [-> ->]; [lia|].
  remember (c - 65536)%N as m eqn:Em.
  assert (Hm : (m < 1048576)%N) by lia.
  destruct (halves_bounds Hm) as [Hhi Hlo].
  eapply Esc_pair.
  + apply hex4_u_escape. lia.
  + unfold is_high_surrogate. apply andb_true_iff. rewrite !N.leb_le. lia.
  + apply hex4_u_escape. lia.
  + unfold is_low_surrogate. apply andb_true_iff. rewrite !N.leb_le. lia.
  + rewrite join_surrogates_halves by assumption.
    rewrite split_1024. lia.
Qed.

Lemma is_text_cons (c : N) (q : pystr) :
is_text (c :: q) ->
is_code_point c = true /\
(is_high_surrogate c = true -> is_low_surrogate (hd 0%N q) = false) /\
is_text q.
Proof.
unfold is_text. cbn [forallb unpaired]. intros [H1 H2].
apply andb_true_iff in H1 as [Hc Hq].
apply andb_true_iff in H2 as [Hp Hu].
repeat split; auto.
intros Hh. rewrite Hh in Hp. cbn [andb] in Hp. now apply negb_true_iff in Hp.
Qed.

Lemma escape_ascii_cons (c : N) (q : pystr) :
escape_ascii (c :: q) = escape_one c ++ escape_ascii q.
Proof. reflexivity. Qed.

(** After the escape of a high surrogate, the text of a string does not go
  on with the escape of a low surrogate. *)
Lemma escape_ascii_unpaired (u : N) (q : pystr) :
is_text q ->
(is_high_surrogate u = true -> is_low_surrogate (hd 0%N q) = false) ->
pairs_with u (escape_ascii q ++ [34%N]) = false.
Proof.
intros Hq Hu. unfold pairs_with.
destruct (is_high_surrogate u) eqn:Hh; [|reflexivity].
specialize (Hu eq_refl). cbn [andb].
destruct q as [|c q]; [reflexivity|].
apply is_text_cons in Hq as (Hc & _ & _). cbn [hd] in Hu.
rewrite escape_ascii_cons. unfold escape_one.
destruct (needs_escape c) eqn:Hn.
- destruct (replace_shape _ Hc)
    as [e He | h1 h2 h3 h4 Hx | h1 h2 h3 h4 k1 k2 k3 k4 u1 u2 Hx Hhi Hx2 Hlo Hj].
  + cbn. destruct (N.eqb_spec e 117) as [->|]; [|reflexivity].
    rewrite BACKSLASH_not_u in He. discriminate.
  + cbn [app startswith N.eqb Pos.eqb andb]. now rewrite Hx.
  + cbn [app startswith N.eqb Pos.eqb andb]. rewrite Hx.
    unfold is_high_surrogate in Hhi. unfold is_low_surrogate.
    bool_to_prop. apply andb_false_iff. rewrite !N.leb_gt. lia.
- unfold needs_escape in Hn. bool_to_prop.
  cbn. destruct (N.eqb_spec c 92); [contradiction | reflexivity].
Qed.

Theorem escape_ascii_StringBody (q : pystr) :
is_text q -> StringBody (escape_ascii q ++ [34%N]) q.
Proof.
induction q as [|c q IH]; intros Hq.
- constructor.
- destruct (is_text_cons Hq) as (Hc & Hu & Hq'). specialize (IH Hq').
  rewrite escape_ascii_cons, <- app_assoc. unfold escape_one.
  destruct (needs_escape c) eqn:Hn.
  + destruct (replace_shape _ Hc)
      as [e He | h1 h2 h3 h4 Hx | h1 h2 h3 h4 k1 k2 k3 k4 u1 u2 Hx Hhi Hx2 Hlo Hj].
    * now apply SB_escape.
    * apply SB_unicode; auto. now apply escape_ascii_unpaired.
    * rewrite <- Hj. eapply SB_pair; eauto.
  + unfold needs_escape in Hn. bool_to_prop.
    apply SB_char; auto; lia.
Qed.

Lemma encode_basestring_Value (q : pystr) :
is_text q -> Value (py_encode_basestring_ascii q) (PyStr q).
Proof. intros Hq. apply V_string. now apply escape_ascii_StringBody. Qed.

End Escapes.

(** ** The text written for a list of flashcards *)

Lemma Ws_newline_indent (level : nat) : Ws (newline_indent level).
Proof.
  unfold newline_indent. constructor; [reflexivity|].
  apply Forall_forall. intros x Hx. apply repeat_spec in Hx. now subst.
Qed.

Lemma key_StringBody (k : pystr) : is_text k -> escape_ascii k = k ->
  StringBody (k ++ [34%N]) k.
Proof. intros Hk E. rewrite <- E at 1. now apply escape_ascii_StringBody. Qed.

Section Dump.

Variable float_str : pystr -> pystr.

Lemma card_text (c : flashcard) :
  iterencode float_str (card_value c) 1
  = 123%N :: newline_indent 2 ++ 34%N ::
      ((lit "question" ++ [34%N]) ++ [] ++ 58%N :: [32%N]
       ++ py_encode_basestring_ascii (question c) ++ []
       ++ 44%N :: newline_indent 2 ++ 34%N ::
          ((lit "answer" ++ [34%N]) ++ [] ++ 58%N :: [32%N]
           ++ py_encode_basestring_ascii (answer c)
           ++ newline_indent 1 ++ [125%N])).
Proof.
  unfold card_value. cbn [iterencode map join fst snd].
  unfold py_encode_basestring_ascii.
  change (escape_ascii (lit "question")) with (lit "question").
  change (escape_ascii (lit "answer")) with (lit "answer").
  cbn [lit list_ascii_of_string map app].
  repeat (rewrite <- ?app_assoc; cbn [app]). reflexivity.
Qed.

Lemma card_Value (c : flashcard) :
  well_formed_card c ->
  Value (iterencode float_str (card_value c) 1) (card_value c).
Proof.
  intros [Hq Ha]. rewrite card_text.
  change (card_value c)
    with (PyDict (dict [(lit "question", PyStr (question c));
                        (lit "answer", PyStr (answer c))])).
  apply V_object; [apply Ws_newline_indent|].
  apply M_more; try apply Ws_nil; try apply Ws_newline_indent.
  - apply key_StringBody; [split|]; reflexivity.
  - repeat constructor.
  - now apply encode_basestring_Value.
  - apply M_last; try apply Ws_nil; try apply Ws_newline_indent.
    + apply key_StringBody; [split|]; reflexivity.
    + repeat constructor.
    + now apply encode_basestring_Value.
Qed.

Lemma cards_Elements (c : flashcard) (cards : list flashcard) :
  Forall well_formed_card (c :: cards) ->
  Elements
    (join (44%N :: newline_indent 1)
          (map (fun value => iterencode float_str value 1)
               (map card_value (c :: cards)))
     ++ newline_indent 0 ++ [93%N])
    (map card_value (c :: cards)).
Proof.
  revert c. induction cards as [|c' cards IH]; intros c Hwf;
    inversion Hwf as [|? ? Hc Hrest]; subst.
  - cbn [map join]. apply E_last; [now apply card_Value | apply Ws_newline_indent].
  - specialize (IH c' Hrest).
    change (map card_value (c :: c' :: cards))
      with (card_value c :: map card_value (c' :: cards)).
    cbn [map] in *. cbn [join].
    rewrite <- app_assoc.
    rewrite <- app_assoc. cbn [app].
    apply (E_more (w := [])); auto using Ws_nil, Ws_newline_indent.
    now apply card_Value.
Qed.

(** The export of a list of flashcards is a JSON text denoting it. *)
Theorem json_dump_flashcards_Value (cards : list flashcard) :
  Forall well_formed_card cards ->
  Value (json_dump_indent2 float_str (flashcards_value cards))
        (flashcards_value cards).
Proof.
  intros Hwf. unfold json_dump_indent2, flashcards_value.
  destruct cards as [|c cards].
  - apply (V_array_empty Ws_nil).
  - change (iterencode float_str (PyList (map card_value (c :: cards))) 0)
      with (91%N :: newline_indent 1
            ++ (join (44%N :: newline_indent 1)
                  (map (fun value => iterencode float_str value 1)
                     (map card_value (c :: cards)))
                ++ newline_indent 0 ++ [93%N])).
    apply V_array; [apply Ws_newline_indent | now apply cards_Elements].
Qed.

End Dump.

(** ** What the decoder builds can be exported

    The strings [json.loads] builds from a response made of Unicode scalar
    values are texts in the sense of [is_text]: the hypothesis of the round
    trip holds for every list of flashcards the program can hold. *)

Lemma hexval_bound (c d : N) : hexval c = Some d -> (d < 16)%N.
Proof.
  unfold hexval.
  destruct ((48 <=? c) && (c <=? 57))%N eqn:E1.
  { intros [= <-]. bool_to_prop. lia. }
  destruct ((97 <=? c) && (c <=? 102))%N eqn:E2.
  { intros [= <-]. bool_to_prop. lia. }
  destruct ((65 <=? c) && (c <=? 70))%N eqn:E3; [|discriminate].
  intros [= <-]. bool_to_prop. lia.
Qed.

Lemma hex4_bound (h1 h2 h3 h4 u : N) :
  hex4 h1 h2 h3 h4 = Some u -> (u < 65536)%N.
Proof.
  unfold hex4.
  destruct (hexval h1) as [a|] eqn:E1; [|discriminate].
  destruct (hexval h2) as [b|] eqn:E2; [|discriminate].
  destruct (hexval h3) as [c|] eqn:E3; [|discriminate].
  destruct (hexval h4) as [d|] eqn:E4; [|discriminate].
  intros [= <-].
  apply hexval_bound in E1, E2, E3, E4. lia.
Qed.

Lemma BACKSLASH_small (e ch : N) : BACKSLASH e = Some ch -> (ch <= 92)%N.
Proof.
  unfold BACKSLASH.
  repeat match goal with
         | |- context [N.eqb ?a ?b] => destruct (N.eqb a b)
         end; intros [= <-]; lia.
Qed.

Lemma join_surrogates_range (u u2 : N) :
  is_high_surrogate u = true -> is_low_surrogate u2 = true ->
  (65536 <= join_surrogates u u2 <= 1114111)%N.
Proof.
  unfold is_high_surrogate, is_low_surrogate. intros Hh Hl. bool_to_prop.
  replace u with (55296 + (u - 55296))%N by lia.
  replace u2 with (56320 + (u2 - 56320))%N by lia.
  rewrite join_surrogates_halves by lia. lia.
Qed.

Lemma small_not_surrogate (c : N) :
  (c < 55296)%N ->
  is_code_point c = true /\ is_high_surrogate c = false /\
  is_low_surrogate c = false.
Proof.
  intros Hc. unfold is_code_point, is_high_surrogate, is_low_surrogate.
  repeat split.
  - apply N.leb_le. lia.
  - apply andb_false_iff. left. apply N.leb_gt. lia.
  - apply andb_false_iff. left. apply N.leb_gt. lia.
Qed.

Lemma large_not_surrogate (c : N) :
  (57343 < c)%N -> is_high_surrogate c = false /\ is_low_surrogate c = false.
Proof.
  intros Hc. unfold is_high_surrogate, is_low_surrogate.
  split; apply andb_false_iff; right; apply N.leb_gt; lia.
Qed.

Lemma scalar_value_facts (c : N) :
  is_scalar_value c = true ->
  is_code_point c = true /\ is_high_surrogate c = false /\
  is_low_surrogate c = false.
Proof.
  unfold is_scalar_value. intros H. bool_to_prop. auto.
Qed.

(** A decoded string that begins with a low surrogate was written as its
    escape. *)
Lemma StringBody_low_head (t d : pystr) (u : N) :
  StringBody t d -> Scalars t ->
  is_low_surrogate (hd 0%N d) = true ->
  is_high_surrogate u = true ->
  pairs_with u t = true.
Proof.
  intros HB Hs Hlow Hhi.
  destruct HB as [ | c t d Hq Hb Hc HB | e ch t d He HB
                 | h1 h2 h3 h4 u' t d Hx Hpw HB
                 | h1 h2 h3 h4 k1 k2 k3 k4 u' u2 t d Hx Hhi' Hx2 Hlo HB ];
    cbn [hd] in Hlow.
  - discriminate.
  - inversion Hs as [|? ? Hsc _]; subst.
    apply scalar_value_facts in Hsc as (_ & _ & Hn). congruence.
  - apply BACKSLASH_small in He.
    destruct (small_not_surrogate (c := ch)) as (_ & _ & Hn); [lia | congruence].
  - unfold pairs_with. rewrite Hhi. cbn [startswith N.eqb Pos.eqb andb].
    now rewrite Hx.
  - destruct (join_surrogates_range u' u2 Hhi' Hlo) as [Hge _].
    destruct (large_not_surrogate (c := join_surrogates u' u2)) as (_ & Hn);
      [lia | congruence].
Qed.

Lemma Scalars_tail (a b : pystr) : Scalars (a ++ b) -> Scalars b.
Proof. intros H. now apply Forall_app in H. Qed.

Lemma Scalars_head (a b : pystr) : Scalars (a ++ b) -> Scalars a.
Proof. intros H. now apply Forall_app in H. Qed.

Theorem StringBody_text (t d : pystr) :
  StringBody t d -> Scalars t -> is_text d.
Proof.
  unfold is_text.
  induction 1 as [ | c t d Hq Hb Hc HB IH | e ch t d He HB IH
                 | h1 h2 h3 h4 u t d Hx Hpw HB IH
                 | h1 h2 h3 h4 k1 k2 k3 k4 u u2 t d Hx Hhi Hx2 Hlo HB IH ];
    intros Hs.
  - split; reflexivity.
  - inversion Hs as [|? ? Hsc Ht]; subst.
    destruct (IH Ht) as [IH1 IH2].
    apply scalar_value_facts in Hsc as (Hcp & Hnh & _).
    cbn [forallb unpaired]. now rewrite Hcp, Hnh, IH1, IH2.
  - assert (Ht : Scalars t) by (apply (Scalars_tail [92%N; e]), Hs).
    destruct (IH Ht) as [IH1 IH2].
    apply BACKSLASH_small in He.
    destruct (small_not_surrogate (c := ch)) as (Hcp & Hnh & _); [lia|].
    cbn [forallb unpaired]. now rewrite Hcp, Hnh, IH1, IH2.
  - assert (Ht : Scalars t)
      by (apply (Scalars_tail [92%N; 117%N; h1; h2; h3; h4]), Hs).
    destruct (IH Ht) as [IH1 IH2].
    apply hex4_bound in Hx as Hu.
    assert (Hcp : is_code_point u = true)
      by (unfold is_code_point; apply N.leb_le; lia).
    cbn [forallb unpaired]. rewrite Hcp, IH1, IH2, andb_true_r.
    split; [reflexivity|].
    destruct (is_high_surrogate u) eqn:Hhi; [|reflexivity].
    destruct (is_low_surrogate (hd 0%N d)) eqn:Hlow; [|reflexivity].
    rewrite (StringBody_low_head u HB Ht Hlow Hhi) in Hpw. discriminate.
  - assert (Ht : Scalars t)
      by (apply (Scalars_tail [92%N; 117%N; h1; h2; h3; h4;
                               92%N; 117%N; k1; k2; k3; k4]), Hs).
    destruct (IH Ht) as [IH1 IH2].
    destruct (join_surrogates_range u u2 Hhi Hlo) as [Hge Hle].
    destruct (large_not_surrogate (c := join_surrogates u u2)) as (Hnh & _);
      [lia|].
    assert (Hcp : is_code_point (join_surrogates u u2) = true)
      by (unfold is_code_point; now apply N.leb_le).
    cbn [forallb unpaired]. now rewrite Hcp, Hnh, IH1, IH2.
Qed.

Lemma strings_are_text_list (l : list pyval) :
  strings_are_text (PyList l) <-> Forall strings_are_text l.
Proof.
  cbn [strings_are_text]. induction l as [|x l IH].
  - split; auto.
  - split.
    + intros [Hx Hl]. constructor; [exact Hx | now apply IH].
    + intros H. inversion H; subst. split; [assumption | now apply IH].
Qed.

Lemma strings_are_text_dict (d : list (pystr * pyval)) :
  strings_are_text (PyDict d) <-> Forall item_is_text d.
Proof.
  cbn [strings_are_text]. induction d as [|x d IH].
  - split; auto.
  - split.
    + intros [Hx Hd]. constructor; [exact Hx | now apply IH].
    + intros H. inversion H; subst. split; [assumption | now apply IH].
Qed.

Lemma dict_setitem_Forall (P : pystr * pyval -> Prop) (d : list (pystr * pyval))
      (k : pystr) (v : pyval) :
  Forall P d -> P (k, v) -> Forall P (dict_setitem d k v).
Proof.
  intros Hd Hkv. induction Hd as [|[k' v'] d Hx Hd IH]; cbn [dict_setitem].
  - now constructor.
  - destruct (pystr_eqb k' k) eqn:E.
    + apply pystr_eqb_eq in E. subst. now constructor.
    + now constructor.
Qed.

Lemma dict_Forall (P : pystr * pyval -> Prop) (pairs : list (pystr * pyval)) :
  Forall P pairs -> Forall P (dict pairs).
Proof.
  unfold dict. intros H.
  assert (G : forall acc, Forall P acc ->
    Forall P (fold_left (fun d kv => dict_setitem d (fst kv) (snd kv)) pairs acc)).
  { induction H as [|[k v] pairs Hx Hp IH]; intros acc Hacc; cbn [fold_left]; auto.
    apply IH. now apply dict_setitem_Forall. }
  apply G. constructor.
Qed.

Lemma Scalars_mid (s a b c : pystr) :
  s = a ++ b ++ c -> Scalars s -> Scalars b.
Proof.
  intros -> H. now apply Scalars_tail, Scalars_head in H.
Qed.

Ltac regroup :=
  repeat (rewrite <- ?app_assoc; cbn [app]); rewrite ?app_nil_r; reflexivity.

Theorem Value_strings :
  (forall c v, Value c v -> Scalars c -> strings_are_text v) /\
  (forall body l, Elements body l -> Scalars body -> Forall strings_are_text l) /\
  (forall body l, Members body l -> Scalars body -> Forall item_is_text l).
Proof.
  apply Value_mutind; try (intros; exact I).
  - intros c v Hn _. destruct Hn; exact I.
  - intros body s Hb Hs. cbn [strings_are_text].
    apply (StringBody_text Hb). now inversion Hs.
  - intros w body l Hw Hb IH Hs. apply strings_are_text_list, IH.
    eapply Scalars_mid with (a := (91%N :: w)) (c := []); [|exact Hs]; regroup.
  - intros w body pairs Hw Hb IH Hs.
    apply strings_are_text_dict, dict_Forall, IH.
    eapply Scalars_mid with (a := (123%N :: w ++ [34%N])) (c := []); [|exact Hs]; regroup.
  - intros c v w Hc IH Hw Hs. constructor; [|constructor].
    apply IH. now apply Scalars_head in Hs.
  - intros c v w w' rest l Hc IHc Hw Hw' Hr IHr Hs. constructor.
    + apply IHc. now apply Scalars_head in Hs.
    + apply IHr.
      eapply Scalars_mid with (a := (c ++ w ++ 44%N :: w')) (c := []); [|exact Hs]; regroup.
  - intros key k w1 w2 c v w3 Hk Hw1 Hw2 Hc IH Hw3 Hs.
    constructor; [|constructor]. split; cbn [fst snd].
    + apply (StringBody_text Hk). now apply Scalars_head in Hs.
    + apply IH.
      eapply Scalars_mid with (a := (key ++ w1 ++ 58%N :: w2)) (c := (w3 ++ [125%N])); [|exact Hs]; regroup.
  - intros key k w1 w2 c v w3 w4 rest l Hk Hw1 Hw2 Hc IHc Hw3 Hw4 Hr IHr Hs.
    constructor; [split; cbn [fst snd]|].
    + apply (StringBody_text Hk). now apply Scalars_head in Hs.
    + apply IHc.
      eapply Scalars_mid with (a := (key ++ w1 ++ 58%N :: w2)) (c := (w3 ++ 44%N :: w4 ++ 34%N :: rest)); [|exact Hs]; regroup.
    + apply IHr.
      eapply Scalars_mid with (a := (key ++ w1 ++ 58%N :: w2 ++ c ++ w3
                             ++ 44%N :: w4 ++ [34%N])) (c := []); [|exact Hs]; regroup.
Qed.

Lemma Scalars_lstrip (s : pystr) : Scalars s -> Scalars (lstrip s).
Proof.
  induction 1 as [|c s Hc Hs IH]; cbn [lstrip]; [constructor|].
  destruct (isspace c); [exact IH | now constructor].
Qed.

Lemma Scalars_strip (s : pystr) : Scalars s -> Scalars (strip s).
Proof.
  intros H. unfold strip, rstrip.
  apply Forall_rev, Scalars_lstrip, Forall_rev, Scalars_lstrip, H.
Qed.

Lemma Scalars_firstn (n : nat) (s : pystr) : Scalars s -> Scalars (firstn n s).
Proof.
  intros H. rewrite <- (firstn_skipn n s) in H. now apply Scalars_head in H.
Qed.

Lemma Scalars_skipn (n : nat) (s : pystr) : Scalars s -> Scalars (skipn n s).
Proof.
  intros H. rewrite <- (firstn_skipn n s) in H. now apply Scalars_tail in H.
Qed.

Lemma Scalars_payload (s p : pystr) :
  remove_code_block s = Ok p -> Scalars s -> Scalars p.
Proof.
  intros Hp Hs. destruct (startswith s fence) eqn:E.
  - apply startswith_true in E. rewrite E in Hp, Hs.
    rewrite remove_code_block_fenced in Hp. injection Hp as <-.
    apply Scalars_tail in Hs. unfold drop_json_tag.
    assert (Hseg : Scalars match find fence (skipn (length fence) s) with
                           | Some i => firstn i (skipn (length fence) s)
                           | None => skipn (length fence) s
                           end).
    { destruct (find fence _); [now apply Scalars_firstn | assumption]. }
    destruct (startswith _ (lit "json")); [now apply Scalars_skipn | assumption].
  - rewrite remove_code_block_plain in Hp by assumption. now injection Hp as <-.
Qed.

(** Every string of a decoded value is a text. *)
Theorem decode_response_strings (raw : pystr) (v : pyval) :
  decode_response raw = Ok v -> Scalars raw -> strings_are_text v.
Proof.
  intros Hd Hs.
  destruct (remove_code_block_total (strip raw)) as [p Hp].
  rewrite (decode_response_payload _ Hp) in Hd.
  apply Scalars_strip in Hs. apply (Scalars_payload Hp) in Hs.
  apply json_loads_sound in Hd as (w1 & c & w2 & -> & _ & _ & Hc).
  destruct Value_strings as (Hv & _ & _). apply (Hv c v Hc).
  now apply Scalars_tail, Scalars_head in Hs.
Qed.

Lemma cards_are_text (cards : list flashcard) :
  strings_are_text (flashcards_value cards) -> Forall well_formed_card cards.
Proof.
  unfold flashcards_value. intros H. apply strings_are_text_list in H.
  induction cards as [|c cards IH]; [constructor|].
  cbn [map] in H. inversion H as [|? ? Hc Hrest]; subst.
  constructor; [|now apply IH].
  unfold card_value in Hc. apply strings_are_text_dict in Hc.
  inversion Hc as [|? ? [_ Hq] Hc']; subst.
  inversion Hc' as [|? ? [_ Ha] _]; subst.
  split; assumption.
Qed.

(** The flashcards decoded from a response survive export and re-import. *)
Theorem decoded_flashcards_round_trip (float_str : pystr -> pystr)
        (raw : pystr) (cards : list flashcard) :
  Scalars raw ->
  decode_response raw = Ok (flashcards_value cards) ->
  decode_response (json_dump_indent2 float_str (flashcards_value cards))
  = Ok (flashcards_value cards).
Proof.
  intros Hs Hd.
  apply decode_response_JsonText, Value_JsonText, json_dump_flashcards_Value.
  apply cards_are_text. eapply decode_response_strings; eauto.
Qed.

(* ================================================================== *)
(** * Part XI: the properties of the specification *)
(* ================================================================== *)

Lemma substring_here (x post : pystr) : substring x (x ++ post).
Proof. now exists [], post. Qed.

Lemma substring_app_r (x a b : pystr) : substring x b -> substring x (a ++ b).
Proof.
  intros (pre & post & ->). exists (a ++ pre), post. now rewrite <- app_assoc.
Qed.

Lemma build_prompt_embeds (text : pystr) (num_cards : Z) :
  substring (str_of_int num_cards) (build_prompt text num_cards) /\
  substring text (build_prompt text num_cards).
Proof.
  unfold build_prompt. split;
    repeat first [apply substring_here | apply substring_app_r].
Qed.

(** C4.  For every card count between 1 and 200 and every source text of at
    least 50 characters, the prompt contains the decimal string of the card
    count and contains the source text verbatim. *)
Theorem C4_prompt_embeds_count_and_text (text : pystr) (num_cards : Z) :
  (1 <= num_cards <= 200)%Z -> 50 <= length text ->
  substring (str_of_int num_cards) (build_prompt text num_cards) /\
  substring text (build_prompt text num_cards).
Proof. intros _ _. apply build_prompt_embeds. Qed.

Lemma JsonText_last (t : pystr) (v : pyval) :
  JsonText t v -> t <> [] /\ last t 0%N <> 96%N.
Proof.
  intros H. destruct (JsonText_edges H)
    as (w1 & c & w2 & -> & H1 & H2 & Hc & Hne & Hh & Hl).
  assert (Hcw : c ++ w2 <> []).
  { intros E. apply app_eq_nil in E as [E _]. contradiction. }
  split; [now apply app_ne_r|].
  rewrite last_app_ne by assumption.
  destruct w2 as [|x w2].
  - rewrite app_nil_r. intros E. rewrite E in Hl. discriminate.
  - rewrite last_app_ne by discriminate.
    assert (Hin : In (last (x :: w2) 0%N) (x :: w2)).
    { destruct (exists_last (l := x :: w2)) as (w & z & E); [discriminate|].
      rewrite E, last_last. apply in_or_app. right. now left. }
    unfold Ws in H2. rewrite Forall_forall in H2. apply H2 in Hin.
    intros E. rewrite E in Hin. discriminate.
Qed.

Lemma find_after_tag (t : pystr) :
  find fence (lit "json" ++ t) = option_map (Nat.add 4) (find fence t).
Proof.
  cbn [lit list_ascii_of_string map app].
  rewrite !find_skip by discriminate.
  destruct (find fence t); reflexivity.
Qed.

Lemma fenced_edges (t : pystr) :
  fenced t <> [] /\ isspace (hd 0%N (fenced t)) = false /\
  isspace (last (fenced t) 0%N) = false.
Proof.
  unfold fenced. split; [discriminate | split; [reflexivity|]].
  rewrite !last_app_ne by ne. reflexivity.
Qed.

(** Counterexample to C1 as stated: the array [["```"]] decodes on its own,
    and fails to decode once it is wrapped in a fence. *)
Lemma C1_counterexample :
  JsonText ex_fence_in_array (PyList [PyStr fence]) /\
  decode_response ex_fence_in_array = Ok (PyList [PyStr fence]) /\
  decode_response (fenced (nl ++ ex_fence_in_array ++ nl))
  = Raise (JSONDecodeError UnterminatedString).
Proof.
  split; [|split].
  - apply json_loads_sound. vm_compute. reflexivity.
  - vm_compute. reflexivity.
  - vm_compute. reflexivity.
Qed.

(** The decoder hands the text between the fence and the tag on one side
    and the closing fence on the other to [json.loads], as it is. *)
Lemma decode_response_fenced (t : pystr) (v : pyval) (ws1 ws2 : pystr) :
  JsonText t v ->
  ~ substring fence t ->
  Spaces ws1 -> Spaces ws2 ->
  decode_response (ws1 ++ fenced t ++ ws2) = json_loads t.
Proof.
  intros Ht Hno H1 H2.
  destruct (fenced_edges t) as (Hne & Hh & Hl).
  destruct (JsonText_last Ht) as [Htne Htl].
  unfold decode_response. rewrite strip_core by assumption.
  unfold fenced. rewrite remove_code_block_fenced.
  replace (lit "json" ++ t ++ fence) with ((lit "json" ++ t) ++ fence ++ [])
    by now rewrite <- app_assoc, app_nil_r.
  rewrite find_fence_app.
  - rewrite firstn_length_app. cbn [bind]. reflexivity.
  - rewrite find_after_tag, find_not_substring by assumption. reflexivity.
  - rewrite last_app_ne by assumption. exact Htl.
Qed.

(** A JSON text alone is handed to [json.loads] less the whitespace around
    it, which [json.loads] skips. *)
Lemma decode_response_unfenced (t : pystr) (v : pyval) :
  JsonText t v -> decode_response t = json_loads t.
Proof.
  intros Ht.
  rewrite (decode_response_JsonText Ht). symmetry.
  now apply json_loads_complete.
Qed.

(** C1 (amended).  For every text of a JSON array that contains no run of
    three backticks, the response made of that text wrapped in a fence with
    the [json] tag, whatever whitespace surrounds the fence, is decoded as
    the text alone is: the two runs of the decoder end alike, and the
    sequence they return is the one the array denotes. *)
Theorem C1_fenced_array_decodes_alike (t : pystr) (l : list pyval)
        (ws1 ws2 : pystr) :
  JsonText t (PyList l) ->
  ~ substring fence t ->
  Spaces ws1 -> Spaces ws2 ->
  decode_response (ws1 ++ fenced t ++ ws2) = decode_response t /\
  (forall v, decode_response t = Ok v -> v = PyList l).
Proof.
  intros Ht Hno H1 H2. split.
  - rewrite (decode_response_fenced Ht Hno H1 H2).
    symmetry. now apply decode_response_unfenced with (v := PyList l).
  - intros v Hv. rewrite (decode_response_JsonText Ht) in Hv. congruence.
Qed.

Lemma C1_witness :
  decode_response ex_one_card = Ok (PyList ex_one_card_value) /\
  decode_response ([] ++ fenced ex_one_card ++ []) = decode_response ex_one_card /\
  (forall v, decode_response ex_one_card = Ok v -> v = PyList ex_one_card_value).
Proof.
  split; [vm_compute; reflexivity|].
  apply C1_fenced_array_decodes_alike.
  - apply json_loads_sound. vm_compute. reflexivity.
  - apply find_None. vm_compute. reflexivity.
  - constructor.
  - constructor.
Defined.

(** What the decoder returns is the value of its payload, a JSON text. *)
Lemma decode_response_sound (raw : pystr) (v : pyval) :
  decode_response raw = Ok v ->
  exists p, remove_code_block (strip raw) = Ok p /\ JsonText p v.
Proof.
  intros H. destruct (remove_code_block_total (strip raw)) as [p Hp].
  exists p. split; [assumption|].
  rewrite (decode_response_payload _ Hp) in H. now apply json_loads_sound.
Qed.

(** Counterexample to C2 as stated: a response that is a JSON object is
    returned as a success. *)
Lemma C2_counterexample :
  JsonText (strip ex_object) ex_object_value /\
  (forall l, ex_object_value <> PyList l) /\
  decode_response ex_object = Ok ex_object_value /\
  ~ (exists msg, decode_response ex_object = Raise (JSONDecodeError msg)).
Proof.
  assert (E : decode_response ex_object = Ok ex_object_value)
    by (vm_compute; reflexivity).
  split; [|split; [|split]].
  - apply json_loads_sound. vm_compute. reflexivity.
  - discriminate.
  - exact E.
  - intros [msg H]. rewrite E in H. discriminate.
Qed.

(** C2 (amended).  For every response whose text, once trimmed and freed of
    its fence, [json.loads] parses to a value that is not an array, that
    value is returned as a success: [generate_flashcards] returns it and
    reports no error.  The value is the one the text denotes as a JSON
    document. *)
Theorem C2_non_array_is_returned (ext : externals) (text : pystr)
        (num_cards : Z) (raw : pystr) (v : pyval) (w : world) :
  model_reply ext (build_prompt text num_cards) = Text raw ->
  decode_response raw = Ok v ->
  (forall l, v <> PyList l) ->
  generate_flashcards ext text num_cards w
  = (Ok (Some v),
     World (events w ++ [GenerateContent (build_prompt text num_cards)]) (fs w)) /\
  exists p, remove_code_block (strip raw) = Ok p /\ JsonText p v.
Proof.
  intros Hr Hd _. split.
  - now apply generate_flashcards_decoded with (raw := raw).
  - now apply decode_response_sound.
Qed.

Lemma C2_witness :
  generate_flashcards (answering ex_object) SAMPLE_TEXT 3 (World [] [])
  = (Ok (Some ex_object_value),
     World ([] ++ [GenerateContent (build_prompt SAMPLE_TEXT 3)]) []) /\
  exists p, remove_code_block (strip ex_object) = Ok p /\ JsonText p ex_object_value.
Proof.
  apply (C2_non_array_is_returned (answering ex_object) SAMPLE_TEXT 3
           (raw := ex_object) (World [] [])).
  - reflexivity.
  - vm_compute. reflexivity.
  - discriminate.
Defined.

(** Counterexample to C3 as stated: the text [[NaN]] is malformed JSON,
    RFC 8259 having no [NaN], and yet the decoder returns a list for it,
    which [generate_flashcards] returns as a success, no error reported. *)
Lemma C3_counterexample :
  ~ Rfc8259Text ex_nan /\
  decode_response ex_nan = Ok (PyList [PyFloat NaN]) /\
  generate_flashcards (answering ex_nan) SAMPLE_TEXT 3 (World [] [])
  = (Ok (Some (PyList [PyFloat NaN])),
     World [GenerateContent (build_prompt SAMPLE_TEXT 3)] []).
Proof.
  split; [|split].
  - intros (v & Hv & Hs). apply json_loads_complete in Hv.
    vm_compute in Hv. injection Hv as <-. cbn in Hs. tauto.
  - vm_compute. reflexivity.
  - apply (generate_flashcards_decoded (answering ex_nan) SAMPLE_TEXT 3
             (raw := ex_nan) (World [] [])).
    + reflexivity.
    + vm_compute. reflexivity.
Qed.

(** C3 (amended).  For every response whose text, once trimmed and freed of
    its fence, is not a document of the dialect that [json.loads] reads
    (RFC 8259 and the constants [NaN], [Infinity] and [-Infinity]), the
    decoder returns no value, hence no part of the text:
    [generate_flashcards] reports one error and returns [None].  When the
    decoder raises [JSONDecodeError], the error reported is that one, as a
    parse error. *)
Theorem C3_malformed_json_fails (ext : externals) (text : pystr)
        (num_cards : Z) (raw p : pystr) (w : world) :
  model_reply ext (build_prompt text num_cards) = Text raw ->
  remove_code_block (strip raw) = Ok p ->
  (forall v, ~ JsonText p v) ->
  (forall v, decode_response raw <> Ok v) /\
  (exists prefix e,
     generate_flashcards ext text num_cards w
     = (Ok None,
        World (events w
               ++ [GenerateContent (build_prompt text num_cards);
                   StError prefix e])
              (fs w))) /\
  (forall msg,
     decode_response raw = Raise (JSONDecodeError msg) ->
     generate_flashcards ext text num_cards w
     = (Ok None,
        World (events w
               ++ [GenerateContent (build_prompt text num_cards);
                   StError (lit "Error parsing AI response: ")
                           (JSONDecodeError msg)])
              (fs w))).
Proof.
  intros Hr Hp Hno.
  destruct (json_loads_rejects Hno) as [msg Hm].
  assert (Hd : decode_response raw = Raise (JSONDecodeError msg))
    by now rewrite (decode_response_payload _ Hp).
  split; [|split].
  - intros v Hv. rewrite Hd in Hv. discriminate.
  - exists (lit "Error parsing AI response: "), (JSONDecodeError msg).
    now apply generate_flashcards_failed with (raw := raw).
  - intros msg' Hd'. now apply generate_flashcards_failed with (raw := raw).
Qed.

Lemma C3_witness :
  (forall v, decode_response ex_truncated <> Ok v) /\
  (exists prefix e,
     generate_flashcards (answering ex_truncated) SAMPLE_TEXT 3 (World [] [])
     = (Ok None,
        World ([] ++ [GenerateContent (build_prompt SAMPLE_TEXT 3);
                      StError prefix e]) [])) /\
  (forall msg,
     decode_response ex_truncated = Raise (JSONDecodeError msg) ->
     generate_flashcards (answering ex_truncated) SAMPLE_TEXT 3 (World [] [])
     = (Ok None,
        World ([] ++ [GenerateContent (build_prompt SAMPLE_TEXT 3);
                      StError (lit "Error parsing AI response: ")
                              (JSONDecodeError msg)]) [])).
Proof.
  apply (C3_malformed_json_fails (answering ex_truncated) SAMPLE_TEXT 3
           (raw := ex_truncated) (p := ex_truncated) (World [] [])).
  - reflexivity.
  - vm_compute. reflexivity.
  - intros v Hv. apply json_loads_complete in Hv. vm_compute in Hv. discriminate.
Defined.

(** The two malformed texts the specification names. *)
Example truncated_array_fails :
  decode_response ex_truncated = Raise (JSONDecodeError UnterminatedString).
Proof. vm_compute. reflexivity. Qed.

Example trailing_comma_fails :
  decode_response ex_trailing_comma = Raise (JSONDecodeError ExpectingValue).
Proof. vm_compute. reflexivity. Qed.

Lemma C4_witness :
  substring (str_of_int 3) (build_prompt SAMPLE_TEXT 3) /\
  substring SAMPLE_TEXT (build_prompt SAMPLE_TEXT 3).
Proof.
  apply C4_prompt_embeds_count_and_text.
  - lia.
  - vm_compute. repeat constructor.
Defined.

(** C5.  For every source text shorter than 50 characters, the empty text
    included, pressing the Generate button only adds the warning to the
    page: the pipeline is not run and no call is made to the provider. *)
Theorem C5_short_text_is_rejected (ext : externals) (inp : inputs) (w : world) :
  in_button inp = true ->
  length (page_text inp) < 50 ->
  main ext inp w
  = (Ok tt, World (events w ++ page_events inp ++ [warning_event]) (fs w)) /\
  provider_calls (page_events inp ++ [warning_event]) = 0.
Proof.
  intros Hb Hlen. split.
  - rewrite main_run, Hb, on_generate_short by assumption.
    cbn [events fs]. now rewrite <- app_assoc.
  - rewrite provider_calls_app, page_events_no_provider_call. reflexivity.
Qed.

Lemma C5_witness :
  main (answering ex_one_card) (ex_inputs ex_forty false) (World [] [])
  = (Ok tt,
     World ([] ++ page_events (ex_inputs ex_forty false) ++ [warning_event]) []) /\
  provider_calls (page_events (ex_inputs ex_forty false) ++ [warning_event]) = 0.
Proof.
  apply (C5_short_text_is_rejected (answering ex_one_card)
           (ex_inputs ex_forty false) (World [] [])).
  - reflexivity.
  - vm_compute. repeat constructor.
Defined.

(** C6.  For every response that is empty or made of whitespace only, the
    decoder fails with [JSONDecodeError]. *)
Theorem C6_blank_response_fails (ext : externals) (text : pystr)
        (num_cards : Z) (raw : pystr) (w : world) :
  model_reply ext (build_prompt text num_cards) = Text raw ->
  Spaces raw ->
  decode_response raw = Raise (JSONDecodeError ExpectingValue) /\
  generate_flashcards ext text num_cards w
  = (Ok None,
     World (events w
            ++ [GenerateContent (build_prompt text num_cards);
                StError (lit "Error parsing AI response: ")
                        (JSONDecodeError ExpectingValue)])
           (fs w)).
Proof.
  intros Hr Hs.
  assert (Hd : decode_response raw = Raise (JSONDecodeError ExpectingValue)).
  { unfold decode_response. now rewrite strip_all_spaces. }
  split; [exact Hd | now apply generate_flashcards_failed with (raw := raw)].
Qed.

Lemma C6_witness :
  decode_response [32%N; 10%N; 9%N; 160%N]
  = Raise (JSONDecodeError ExpectingValue) /\
  generate_flashcards (answering [32%N; 10%N; 9%N; 160%N]) SAMPLE_TEXT 3
    (World [] [])
  = (Ok None,
     World ([] ++ [GenerateContent (build_prompt SAMPLE_TEXT 3);
                   StError (lit "Error parsing AI response: ")
                           (JSONDecodeError ExpectingValue)]) []).
Proof.
  apply (C6_blank_response_fails (answering [32%N; 10%N; 9%N; 160%N])
           SAMPLE_TEXT 3 (World [] [])).
  - reflexivity.
  - repeat constructor.
Defined.

Lemma export_decodes (float_str : pystr -> pystr) (cards : list flashcard) :
  Forall well_formed_card cards ->
  decode_response (json_dump_indent2 float_str (flashcards_value cards))
  = Ok (flashcards_value cards).
Proof.
  intros Hwf. apply decode_response_JsonText, Value_JsonText.
  now apply json_dump_flashcards_Value.
Qed.

(** C7.  For every sequence of flashcard records whose fields are texts,
    the JSON export of the sequence, fed back through the response
    decoder, yields the sequence itself. *)
Theorem C7_export_round_trip (float_str : pystr -> pystr)
        (cards : list flashcard) :
  Forall well_formed_card cards ->
  decode_response (json_dump_indent2 float_str (flashcards_value cards))
  = Ok (flashcards_value cards).
Proof. apply export_decodes. Qed.

Lemma C7_witness :
  decode_response (json_dump_indent2 (fun l => l) (flashcards_value ex_cards))
  = Ok (flashcards_value ex_cards).
Proof.
  apply C7_export_round_trip.
  repeat constructor.
Defined.

(** The same through [save_flashcards]: the JSON file it writes, read
    back and decoded, gives the flashcards saved. *)
Lemma saved_json_decodes (ext : externals) (cards : list flashcard)
      (filename csv : pystr) (w : world) :
  dataframe_to_csv ext (flashcards_value cards) = Ok csv ->
  Forall well_formed_card cards ->
  exists csv_path json_path w' content,
    save_flashcards ext (flashcards_value cards) filename w
    = (Ok (csv_path, json_path), w') /\
    read_file json_path w' = (Ok content, w') /\
    decode_response content = Ok (flashcards_value cards).
Proof.
  intros Hcsv Hwf.
  rewrite (save_flashcards_run _ _ filename w Hcsv).
  do 4 eexists. split; [reflexivity|]. split.
  - apply read_file_head.
  - now apply export_decodes.
Qed.

(** C8.  For every requested card count and every response that the
    decoder parses to an array, the pipeline returns the elements of the
    array, all of them and in the order of the text (the array is the one
    the text denotes); their number is not compared with the requested
    count. *)
Theorem C8_count_is_not_checked (ext : externals) (text : pystr)
        (num_cards : Z) (raw : pystr) (objs : list pyval) (w : world) :
  model_reply ext (build_prompt text num_cards) = Text raw ->
  decode_response raw = Ok (PyList objs) ->
  generate_flashcards ext text num_cards w
  = (Ok (Some (PyList objs)),
     World (events w ++ [GenerateContent (build_prompt text num_cards)]) (fs w)) /\
  exists p, remove_code_block (strip raw) = Ok p /\ JsonText p (PyList objs).
Proof.
  intros Hr Hd. split.
  - now apply generate_flashcards_decoded with (raw := raw).
  - now apply decode_response_sound.
Qed.

Lemma C8_witness :
  generate_flashcards (answering (fenced ex_one_card)) SAMPLE_TEXT 3 (World [] [])
  = (Ok (Some (PyList ex_one_card_value)),
     World ([] ++ [GenerateContent (build_prompt SAMPLE_TEXT 3)]) []) /\
  exists p,
    remove_code_block (strip (fenced ex_one_card)) = Ok p /\
    JsonText p (PyList ex_one_card_value).
Proof.
  apply (C8_count_is_not_checked (answering (fenced ex_one_card)) SAMPLE_TEXT 3
           (raw := fenced ex_one_card) (World [] [])).
  - reflexivity.
  - vm_compute. reflexivity.
Defined.

Lemma main_after_generate (ext : externals) (inp : inputs) (w : world)
      (flashcards : option pyval) (evs : list event) :
  in_button inp = true ->
  50 <= length (page_text inp) ->
  (forall w0,
     generate_flashcards ext (page_text inp) (in_num_cards inp) w0
     = (Ok flashcards, World (events w0 ++ evs) (fs w0))) ->
  main ext inp w
  = if_flashcards ext flashcards (in_timestamp inp)
      (World (events w ++ page_events inp ++ spinner_event :: evs) (fs w)).
Proof.
  intros Hb Hlen Hg.
  rewrite main_run, Hb, on_generate_long, Hg by assumption.
  cbn [events fs]. f_equal. f_equal. now rewrite <- !app_assoc.
Qed.

(** C9.  When the response decodes to the empty array, the run ends after
    the call to the provider: no success message, no flashcard, no download
    button is added to the page and no file is written; what follows
    [generate_flashcards] is what follows a decoding failure. *)
Theorem C9_empty_array_shows_nothing (ext : externals) (inp : inputs)
        (w : world) (raw : pystr) :
  in_button inp = true ->
  50 <= length (page_text inp) ->
  model_reply ext (build_prompt (page_text inp) (in_num_cards inp)) = Text raw ->
  decode_response raw = Ok (PyList []) ->
  main ext inp w
  = (Ok tt,
     World (events w ++ page_events inp
            ++ [spinner_event;
                GenerateContent (build_prompt (page_text inp) (in_num_cards inp))])
           (fs w)) /\
  if_flashcards ext (Some (PyList [])) (in_timestamp inp)
  = if_flashcards ext None (in_timestamp inp).
Proof.
  intros Hb Hlen Hr Hd. split; [|reflexivity].
  rewrite (@main_after_generate ext inp w (Some (PyList []))
             [GenerateContent (build_prompt (page_text inp) (in_num_cards inp))]);
    auto.
  intros w0. now apply generate_flashcards_decoded with (raw := raw).
Qed.

Lemma C9_witness :
  main (answering (lit "[]")) (ex_inputs [] true) (World [] [])
  = (Ok tt,
     World ([] ++ page_events (ex_inputs [] true)
            ++ [spinner_event;
                GenerateContent (build_prompt (page_text (ex_inputs [] true))
                                              (in_num_cards (ex_inputs [] true)))])
           []) /\
  if_flashcards (answering (lit "[]")) (Some (PyList []))
                (in_timestamp (ex_inputs [] true))
  = if_flashcards (answering (lit "[]")) None (in_timestamp (ex_inputs [] true)).
Proof.
  apply (C9_empty_array_shows_nothing (answering (lit "[]")) (ex_inputs [] true)
           (World [] []) (raw := lit "[]")).
  - reflexivity.
  - vm_compute. repeat constructor.
  - reflexivity.
  - vm_compute. reflexivity.
Defined.

(** The same run when decoding fails: one error message more, nothing
    else. *)
Lemma main_decode_failure (ext : externals) (inp : inputs) (w : world)
      (raw : pystr) (msg : json_msg) :
  in_button inp = true ->
  50 <= length (page_text inp) ->
  model_reply ext (build_prompt (page_text inp) (in_num_cards inp)) = Text raw ->
  decode_response raw = Raise (JSONDecodeError msg) ->
  main ext inp w
  = (Ok tt,
     World (events w ++ page_events inp
            ++ [spinner_event;
                GenerateContent (build_prompt (page_text inp) (in_num_cards inp));
                StError (lit "Error parsing AI response: ") (JSONDecodeError msg)])
           (fs w)).
Proof.
  intros Hb Hlen Hr Hd.
  rewrite (@main_after_generate ext inp w None
             [GenerateContent (build_prompt (page_text inp) (in_num_cards inp));
              StError (lit "Error parsing AI response: ") (JSONDecodeError msg)]);
    auto.
  intros w0. now apply generate_flashcards_failed with (raw := raw).
Qed.

(** C10.  For every response that, once trimmed, begins with a fence and
    holds a second one, the decoder parses the text between the two, less
    a leading [json]; what follows the second fence plays no part. *)
Theorem C10_text_between_fences (raw mid rest : pystr) :
  strip raw = fence ++ mid ++ fence ++ rest ->
  ~ substring fence mid ->
  last mid 0%N <> 96%N ->
  decode_response raw = json_loads (drop_json_tag mid).
Proof.
  intros Hs Hno Hl. unfold decode_response.
  rewrite Hs, remove_code_block_fenced.
  rewrite find_fence_app by (auto using find_not_substring).
  now rewrite firstn_length_app.
Qed.

Lemma C10_witness :
  decode_response ex_fence_in_payload
  = json_loads (drop_json_tag (lit "json" ++ nl ++ lit "[" ++ dq ++ lit "a")).
Proof.
  apply (@C10_text_between_fences ex_fence_in_payload
           (lit "json" ++ nl ++ lit "[" ++ dq ++ lit "a")
           (lit "b" ++ dq ++ lit "]" ++ nl ++ fence)).
  - vm_compute. reflexivity.
  - apply find_None. vm_compute. reflexivity.
  - vm_compute. discriminate.
Defined.

(** A fenced payload that holds a fence is cut at it, and no longer
    parses. *)
Example fence_in_payload_is_truncated :
  decode_response ex_fence_in_payload = Raise (JSONDecodeError UnterminatedString).
Proof. vm_compute. reflexivity. Qed.

(** With no second fence, everything after the first one is parsed. *)
Lemma unclosed_fence (raw t : pystr) :
  strip raw = fence ++ t -> ~ substring fence t ->
  decode_response raw = json_loads (drop_json_tag t).
Proof.
  intros Hs Hno. unfold decode_response.
  rewrite Hs, remove_code_block_fenced.
  now rewrite find_not_substring by assumption.
Qed.

(* ================================================================== *)
(** * Part XII: further properties of [app.py] *)
(* ================================================================== *)

(** ** What a computation changes *)

Section Frame.

Variable R : world -> world -> Prop.
Hypothesis R_refl : forall w, R w w.
Hypothesis R_trans : forall w1 w2 w3, R w1 w2 -> R w2 w3 -> R w1 w3.

Lemma keeps_ret (A : Type) (a : A) : keeps R (ret a).
Proof. intros w. apply R_refl. Qed.

Lemma keeps_lift (A : Type) (r : res A) : keeps R (lift r).
Proof. intros w. apply R_refl. Qed.

Lemma keeps_bind (A B : Type) (m : M A) (k : A -> M B) :
  keeps R m -> (forall a, keeps R (k a)) -> keeps R (bindM m k).
Proof.
  intros Hm Hk w. unfold bindM. specialize (Hm w).
  destruct (m w) as [[a| e |] w']; cbn [snd] in *; auto.
  eapply R_trans; [exact Hm | apply Hk].
Qed.

Lemma keeps_for_enumerate (body : nat -> pyval -> M unit) :
  (forall i x, keeps R (body i x)) ->
  forall l i, keeps R (for_enumerate body i l).
Proof.
  intros Hb l. induction l as [|x l IH]; intros i; cbn [for_enumerate].
  - apply keeps_ret.
  - apply keeps_bind; auto.
Qed.

End Frame.

Arguments keeps_ret {R} R_refl [A] a.
Arguments keeps_lift {R} R_refl [A] r.
Arguments keeps_bind {R} R_trans [A B m k].
Arguments keeps_for_enumerate {R} R_refl R_trans [body].

Lemma no_call_refl (w : world) : no_call w w.
Proof. exists []. now rewrite app_nil_r. Qed.

Lemma no_call_trans (w1 w2 w3 : world) :
  no_call w1 w2 -> no_call w2 w3 -> no_call w1 w3.
Proof.
  intros (e1 & E1 & C1) (e2 & E2 & C2). exists (e1 ++ e2).
  rewrite E2, E1, <- app_assoc, provider_calls_app, C1, C2. auto.
Qed.

Lemma same_files_refl (w : world) : same_files w w.
Proof. reflexivity. Qed.

Lemma same_files_trans (w1 w2 w3 : world) :
  same_files w1 w2 -> same_files w2 w3 -> same_files w1 w3.
Proof. unfold same_files. congruence. Qed.

Lemma same_files_but_refl (paths : list pystr) (w : world) :
  same_files_but paths w w.
Proof. intros p _. reflexivity. Qed.

Lemma same_files_but_trans (paths : list pystr) (w1 w2 w3 : world) :
  same_files_but paths w1 w2 -> same_files_but paths w2 w3 ->
  same_files_but paths w1 w3.
Proof. intros H1 H2 p Hp. now rewrite H2, H1. Qed.

Lemma same_files_weaken (paths : list pystr) (w w' : world) :
  same_files w w' -> same_files_but paths w w'.
Proof. intros H p _. now rewrite H. Qed.

(** Each step of the program, one relation at a time. *)

Lemma st_no_call (fn : string) (args : list pyval) (kwargs : list (string * pyval)) :
  keeps no_call (st fn args kwargs).
Proof. intros w. eexists. split; reflexivity. Qed.

Lemma st_same_files (fn : string) (args : list pyval) (kwargs : list (string * pyval)) :
  keeps same_files (st fn args kwargs).
Proof. intros w. reflexivity. Qed.

Lemma read_file_same_world (path : pystr) (w : world) :
  snd (read_file path w) = w.
Proof. unfold read_file. now destruct (fs_lookup (fs w) path) as [[|c]|]. Qed.

Lemma read_file_no_call (path : pystr) : keeps no_call (read_file path).
Proof. intros w. rewrite read_file_same_world. apply no_call_refl. Qed.

Lemma read_file_same_files (path : pystr) : keeps same_files (read_file path).
Proof. intros w. now rewrite read_file_same_world. Qed.

Lemma path_exists_no_call (path : pystr) : keeps no_call (path_exists path).
Proof. intros w. apply no_call_refl. Qed.

Lemma makedirs_no_call (path : pystr) : keeps no_call (makedirs path).
Proof. intros w. exists []. cbn. now rewrite app_nil_r. Qed.

Lemma write_file_no_call (path content : pystr) :
  keeps no_call (write_file path content).
Proof. intros w. exists []. cbn. now rewrite app_nil_r. Qed.

Lemma fs_lookup_other (p q : pystr) (n : fsnode) (files : list (pystr * fsnode)) :
  p <> q -> fs_lookup ((q, n) :: files) p = fs_lookup files p.
Proof.
  intros Hne. cbn [fs_lookup].
  destruct (pystr_eqb q p) eqn:E; [|reflexivity].
  apply pystr_eqb_eq in E. congruence.
Qed.

Lemma makedirs_same_files_but (paths : list pystr) (path : pystr) :
  In path paths -> keeps (same_files_but paths) (makedirs path).
Proof.
  intros Hin w p Hp. cbn [makedirs snd fs]. apply fs_lookup_other.
  intros ->. contradiction.
Qed.

Lemma write_file_same_files_but (paths : list pystr) (path content : pystr) :
  In path paths -> keeps (same_files_but paths) (write_file path content).
Proof.
  intros Hin w p Hp. cbn [write_file snd fs]. apply fs_lookup_other.
  intros ->. contradiction.
Qed.

Lemma keeps_same_files_but (paths : list pystr) (A : Type) (m : M A) :
  keeps same_files m -> keeps (same_files_but paths) m.
Proof. intros H w. apply same_files_weaken, H. Qed.

Lemma st_same_files_but (paths : list pystr) (fn : string) (args : list pyval)
      (kwargs : list (string * pyval)) :
  keeps (same_files_but paths) (st fn args kwargs).
Proof. apply keeps_same_files_but, st_same_files. Qed.

Lemma read_file_same_files_but (paths : list pystr) (path : pystr) :
  keeps (same_files_but paths) (read_file path).
Proof. apply keeps_same_files_but, read_file_same_files. Qed.

Create HintDb frame.

#[local] Hint Resolve st_no_call read_file_no_call path_exists_no_call
  makedirs_no_call write_file_no_call st_same_files read_file_same_files
  st_same_files_but read_file_same_files_but
  : frame.

Ltac frame refl trans :=
  repeat first
    [ solve [auto with frame nocore]
    | apply (keeps_ret refl)
    | apply (keeps_lift refl)
    | apply (keeps_for_enumerate refl trans); intros
    | match goal with
      | |- keeps _ (if ?b then _ else _) => destruct b
      | |- keeps _ (let '(_, _) := ?p in _) => destruct p
      end
    | apply (keeps_bind trans); [|intros] ].

Ltac frame_no_call := frame no_call_refl no_call_trans.
Ltac frame_same_files := frame same_files_refl same_files_trans.
Ltac frame_same_files_but :=
  match goal with
  | |- keeps (same_files_but ?paths) _ =>
      frame (@same_files_but_refl paths) (@same_files_but_trans paths)
  end.

Section Effects.

Variable ext : externals.

Lemma show_card_no_call (i : nat) (card : pyval) :
  keeps no_call (show_card ext i card).
Proof. unfold show_card. frame_no_call. Qed.

Lemma show_card_same_files (i : nat) (card : pyval) :
  keeps same_files (show_card ext i card).
Proof. unfold show_card. frame_same_files. Qed.

Lemma save_flashcards_no_call (flashcards : pyval) (filename : pystr) :
  keeps no_call (save_flashcards ext flashcards filename).
Proof. unfold save_flashcards. frame_no_call. Qed.

Lemma show_card_same_files_but (paths : list pystr) (i : nat) (card : pyval) :
  keeps (same_files_but paths) (show_card ext i card).
Proof. apply keeps_same_files_but, show_card_same_files. Qed.

Lemma save_flashcards_same_files_but (flashcards : pyval) (filename : pystr) :
  keeps (same_files_but (export_paths filename))
        (save_flashcards ext flashcards filename).
Proof.
  assert (H1 : In (lit "flashcards") (export_paths filename)) by now left.
  assert (H2 : In (csv_path_of filename) (export_paths filename))
    by (right; now left).
  assert (H3 : In (json_path_of filename) (export_paths filename))
    by (right; right; now left).
  pose proof (makedirs_same_files_but _ _ H1) as M1.
  pose proof (fun c => write_file_same_files_but _ _ c H2) as M2.
  pose proof (fun c => write_file_same_files_but _ _ c H3) as M3.
  unfold save_flashcards.
  apply (keeps_bind (@same_files_but_trans _));
    [intros w; apply same_files_but_refl | intros there].
  apply (keeps_bind (@same_files_but_trans _));
    [destruct (negb there); [exact M1 | apply (keeps_ret (@same_files_but_refl _))]
    | intros _].
  apply (keeps_bind (@same_files_but_trans _));
    [apply (keeps_lift (@same_files_but_refl _)) | intros csv].
  apply (keeps_bind (@same_files_but_trans _)); [apply M2 | intros _].
  apply (keeps_bind (@same_files_but_trans _)); [apply M3 | intros _].
  apply (keeps_ret (@same_files_but_refl _)).
Qed.

#[local] Hint Resolve show_card_no_call show_card_same_files
  save_flashcards_no_call show_card_same_files_but : frame.

Lemma show_and_save_no_call (flashcards : pyval) (timestamp : pystr) :
  keeps no_call (show_and_save ext flashcards timestamp).
Proof. unfold show_and_save. frame_no_call. Qed.

Lemma show_and_save_same_files_but (flashcards : pyval) (timestamp : pystr) :
  keeps (same_files_but (export_paths (filename_of timestamp)))
        (show_and_save ext flashcards timestamp).
Proof.
  pose proof (@save_flashcards_same_files_but flashcards (filename_of timestamp))
    as Hsave.
  unfold show_and_save. fold (filename_of timestamp). frame_same_files_but.
Qed.

Lemma if_flashcards_no_call (flashcards : option pyval) (timestamp : pystr) :
  keeps no_call (if_flashcards ext flashcards timestamp).
Proof.
  pose proof show_and_save_no_call.
  unfold if_flashcards. destruct flashcards as [v|]; frame_no_call.
Qed.

Lemma if_flashcards_same_files_but (flashcards : option pyval)
      (timestamp : pystr) :
  keeps (same_files_but (export_paths (filename_of timestamp)))
        (if_flashcards ext flashcards timestamp).
Proof.
  pose proof show_and_save_same_files_but.
  unfold if_flashcards. destruct flashcards as [v|]; frame_same_files_but.
Qed.

End Effects.

(** ** The outcome of [generate_flashcards] *)

Lemma generate_flashcards_outcome (ext : externals) (text : pystr)
      (num_cards : Z) (w : world) :
  exists flashcards report,
    generate_flashcards ext text num_cards w
    = (Ok flashcards,
       World (events w ++ GenerateContent (build_prompt text num_cards) :: report)
             (fs w)) /\
    match flashcards with
    | Some v =>
        report = [] /\
        exists raw,
          model_reply ext (build_prompt text num_cards) = Text raw /\
          decode_response raw = Ok v
    | None =>
        exists prefix e, report = [StError prefix e]
    end.
Proof.
  destruct (model_reply ext (build_prompt text num_cards)) as [raw|what] eqn:Hr.
  - destruct (decode_response raw) as [v|e|] eqn:Hd.
    + exists (Some v), []. split; [|eauto].
      now apply generate_flashcards_decoded with (raw := raw).
    + destruct (decode_response_raises raw Hd) as [msg ->].
      exists None. eexists. split; [|eauto].
      rewrite (generate_flashcards_failed ext text num_cards w Hr Hd).
      reflexivity.
    + now apply decode_response_total in Hd.
  - exists None. eexists. split; [|eauto].
    rewrite (generate_flashcards_provider_failed ext text num_cards w Hr).
    reflexivity.
Qed.

(** X1.  [generate_flashcards] never raises and never fails to return,
    whatever the provider does: it calls the provider once, and either
    returns the decoded value without a message, or returns [None] after
    exactly one [st.error].  The files are left as they are. *)
Theorem X1_generate_flashcards_never_raises (ext : externals) (text : pystr)
        (num_cards : Z) (w : world) :
  exists flashcards report,
    generate_flashcards ext text num_cards w
    = (Ok flashcards,
       World (events w ++ GenerateContent (build_prompt text num_cards) :: report)
             (fs w)) /\
    match flashcards with
    | Some v =>
        report = [] /\
        exists raw,
          model_reply ext (build_prompt text num_cards) = Text raw /\
          decode_response raw = Ok v
    | None =>
        exists prefix e, report = [StError prefix e]
    end.
Proof. apply generate_flashcards_outcome. Qed.

(** ** The calls to the provider *)

Lemma on_generate_calls (ext : externals) (text : pystr) (n : Z) (ts : pystr)
      (w : world) :
  exists es,
    events (snd (on_generate ext text n ts w)) = events w ++ es /\
    provider_calls es = if 50 <=? length text then 1 else 0.
Proof.
  destruct (Nat.leb_spec 50 (length text)) as [Hlen|Hlen].
  - rewrite on_generate_long by assumption.
    destruct (generate_flashcards_outcome ext text n
                (World (events w ++ [spinner_event]) (fs w)))
      as (flashcards & report & -> & Hrep).
    destruct (if_flashcards_no_call ext flashcards ts
                (World
                   (events (World (events w ++ [spinner_event]) (fs w))
                    ++ GenerateContent (build_prompt text n) :: report)
                   (fs (World (events w ++ [spinner_event]) (fs w)))))
      as (es & E & C).
    exists (spinner_event :: GenerateContent (build_prompt text n) :: report ++ es).
    split.
    + rewrite E. cbn [events]. rewrite <- !app_assoc. reflexivity.
    + cbn [provider_calls spinner_event]. rewrite provider_calls_app, C.
      assert (provider_calls report = 0) as ->; [|reflexivity].
      destruct flashcards as [v|].
      * now destruct Hrep as [-> _].
      * now destruct Hrep as (prefix & e & ->).
  - rewrite on_generate_short by assumption.
    exists [warning_event]. split; reflexivity.
Qed.

(** X2.  A run of [main] calls the provider exactly once when the Generate
    button is pressed and the text in use has at least 50 characters, and
    not at all otherwise, however the run ends. *)
Theorem X2_one_provider_call_per_submission (ext : externals) (inp : inputs)
        (w : world) :
  exists es,
    events (snd (main ext inp w)) = events w ++ es /\
    provider_calls es
    = if in_button inp && (50 <=? length (page_text inp)) then 1 else 0.
Proof.
  rewrite main_run. destruct (in_button inp); cbn [andb].
  - destruct (on_generate_calls ext (page_text inp) (in_num_cards inp)
                (in_timestamp inp)
                (World (events w ++ page_events inp) (fs w)))
      as (es & E & C).
    exists (page_events inp ++ es). split.
    + rewrite E. cbn [events]. now rewrite <- app_assoc.
    + now rewrite provider_calls_app, page_events_no_provider_call, C.
  - exists (page_events inp). split; [reflexivity|].
    apply page_events_no_provider_call.
Qed.

(** ** The files a run writes *)

Lemma on_generate_same_files_but (ext : externals) (text : pystr) (n : Z)
      (ts : pystr) :
  keeps (same_files_but (export_paths (filename_of ts)))
        (on_generate ext text n ts).
Proof.
  intros w.
  destruct (Nat.leb_spec 50 (length text)) as [Hlen|Hlen].
  - rewrite on_generate_long by assumption.
    destruct (generate_flashcards_outcome ext text n
                (World (events w ++ [spinner_event]) (fs w)))
      as (flashcards & report & -> & _).
    eapply same_files_but_trans;
      [|apply (@if_flashcards_same_files_but ext flashcards ts)].
    intros p _. reflexivity.
  - rewrite on_generate_short by assumption. intros p _. reflexivity.
Qed.

(** X3.  A run of [main] leaves every path alone except the directory
    [flashcards] and the two files of its export,
    [flashcards/flashcards_<timestamp>.csv] and
    [flashcards/flashcards_<timestamp>.json]: whatever was stored elsewhere is
    still there afterwards, however the run ends. *)
Theorem X3_other_files_untouched (ext : externals) (inp : inputs) (w : world)
        (p : pystr) :
  p <> lit "flashcards" ->
  p <> lit "flashcards/" ++ (lit "flashcards_" ++ in_timestamp inp) ++ lit ".csv" ->
  p <> lit "flashcards/" ++ (lit "flashcards_" ++ in_timestamp inp) ++ lit ".json" ->
  fs_lookup (fs (snd (main ext inp w))) p = fs_lookup (fs w) p.
Proof.
  intros H1 H2 H3. rewrite main_run. destruct (in_button inp); [|reflexivity].
  rewrite (@on_generate_same_files_but ext (page_text inp) (in_num_cards inp)
             (in_timestamp inp) (World (events w ++ page_events inp) (fs w))).
  - reflexivity.
  - intros [E|[E|[E|[]]]]; symmetry in E; contradiction.
Qed.

Lemma X3_witness :
  fs_lookup
    (fs (snd (main (answering_with_csv ex_one_card ex_csv) (ex_inputs [] true)
                (World [] ex_disk))))
    (lit "notes.txt")
  = fs_lookup (fs (World [] ex_disk)) (lit "notes.txt").
Proof.
  apply (@X3_other_files_untouched (answering_with_csv ex_one_card ex_csv)
           (ex_inputs [] true) (World [] ex_disk) (lit "notes.txt"));
    intros E; vm_compute in E; discriminate E.
Defined.

(** ** Saving *)

Lemma export_paths_differ (filename : pystr) :
  json_path_of filename <> csv_path_of filename.
Proof.
  unfold json_path_of, csv_path_of. intros E.
  apply app_inv_head in E. apply app_inv_head in E. discriminate.
Qed.

Lemma pystr_eqb_neq (a b : pystr) : a <> b -> pystr_eqb a b = false.
Proof.
  intros H. destruct (pystr_eqb a b) eqn:E; [|reflexivity].
  apply pystr_eqb_eq in E. contradiction.
Qed.

Lemma save_flashcards_exported (ext : externals) (flashcards : pyval)
      (filename csv : pystr) (w : world) :
  dataframe_to_csv ext flashcards = Ok csv ->
  save_flashcards ext flashcards filename w
  = (Ok (csv_path_of filename, json_path_of filename),
     World (events w)
           (exported filename csv (json_dump_indent2 (float_str ext) flashcards)
                     (fs w))).
Proof. intros H. now rewrite (save_flashcards_run _ _ filename w H). Qed.

Lemma read_exported_json (filename csv json : pystr) (evs : list event)
      (files : list (pystr * fsnode)) :
  read_file (json_path_of filename) (World evs (exported filename csv json files))
  = (Ok json, World evs (exported filename csv json files)).
Proof. apply read_file_head. Qed.

Lemma read_exported_csv (filename csv json : pystr) (evs : list event)
      (files : list (pystr * fsnode)) :
  read_file (csv_path_of filename) (World evs (exported filename csv json files))
  = (Ok csv, World evs (exported filename csv json files)).
Proof.
  unfold read_file, exported. cbn [fs fs_lookup].
  rewrite (pystr_eqb_neq (@export_paths_differ filename)).
  now rewrite pystr_eqb_refl.
Qed.

Lemma fs_lookup_head (p : pystr) (n : fsnode) (files : list (pystr * fsnode)) :
  fs_lookup ((p, n) :: files) p = Some n.
Proof. cbn [fs_lookup]. now rewrite pystr_eqb_refl. Qed.

(** X4.  On a disk where [flashcards] is missing or is a directory, and
    where neither path of the export is a directory, whenever
    [save_flashcards] returns, the two paths it returns are different,
    [flashcards] is a directory, and each path holds what was written to
    it, the CSV text and the text of [json.dump], whatever files the two
    paths held before. *)
Theorem X4_saved_files_hold_the_export (ext : externals) (flashcards : pyval)
        (filename : pystr) (w w' : world) (csv_path json_path : pystr) :
  writable filename (fs w) ->
  save_flashcards ext flashcards filename w = (Ok (csv_path, json_path), w') ->
  csv_path <> json_path /\
  fs_lookup (fs w') (lit "flashcards") = Some Directory /\
  (exists csv,
     dataframe_to_csv ext flashcards = Ok csv /\
     fs_lookup (fs w') csv_path = Some (File csv)) /\
  fs_lookup (fs w') json_path
  = Some (File (json_dump_indent2 (float_str ext) flashcards)).
Proof.
  intros Hw H.
  destruct (dataframe_to_csv ext flashcards) as [csv|e|] eqn:Hcsv.
  - rewrite (save_flashcards_exported ext flashcards filename w Hcsv) in H.
    injection H as <- <- <-.
    split; [intros E; now apply (@export_paths_differ filename)|].
    unfold exported. cbn [fs]. split; [|split].
    + rewrite !fs_lookup_other
        by (unfold json_path_of, csv_path_of; intros E; discriminate E).
      destruct Hw as ([E|E] & _ & _); rewrite E.
      * apply fs_lookup_head.
      * exact E.
    + exists csv. split; [reflexivity|].
      rewrite fs_lookup_other
        by (intros E; now apply (@export_paths_differ filename)).
      apply fs_lookup_head.
    + apply fs_lookup_head.
  - exfalso. revert H.
    cbv [save_flashcards bindM path_exists makedirs write_file lift ret].
    rewrite Hcsv. now destruct (fs_lookup (fs w) (lit "flashcards")).
  - exfalso. revert H.
    cbv [save_flashcards bindM path_exists makedirs write_file lift ret].
    rewrite Hcsv. now destruct (fs_lookup (fs w) (lit "flashcards")).
Qed.

Lemma X4_witness :
  lit "flashcards/x.csv" <> lit "flashcards/x.json" /\
  fs_lookup (fs (snd (save_flashcards (answering []) (flashcards_value ex_cards)
                        (lit "x") (World [] ex_disk))))
            (lit "flashcards") = Some Directory /\
  (exists csv,
     dataframe_to_csv (answering []) (flashcards_value ex_cards) = Ok csv /\
     fs_lookup (fs (snd (save_flashcards (answering [])
                           (flashcards_value ex_cards) (lit "x")
                           (World [] ex_disk))))
               (lit "flashcards/x.csv") = Some (File csv)) /\
  fs_lookup (fs (snd (save_flashcards (answering []) (flashcards_value ex_cards)
                        (lit "x") (World [] ex_disk))))
            (lit "flashcards/x.json")
  = Some (File (json_dump_indent2 (float_str (answering []))
                  (flashcards_value ex_cards))).
Proof.
  apply (@X4_saved_files_hold_the_export (answering [])
           (flashcards_value ex_cards) (lit "x") (World [] ex_disk)).
  - split; [left; reflexivity | split; discriminate].
  - vm_compute. reflexivity.
Defined.

(** X5.  When the CSV export raises, [save_flashcards] raises the same
    exception and the JSON export is never written: the JSON path holds
    what it held before. *)
Theorem X5_csv_failure_loses_json (ext : externals) (flashcards : pyval)
        (filename : pystr) (w : world) (e : pyexn) :
  dataframe_to_csv ext flashcards = Raise e ->
  exists w',
    save_flashcards ext flashcards filename w = (Raise e, w') /\
    fs_lookup (fs w') (lit "flashcards/" ++ filename ++ lit ".json")
    = fs_lookup (fs w) (lit "flashcards/" ++ filename ++ lit ".json").
Proof.
  intros Hcsv.
  cbv [save_flashcards bindM path_exists makedirs write_file lift ret].
  rewrite Hcsv.
  destruct (fs_lookup (fs w) (lit "flashcards")); cbn [negb];
    eexists; (split; [reflexivity|]); cbn [fs];
    try reflexivity; apply fs_lookup_other; discriminate.
Qed.

Lemma X5_witness :
  exists w',
    save_flashcards
      (Externals (fun _ => Text []) (fun l => l) (fun _ => true) (fun _ => [])
                 (fun _ => Raise TypeError))
      (PyList [PyInt 1]) (lit "x") (World [] []) = (Raise TypeError, w') /\
    fs_lookup (fs w') (lit "flashcards/" ++ lit "x" ++ lit ".json")
    = fs_lookup (fs (World [] [])) (lit "flashcards/" ++ lit "x" ++ lit ".json").
Proof.
  apply (@X5_csv_failure_loses_json
           (Externals (fun _ => Text []) (fun l => l) (fun _ => true)
                      (fun _ => []) (fun _ => Raise TypeError))
           (PyList [PyInt 1]) (lit "x") (World [] []) TypeError).
  reflexivity.
Defined.

(** ** The display loop *)

Lemma py_getitem_cases (v : pyval) (key : pystr) :
  (exists x, py_getitem v key = Ok x) \/
  py_getitem v key = Raise KeyError \/ py_getitem v key = Raise TypeError.
Proof.
  destruct v; cbn [py_getitem]; auto.
  destruct (dict_get d key); eauto.
Qed.

Lemma py_slice_to_cases (n : nat) (v : pyval) :
  (exists x, py_slice_to n v = Ok x) \/ py_slice_to n v = Raise TypeError.
Proof. destruct v; cbn [py_slice_to]; eauto. Qed.

Section Display.

Variable ext : externals.

(** One round of the loop either shows the card, or raises [KeyError] or
    [TypeError]; it raises whenever the card lacks a field. *)
Lemma show_card_cases (i : nat) (card : pyval) (w : world) :
  (exists w', show_card ext i card w = (Ok tt, w') /\ lacks_field card = false) \/
  (exists e w',
     show_card ext i card w = (Raise e, w') /\ (e = KeyError \/ e = TypeError)).
Proof.
  unfold show_card, lacks_field.
  destruct (py_getitem_cases card (lit "question")) as [[q Hq]|[Hq|Hq]];
    rewrite Hq; cbv [bindM lift]; [|right; eauto..].
  destruct (py_slice_to_cases 60 q) as [[h Hh]|Hh]; rewrite Hh;
    [|right; eauto].
  cbv [st emit].
  destruct (py_getitem_cases card (lit "answer")) as [[a Ha]|[Ha|Ha]];
    rewrite Ha; [left|right..]; eauto.
Qed.

Lemma display_loop_raises (cards : list pyval) :
  existsb lacks_field cards = true ->
  forall i w,
    exists e w',
      for_enumerate (show_card ext) i cards w = (Raise e, w') /\
      (e = KeyError \/ e = TypeError).
Proof.
  induction cards as [|card cards IH]; intros Hbad i w; [discriminate|].
  cbn [existsb] in Hbad. cbn [for_enumerate]. unfold bindM.
  destruct (show_card_cases i card w) as [(w' & -> & Hok)|(e & w' & -> & He)].
  - rewrite Hok in Hbad. apply (IH Hbad).
  - eauto.
Qed.

(** The loop over the records of well-formed responses. *)
Lemma display_loop_cards (cards : list flashcard) :
  forall i w,
    for_enumerate (show_card ext) i (map card_value cards) w
    = (Ok tt, World (events w ++ cards_events i cards) (fs w)).
Proof.
  induction cards as [|c cards IH]; intros i w.
  - cbn. rewrite app_nil_r. now destruct w.
  - cbn [map for_enumerate cards_events]. unfold bindM at 1.
    assert (Hc : show_card ext i (card_value c) w
                 = (Ok tt, World (events w ++ card_events i c) (fs w))).
    { unfold show_card, card_value.
      cbv [bindM lift st emit ret py_slice_to py_format map fst snd].
      replace (py_getitem
                 (PyDict [(lit "question", PyStr (question c));
                          (lit "answer", PyStr (answer c))]) (lit "question"))
        with (Ok (PyStr (question c))) by reflexivity.
      replace (py_getitem
                 (PyDict [(lit "question", PyStr (question c));
                          (lit "answer", PyStr (answer c))]) (lit "answer"))
        with (Ok (PyStr (answer c))) by reflexivity.
      cbn [events fs]. unfold card_events.
      repeat (rewrite <- app_assoc; cbn [app]). reflexivity. }
    rewrite Hc, IH. cbn [events fs]. now rewrite <- app_assoc.
Qed.

End Display.

(** ** Runs that reach the display *)

Lemma show_and_save_bad_list (ext : externals) (cards : list pyval)
      (ts : pystr) (w : world) :
  existsb lacks_field cards = true ->
  exists e w',
    show_and_save ext (PyList cards) ts w = (Raise e, w') /\
    (e = KeyError \/ e = TypeError) /\ fs w' = fs w.
Proof.
  intros Hbad. unfold show_and_save.
  cbv [bindM lift py_len py_iter st emit].
  match goal with
  | |- context [for_enumerate _ _ _ ?w0] =>
      destruct (display_loop_raises ext cards Hbad 1 w0) as (e & w' & E & He);
      pose proof (keeps_for_enumerate same_files_refl same_files_trans
                    (show_card_same_files ext) cards 1 w0) as Hfs;
      rewrite E in *
  end.
  exists e, w'. repeat split; auto.
Qed.

Lemma truthy_list (float_bool : pystr -> bool) (cards : list pyval) :
  cards <> [] -> truthy float_bool (PyList cards) = true.
Proof. now destruct cards. Qed.

(** X6.  When the response decodes to a list with an element that is not
    an object holding both [question] and [answer], the run of [main] ends
    with an uncaught [KeyError] or [TypeError], raised by the display loop,
    and no file is written. *)
Theorem X6_incomplete_card_aborts_the_run (ext : externals) (inp : inputs)
        (w : world) (raw : pystr) (cards : list pyval) :
  in_button inp = true ->
  50 <= length (page_text inp) ->
  model_reply ext (build_prompt (page_text inp) (in_num_cards inp)) = Text raw ->
  decode_response raw = Ok (PyList cards) ->
  existsb lacks_field cards = true ->
  exists e w',
    main ext inp w = (Raise e, w') /\
    (e = KeyError \/ e = TypeError) /\ fs w' = fs w.
Proof.
  intros Hb Hlen Hr Hd Hbad.
  rewrite (@main_after_generate ext inp w (Some (PyList cards))
             [GenerateContent (build_prompt (page_text inp) (in_num_cards inp))])
    by (auto; intros w0; now apply generate_flashcards_decoded with (raw := raw)).
  unfold if_flashcards. rewrite truthy_list by (intros ->; discriminate).
  destruct (show_and_save_bad_list ext cards (in_timestamp inp)
              (World (events w ++ page_events inp
                      ++ spinner_event
                         :: [GenerateContent
                               (build_prompt (page_text inp) (in_num_cards inp))])
                     (fs w)) Hbad)
    as (e & w' & E & He & Hfs).
  exists e, w'. auto.
Qed.

Lemma X6_witness :
  exists e w',
    main (answering ex_missing_answer) (ex_inputs [] true) (World [] [])
    = (Raise e, w') /\
    (e = KeyError \/ e = TypeError) /\ fs w' = fs (World [] []).
Proof.
  apply (@X6_incomplete_card_aborts_the_run (answering ex_missing_answer)
           (ex_inputs [] true) (World [] []) ex_missing_answer
           [PyDict [(lit "question", PyStr (lit "Q"))]]).
  - reflexivity.
  - vm_compute. repeat constructor.
  - reflexivity.
  - vm_compute. reflexivity.
  - reflexivity.
Defined.

Lemma show_and_save_not_a_list (ext : externals) (v : pyval) (ts : pystr)
      (w : world) :
  (forall l, v <> PyList l) ->
  truthy (float_bool ext) v = true ->
  exists w', show_and_save ext v ts w = (Raise TypeError, w') /\ fs w' = fs w.
Proof.
  intros Hv Ht. unfold show_and_save.
  destruct v as [|b|z|f|s|l|d]; cbn [truthy] in Ht;
    try (eexists; split; reflexivity).
  - destruct s as [|c s]; [discriminate|].
    eexists; split; reflexivity.
  - now destruct (Hv l).
  - destruct d as [|[k x] d]; [discriminate|].
    eexists; split; reflexivity.
Qed.

(** X7.  When the response decodes to a value that is not a list and is
    not falsy (a non-empty object or string, a non-zero number, [true]),
    the run of [main] ends with an uncaught [TypeError] and no file is
    written. *)
Theorem X7_non_list_value_aborts_the_run (ext : externals) (inp : inputs)
        (w : world) (raw : pystr) (v : pyval) :
  in_button inp = true ->
  50 <= length (page_text inp) ->
  model_reply ext (build_prompt (page_text inp) (in_num_cards inp)) = Text raw ->
  decode_response raw = Ok v ->
  (forall l, v <> PyList l) ->
  truthy (float_bool ext) v = true ->
  exists w', main ext inp w = (Raise TypeError, w') /\ fs w' = fs w.
Proof.
  intros Hb Hlen Hr Hd Hv Ht.
  rewrite (@main_after_generate ext inp w (Some v)
             [GenerateContent (build_prompt (page_text inp) (in_num_cards inp))])
    by (auto; intros w0; now apply generate_flashcards_decoded with (raw := raw)).
  unfold if_flashcards. rewrite Ht.
  destruct (show_and_save_not_a_list ext (in_timestamp inp)
              (World (events w ++ page_events inp
                      ++ spinner_event
                         :: [GenerateContent
                               (build_prompt (page_text inp) (in_num_cards inp))])
                     (fs w)) Hv Ht)
    as (w' & E & Hfs).
  exists w'. auto.
Qed.

Lemma X7_witness :
  exists w',
    main (answering ex_object) (ex_inputs [] true) (World [] [])
    = (Raise TypeError, w') /\ fs w' = fs (World [] []).
Proof.
  apply (@X7_non_list_value_aborts_the_run (answering ex_object)
           (ex_inputs [] true) (World [] []) ex_object ex_object_value).
  - reflexivity.
  - vm_compute. repeat constructor.
  - reflexivity.
  - vm_compute. reflexivity.
  - discriminate.
  - reflexivity.
Defined.

(** X8.  When the response decodes to a falsy value ([null], [false], a
    zero, an empty string, list or object), the run of [main] ends after
    the call to the provider without a message of any kind: nothing is
    displayed, no error is reported and no file is written. *)
Theorem X8_falsy_value_shows_nothing (ext : externals) (inp : inputs)
        (w : world) (raw : pystr) (v : pyval) :
  in_button inp = true ->
  50 <= length (page_text inp) ->
  model_reply ext (build_prompt (page_text inp) (in_num_cards inp)) = Text raw ->
  decode_response raw = Ok v ->
  truthy (float_bool ext) v = false ->
  main ext inp w
  = (Ok tt,
     World (events w ++ page_events inp
            ++ [spinner_event;
                GenerateContent (build_prompt (page_text inp) (in_num_cards inp))])
           (fs w)).
Proof.
  intros Hb Hlen Hr Hd Ht.
  rewrite (@main_after_generate ext inp w (Some v)
             [GenerateContent (build_prompt (page_text inp) (in_num_cards inp))])
    by (auto; intros w0; now apply generate_flashcards_decoded with (raw := raw)).
  unfold if_flashcards. now rewrite Ht.
Qed.

Lemma X8_witness :
  main (answering (lit "null")) (ex_inputs [] true) (World [] [])
  = (Ok tt,
     World ([] ++ page_events (ex_inputs [] true)
            ++ [spinner_event;
                GenerateContent (build_prompt (page_text (ex_inputs [] true))
                                              (in_num_cards (ex_inputs [] true)))])
           []).
Proof.
  apply (@X8_falsy_value_shows_nothing (answering (lit "null"))
           (ex_inputs [] true) (World [] []) (lit "null") PyNone).
  - reflexivity.
  - vm_compute. repeat constructor.
  - reflexivity.
  - vm_compute. reflexivity.
  - reflexivity.
Defined.

(** ** The successful run *)

Lemma show_and_save_cards (ext : externals) (cards : list flashcard)
      (ts csv : pystr) (w : world) :
  dataframe_to_csv ext (flashcards_value cards) = Ok csv ->
  show_and_save ext (flashcards_value cards) ts w
  = (Ok tt,
     World (events w ++ display_events cards
            ++ download_events (filename_of ts) csv
                 (json_dump_indent2 (float_str ext) (flashcards_value cards)))
           (exported (filename_of ts) csv
              (json_dump_indent2 (float_str ext) (flashcards_value cards))
              (fs w))).
Proof.
  intros Hcsv. unfold show_and_save, flashcards_value.
  cbn [py_len py_iter]. rewrite length_map.
  fold (flashcards_value cards). fold (filename_of ts).
  set (json := json_dump_indent2 (float_str ext) (flashcards_value cards)).
  unfold bindM at 1. cbn [lift].
  unfold bindM at 1. cbv [st emit].
  unfold bindM at 1.
  unfold bindM at 1. cbn [lift].
  unfold bindM at 1. rewrite display_loop_cards.
  unfold bindM at 1.
  rewrite (save_flashcards_exported ext (flashcards_value cards)
             (filename_of ts) _ Hcsv).
  fold json. cbn [events fs].
  unfold bindM at 1. unfold bindM at 1. unfold bindM at 1. cbn [events fs].
  rewrite read_exported_csv.
  unfold bindM at 1. unfold bindM at 1. cbn [events fs].
  rewrite read_exported_json. cbv [bindM]. cbn [events fs].
  unfold display_events, download_events. cbn [map fst snd].
  repeat (rewrite <- app_assoc; cbn [app]). reflexivity.
Qed.

Lemma truthy_cards (float_bool : pystr -> bool) (cards : list flashcard) :
  cards <> [] -> truthy float_bool (flashcards_value cards) = true.
Proof. destruct cards; [congruence | reflexivity]. Qed.

(** X9.  A run that succeeds end to end.  On a disk the export can be
    written to ([flashcards] missing or a directory, neither path of the
    export a directory), when the button is pressed, the
    text has at least 50 characters, the response decodes to a non-empty
    list of question and answer records and the CSV writer returns a text
    (of ASCII characters without carriage returns, which reading the file
    gives back unchanged), [main] returns normally and adds to the page, in
    this order: the spinner, then the success message with the number of
    cards, then one expander per card, numbered from 1 in the order of the
    response and titled with the first 60 characters of its question, then
    the two download buttons, which carry the CSV text and the text of
    [json.dump]; the two texts are also what the two files hold. *)
Theorem X9_successful_run (ext : externals) (inp : inputs) (w : world)
        (raw : pystr) (cards : list flashcard) (csv : pystr) :
  writable (filename_of (in_timestamp inp)) (fs w) ->
  in_button inp = true ->
  50 <= length (page_text inp) ->
  model_reply ext (build_prompt (page_text inp) (in_num_cards inp)) = Text raw ->
  decode_response raw = Ok (flashcards_value cards) ->
  cards <> [] ->
  dataframe_to_csv ext (flashcards_value cards) = Ok csv ->
  reads_back csv ->
  main ext inp w
  = (Ok tt,
     World (events w ++ page_events inp
            ++ [spinner_event;
                GenerateContent (build_prompt (page_text inp) (in_num_cards inp))]
            ++ display_events cards
            ++ download_events (filename_of (in_timestamp inp)) csv
                 (json_dump_indent2 (float_str ext) (flashcards_value cards)))
           (exported (filename_of (in_timestamp inp)) csv
              (json_dump_indent2 (float_str ext) (flashcards_value cards))
              (fs w))).
Proof.
  intros _ Hb Hlen Hr Hd Hne Hcsv _.
  rewrite (@main_after_generate ext inp w (Some (flashcards_value cards))
             [GenerateContent (build_prompt (page_text inp) (in_num_cards inp))])
    by (auto; intros w0; now apply generate_flashcards_decoded with (raw := raw)).
  unfold if_flashcards.
  rewrite truthy_cards by assumption.
  rewrite (show_and_save_cards ext cards (in_timestamp inp) _ Hcsv).
  cbn [events fs]. rewrite <- !app_assoc. reflexivity.
Qed.

Lemma X9_witness :
  main (answering_with_csv ex_one_card ex_csv) (ex_inputs [] true)
       (World [] ex_disk)
  = (Ok tt,
     World ([] ++ page_events (ex_inputs [] true)
            ++ [spinner_event;
                GenerateContent (build_prompt (page_text (ex_inputs [] true))
                                              (in_num_cards (ex_inputs [] true)))]
            ++ display_events [Flashcard (lit "Q") (lit "A")]
            ++ download_events (filename_of (in_timestamp (ex_inputs [] true)))
                 ex_csv
                 (json_dump_indent2
                    (float_str (answering_with_csv ex_one_card ex_csv))
                    (flashcards_value [Flashcard (lit "Q") (lit "A")])))
           (exported (filename_of (in_timestamp (ex_inputs [] true))) ex_csv
              (json_dump_indent2
                 (float_str (answering_with_csv ex_one_card ex_csv))
                 (flashcards_value [Flashcard (lit "Q") (lit "A")]))
              ex_disk)).
Proof.
  apply (@X9_successful_run (answering_with_csv ex_one_card ex_csv)
           (ex_inputs [] true) (World [] ex_disk) ex_one_card
           [Flashcard (lit "Q") (lit "A")] ex_csv).
  - split; [left; reflexivity | split; intros E; vm_compute in E; discriminate E].
  - reflexivity.
  - vm_compute. repeat constructor.
  - reflexivity.
  - vm_compute. reflexivity.
  - discriminate.
  - reflexivity.
  - repeat constructor.
Defined.

(** ** The sample text *)

(** X10.  With the box [Use sample text] ticked, what was typed in the text
    area plays no part in the run: the run is the same for every typed
    text, and when the button is pressed the length check passes and
    [generate_flashcards] is called on the sample text. *)
Theorem X10_sample_text_overrides_input (ext : externals) (n : Z)
        (typed other ts : pystr) (b : bool) (w : world) :
  main ext (Inputs n typed true b ts) w = main ext (Inputs n other true b ts) w /\
  main ext (Inputs n typed true true ts) w
  = match generate_flashcards ext SAMPLE_TEXT n
            (World (events w ++ page_events (Inputs n typed true true ts)
                    ++ [spinner_event]) (fs w)) with
    | (Ok flashcards, w') => if_flashcards ext flashcards ts w'
    | (Raise e, w') => (Raise e, w')
    | (OutOfFuel, w') => (OutOfFuel, w')
    end.
Proof.
  split.
  - rewrite !main_run. reflexivity.
  - rewrite main_run. cbn [in_button page_text in_use_sample in_num_cards
                           in_timestamp].
    rewrite on_generate_long by (vm_compute; repeat constructor).
    cbn [events fs]. now rewrite <- app_assoc.
Qed.

(** ** More on [strip] *)

Lemma lstrip_all_spaces (w : pystr) : Spaces w -> lstrip w = [].
Proof. intros H. rewrite <- (app_nil_r w). now rewrite lstrip_spaces. Qed.

Lemma rstrip_spaces (s w : pystr) : Spaces w -> rstrip (s ++ w) = rstrip s.
Proof.
  intros H. unfold rstrip. rewrite rev_app_distr, lstrip_spaces; auto.
  now apply Forall_rev.
Qed.

Lemma strip_spaces_around (w1 s w2 : pystr) :
  Spaces w1 -> Spaces w2 -> strip (w1 ++ s ++ w2) = strip s.
Proof.
  intros H1 H2. unfold strip. rewrite lstrip_spaces by assumption.
  induction s as [|c s IH]; cbn [app lstrip].
  - now rewrite lstrip_all_spaces.
  - destruct (isspace c); [exact IH|].
    change (c :: s ++ w2) with ((c :: s) ++ w2). now apply rstrip_spaces.
Qed.

Lemma lstrip_app_keep (x y : pystr) :
  isspace (hd 32%N y) = false -> lstrip (x ++ y) = lstrip x ++ y.
Proof.
  intros Hy. induction x as [|c x IH]; cbn [app lstrip].
  - destruct y as [|d y]; [reflexivity|]. cbn in Hy. cbn. now rewrite Hy.
  - now destruct (isspace c).
Qed.

(** What [rstrip] leaves of a text that goes on after a character that is
    not whitespace. *)
Lemma rstrip_app_keep (a b : pystr) :
  a <> [] -> isspace (last a 0%N) = false -> rstrip (a ++ b) = a ++ rstrip b.
Proof.
  intros Hne Hl. unfold rstrip. rewrite rev_app_distr.
  rewrite lstrip_app_keep.
  - now rewrite rev_app_distr, rev_involutive.
  - destruct (exists_last Hne) as (a' & z & ->).
    rewrite last_last in Hl. rewrite rev_app_distr. exact Hl.
Qed.

(** X11.  Whitespace around the response, of any of the kinds [str.strip]
    removes, never changes what the decoder returns or raises. *)
Theorem X11_outer_whitespace_is_ignored (raw ws1 ws2 : pystr) :
  Spaces ws1 -> Spaces ws2 ->
  decode_response (ws1 ++ raw ++ ws2) = decode_response raw.
Proof.
  intros H1 H2. unfold decode_response. now rewrite strip_spaces_around.
Qed.

Lemma X11_witness :
  decode_response ([10%N; 160%N] ++ ex_fence_in_payload ++ [8232%N; 32%N])
  = decode_response ex_fence_in_payload.
Proof.
  apply (@X11_outer_whitespace_is_ignored ex_fence_in_payload
           [10%N; 160%N] [8232%N; 32%N]); repeat constructor.
Defined.

(** ** The payload *)

Lemma substring_refl (s : pystr) : substring s s.
Proof. exists [], []. now rewrite app_nil_r. Qed.

Lemma substring_trans (a b c : pystr) :
  substring a b -> substring b c -> substring a c.
Proof.
  intros (p1 & q1 & ->) (p2 & q2 & ->).
  exists (p2 ++ p1), (q1 ++ q2). now rewrite <- !app_assoc.
Qed.

Lemma substring_firstn (n : nat) (s : pystr) : substring (firstn n s) s.
Proof.
  exists [], (skipn n s). cbn [app]. symmetry. apply firstn_skipn.
Qed.

Lemma substring_skipn (n : nat) (s : pystr) : substring (skipn n s) s.
Proof.
  exists (firstn n s), []. rewrite app_nil_r. symmetry. apply firstn_skipn.
Qed.

Lemma substring_drop_json_tag (s : pystr) : substring (drop_json_tag s) s.
Proof.
  unfold drop_json_tag. destruct (startswith s (lit "json")).
  - apply substring_skipn.
  - apply substring_refl.
Qed.

Lemma remove_code_block_piece (s : pystr) :
  exists payload, remove_code_block s = Ok payload /\ substring payload s.
Proof.
  destruct (startswith s fence) eqn:E.
  - apply startswith_true in E.
    set (t := skipn (length fence) s) in *.
    rewrite E, remove_code_block_fenced.
    eexists. split; [reflexivity|].
    eapply substring_trans; [apply substring_drop_json_tag|].
    apply substring_app_r.
    destruct (find fence t); [apply substring_firstn | apply substring_refl].
  - rewrite remove_code_block_plain by assumption.
    exists s. split; [reflexivity | apply substring_refl].
Qed.

Lemma split_fenced_length (s : pystr) :
  startswith s fence = true -> 2 <= length (split fence s).
Proof.
  intros E. apply startswith_true in E. rewrite E, split_fence.
  destruct (split_head (skipn (length fence) s) fence_nonempty) as [rest ->].
  cbn. lia.
Qed.

(** X12.  Removing the code fence never raises: the index 1 into the pieces
    of [split] is always in range, because a text that begins with the
    delimiter splits into at least two pieces.  What is handed to
    [json.loads] is a piece of the response, in one block. *)
Theorem X12_fence_removal_never_raises (response_text : pystr) :
  (exists payload,
     remove_code_block response_text = Ok payload /\
     substring payload response_text) /\
  (startswith response_text fence = true ->
   2 <= length (split fence response_text)).
Proof.
  split; [apply remove_code_block_piece | apply split_fenced_length].
Qed.

(** X13.  The decoder and the grammar.  With the payload being the
    response stripped and freed of its fence: whenever the decoder returns
    a value, the payload is a JSON text of the dialect of [json.loads]
    (RFC 8259 with [NaN] and the infinities) and the value returned is the
    one the text denotes; whenever the decoder raises [JSONDecodeError],
    the payload is no text of that dialect. *)
Theorem X13_decoder_agrees_with_the_grammar (raw : pystr) :
  exists payload,
    remove_code_block (strip raw) = Ok payload /\
    (forall v, decode_response raw = Ok v -> JsonText payload v) /\
    (forall msg,
       decode_response raw = Raise (JSONDecodeError msg) ->
       forall v, ~ JsonText payload v).
Proof.
  destruct (remove_code_block_total (strip raw)) as [payload Hp].
  exists payload. split; [assumption|].
  rewrite (decode_response_payload _ Hp). split.
  - intros v. apply json_loads_sound.
  - intros msg E v Hv. apply json_loads_complete in Hv. congruence.
Qed.

(** ** Fenced responses that decode *)

Lemma not_substring_prefix (x a b : pystr) :
  ~ substring x (a ++ b) -> ~ substring x a.
Proof.
  intros H (pre & post & ->). apply H. exists pre, (post ++ b).
  now rewrite <- !app_assoc.
Qed.

Lemma JsonText_no_tag (t : pystr) (v : pyval) :
  JsonText t v -> drop_json_tag t = t.
Proof.
  intros H. destruct (JsonText_edges H)
    as (w1 & c & w2 & -> & H1 & H2 & Hc & Hne & Hh & Hl).
  unfold drop_json_tag.
  replace (startswith (w1 ++ c ++ w2) (lit "json")) with false; [reflexivity|].
  symmetry. destruct H1 as [|x w1 Hx _].
  - destruct c as [|h c]; [congruence|]. cbn in Hh |- *.
    destruct (N.eqb_spec h 106) as [->|]; [discriminate | reflexivity].
  - cbn. destruct (N.eqb_spec x 106) as [->|]; [discriminate | reflexivity].
Qed.

Lemma drop_json_tag_tagged (t : pystr) : drop_json_tag (lit "json" ++ t) = t.
Proof. reflexivity. Qed.

Lemma no_fence_after_tag (tag t : pystr) :
  tag = [] \/ tag = lit "json" ->
  ~ substring fence t -> find fence (tag ++ t) = None.
Proof.
  intros [->| ->] H.
  - now apply find_not_substring.
  - rewrite find_after_tag, find_not_substring by assumption. reflexivity.
Qed.

Lemma drop_any_tag (tag t : pystr) (v : pyval) :
  tag = [] \/ tag = lit "json" ->
  JsonText t v -> drop_json_tag (tag ++ t) = t.
Proof.
  intros [->| ->] H.
  - now apply JsonText_no_tag with (v := v).
  - apply drop_json_tag_tagged.
Qed.

Lemma lstrip_fence (x : pystr) : lstrip (fence ++ x) = fence ++ x.
Proof. reflexivity. Qed.

Lemma last_tagged (tag t : pystr) : t <> [] -> last (tag ++ t) 0%N = last t 0%N.
Proof. intros H. now apply last_app_ne. Qed.

(** X14.  A response that opens with a fence is decoded as the JSON text
    after the fence is decoded alone, in each of these forms: with the tag
    [json] or with no tag; with a closing fence, followed by anything at
    all, or with no closing fence; with whitespace before the opening
    fence.  The JSON text may denote any value and must not contain a
    fence; the value the two runs return is the one it denotes. *)
Theorem X14_fenced_forms_decode_alike (t : pystr) (v : pyval)
        (lead tag tail : pystr) :
  JsonText t v ->
  ~ substring fence t ->
  Spaces lead ->
  tag = [] \/ tag = lit "json" ->
  Spaces tail \/ startswith tail fence = true ->
  decode_response (lead ++ fence ++ tag ++ t ++ tail) = decode_response t /\
  (forall v', decode_response t = Ok v' -> v' = v).
Proof.
  intros Ht Hno Hlead Htag Htail.
  rewrite (decode_response_JsonText Ht).
  split; [|congruence].
  destruct Htail as [Htail|Htail].
  - (* no closing fence *)
    destruct (JsonText_edges Ht)
      as (w1 & c & w2 & E & H1 & H2 & Hc & Hne & Hh & Hl).
    assert (Hstrip : strip (lead ++ fence ++ tag ++ t ++ tail)
                     = fence ++ tag ++ w1 ++ c).
    { replace (lead ++ fence ++ tag ++ t ++ tail)
        with (lead ++ (fence ++ tag ++ w1 ++ c) ++ (w2 ++ tail))
        by (rewrite E, <- !app_assoc; reflexivity).
      apply strip_core; auto.
      - apply Forall_app. split; [now apply Ws_spaces | assumption].
      - discriminate.
      - rewrite !last_app_ne by ne. now apply value_end_not_space. }
    unfold decode_response. rewrite Hstrip, remove_code_block_fenced.
    assert (Hno' : ~ substring fence (w1 ++ c)).
    { apply not_substring_prefix with (b := w2).
      now rewrite <- app_assoc, <- E. }
    assert (Hv : JsonText (w1 ++ c) v).
    { exists w1, c, []. rewrite app_nil_r. auto using Ws_nil. }
    rewrite no_fence_after_tag by assumption.
    rewrite (drop_any_tag Htag Hv). cbn [bind].
    now apply json_loads_complete.
  - (* a closing fence, and anything after it *)
    apply startswith_true in Htail.
    set (rest := skipn (length fence) tail) in *.
    destruct (JsonText_last Ht) as [Hne Hl].
    assert (Hstrip : strip (lead ++ fence ++ tag ++ t ++ tail)
                     = fence ++ (tag ++ t) ++ fence ++ rstrip rest).
    { unfold strip. rewrite lstrip_spaces by assumption.
      rewrite Htail, lstrip_fence.
      replace (fence ++ tag ++ t ++ fence ++ rest)
        with ((fence ++ tag ++ t ++ fence) ++ rest)
        by (rewrite <- !app_assoc; reflexivity).
      rewrite rstrip_app_keep.
      - rewrite <- !app_assoc. reflexivity.
      - discriminate.
      - rewrite !last_app_ne by ne. reflexivity. }
    unfold decode_response. rewrite Hstrip, remove_code_block_fenced.
    rewrite find_fence_app.
    + rewrite firstn_length_app, (drop_any_tag Htag Ht). cbn [bind].
      now apply json_loads_complete.
    + now apply no_fence_after_tag.
    + now rewrite last_tagged.
Qed.

Lemma X14_witness :
  decode_response ex_one_card = Ok (PyList ex_one_card_value) /\
  decode_response
    ([32%N] ++ fence ++ lit "json" ++ ex_one_card
     ++ (fence ++ lit " Hope this helps!"))
  = decode_response ex_one_card /\
  (forall v', decode_response ex_one_card = Ok v' -> v' = PyList ex_one_card_value).
Proof.
  split; [vm_compute; reflexivity|].
  apply (@X14_fenced_forms_decode_alike ex_one_card (PyList ex_one_card_value)
           [32%N] (lit "json") (fence ++ lit " Hope this helps!")).
  - apply json_loads_sound. vm_compute. reflexivity.
  - apply find_None. vm_compute. reflexivity.
  - repeat constructor.
  - right. reflexivity.
  - right. reflexivity.
Defined.

(** ** Responses that do not decode *)

Lemma scan_once_bad_head (fuel : nat) (c : N) (s : pystr) :
  value_start c = false -> scan_once (S fuel) (c :: s) = Raise StopIteration.
Proof.
  unfold value_start. intros H. bool_to_prop.
  assert (Hz : (c =? 48)%N = false).
  { destruct (N.eqb_spec c 48) as [->|]; [discriminate | reflexivity]. }
  repeat match goal with
         | H : _ <> _ |- _ => apply N.eqb_neq in H
         end.
  cbn [scan_once startswith lit list_ascii_of_string map].
  change (N_of_ascii "n") with 110%N. change (N_of_ascii "t") with 116%N.
  change (N_of_ascii "f") with 102%N. change (N_of_ascii "N") with 78%N.
  change (N_of_ascii "I") with 73%N. change (N_of_ascii "-") with 45%N.
  unfold match_number, match_integer, match_digits.
  repeat match goal with
         | H : _ = false |- _ => try rewrite !H; clear H
         end.
  reflexivity.
Qed.

Lemma json_loads_bad_head (c : N) (s : pystr) :
  value_start c = false -> is_json_ws c = false -> c <> 65279%N ->
  json_loads (c :: s) = Raise (JSONDecodeError ExpectingValue).
Proof.
  intros Hv Hw Hb. unfold json_loads. cbn [startswith].
  apply N.eqb_neq in Hb. rewrite Hb. cbn [andb].
  unfold decode, raw_decode, scan_value.
  rewrite skip_ws_stop by assumption.
  now rewrite scan_once_bad_head.
Qed.

Lemma startswith_firstn (n : nat) (s p : pystr) :
  startswith (firstn n s) p = true -> startswith s p = true.
Proof.
  intros H. apply startswith_iff in H as [r E]. apply startswith_iff.
  exists (r ++ skipn n s). now rewrite app_assoc, <- E, firstn_skipn.
Qed.

(** X15.  Only the tag [json], in lower case and right behind the opening
    fence, is removed.  When the fence is followed by any other character
    that cannot begin a JSON value (the first letter of another tag, say),
    decoding fails with [JSONDecodeError], "Expecting value", whatever
    comes next. *)
Theorem X15_other_tags_are_not_removed (raw rest : pystr) (c : N) :
  strip raw = fence ++ c :: rest ->
  startswith (c :: rest) (lit "json") = false ->
  value_start c = false -> is_json_ws c = false -> c <> 65279%N ->
  decode_response raw = Raise (JSONDecodeError ExpectingValue).
Proof.
  intros Hs Htag Hv Hw Hb. unfold decode_response.
  rewrite Hs, remove_code_block_fenced.
  destruct (find fence (c :: rest)) as [[|i]|].
  - reflexivity.
  - cbn [firstn bind]. unfold drop_json_tag.
    destruct (startswith (c :: firstn i rest) (lit "json")) eqn:E.
    + apply (startswith_firstn (S i) (c :: rest)) in E. congruence.
    + now apply json_loads_bad_head.
  - cbn [bind]. unfold drop_json_tag. rewrite Htag.
    now apply json_loads_bad_head.
Qed.

Lemma X15_witness :
  decode_response ex_capital_tag = Raise (JSONDecodeError ExpectingValue).
Proof.
  apply (@X15_other_tags_are_not_removed ex_capital_tag
           (lit "SON" ++ nl ++ lit "[1]" ++ nl ++ fence) 74%N).
  - vm_compute. reflexivity.
  - reflexivity.
  - reflexivity.
  - reflexivity.
  - discriminate.
Defined.

(** X16.  A response without a fence that begins with a text [json.loads]
    parses on its own, and goes on with anything but whitespace, fails with
    [JSONDecodeError], "Extra data": the value read is not returned.
    (After a number, the text that follows must not begin with a character
    that would extend the number.) *)
Theorem X16_text_after_the_value_fails (raw c r : pystr) (v : pyval) :
  strip raw = c ++ r ->
  json_loads c = Ok v ->
  skip_ws r <> [] ->
  follow_ok v r ->
  decode_response raw = Raise (JSONDecodeError ExtraData).
Proof.
  intros Hs Hc Hr Hf.
  apply json_loads_sound in Hc as (w1 & c0 & w2 & -> & H1 & H2 & Hc).
  unfold decode_response. rewrite Hs, <- !app_assoc.
  destruct (Value_head Hc) as (h & c' & Ec & Hh).
  destruct (value_start_plain _ Hh) as (_ & Hbom & Htick).
  apply N.eqb_neq in Hbom, Htick.
  rewrite remove_code_block_plain.
  2:{ destruct H1 as [|x w1 Hx _]; cbn [app].
      - rewrite Ec. cbn. now rewrite Htick.
      - cbn. destruct (N.eqb_spec x 96) as [->|]; [discriminate | reflexivity]. }
  cbn [bind]. unfold json_loads.
  replace (startswith (w1 ++ c0 ++ w2 ++ r) [65279%N]) with false.
  2:{ destruct H1 as [|x w1 Hx _]; cbn [app].
      - rewrite Ec. cbn. now rewrite Hbom.
      - cbn. destruct (N.eqb_spec x 65279) as [->|]; [discriminate | reflexivity]. }
  unfold decode, raw_decode.
  assert (Hskip : skip_ws (w1 ++ c0 ++ w2 ++ r) = c0 ++ w2 ++ r).
  { rewrite skip_ws_app by exact H1. rewrite Ec. cbn [app].
    now apply skip_ws_stop, value_start_not_ws. }
  rewrite Hskip.
  assert (Hf' : follow_ok v (w2 ++ r)).
  { intros Hn. destruct H2 as [|x w2 Hx _]; [now apply Hf|].
    cbn. now apply json_ws_number_stop. }
  destruct scan_complete as (Hcomplete & _ & _).
  destruct (Hcomplete c0 v Hc) as [f0 Hf0].
  specialize (Hf0 f0 (le_n _) (w2 ++ r) Hf').
  erewrite scan_value_of_Ok.
  2:{ eapply scan_once_any_fuel; [exact Hf0 | rewrite !length_app; lia]. }
  cbn [bind]. rewrite skip_ws_app by exact H2.
  destruct (skip_ws r); [congruence | reflexivity].
Qed.

Lemma X16_witness :
  decode_response ex_remark_after = Raise (JSONDecodeError ExtraData).
Proof.
  apply (@X16_text_after_the_value_fails ex_remark_after (lit "[1]")
           (nl ++ lit "Hope this helps!") (PyList [PyInt 1])).
  - vm_compute. reflexivity.
  - vm_compute. reflexivity.
  - vm_compute. discriminate.
  - intros H. discriminate H.
Defined.

(** ** [split] and [join] *)

Lemma substring_cons (x : pystr) (c : N) (t : pystr) :
  substring x (c :: t) -> startswith (c :: t) x = true \/ substring x t.
Proof.
  intros (pre & post & E). destruct pre as [|p pre].
  - left. apply startswith_iff. now exists post.
  - right. injection E as _ ->. now exists pre, post.
Qed.

Lemma substring_nil (x : pystr) : substring x [] -> x = [].
Proof.
  intros (pre & post & E). symmetry in E.
  apply app_eq_nil in E as [_ E]. now apply app_eq_nil in E as [E _].
Qed.

(** [find] returns the first occurrence: there is none before it. *)
Lemma find_first (sep : pystr) :
  sep <> [] ->
  forall s i, find sep s = Some i -> ~ substring sep (firstn i s).
Proof.
  intros Hsep s. induction s as [|c s IH]; intros i Hf Hsub.
  - rewrite find_nil in Hf by assumption. discriminate.
  - cbn [find] in Hf. destruct (startswith (c :: s) sep) eqn:E.
    + injection Hf as <-. cbn in Hsub. now apply substring_nil in Hsub.
    + destruct (find sep s) as [i'|] eqn:F; [|discriminate].
      injection Hf as <-. cbn [firstn] in Hsub.
      apply substring_cons in Hsub as [Hsub|Hsub].
      * apply (startswith_firstn (S i') (c :: s)) in Hsub. congruence.
      * now apply (IH i').
Qed.

Lemma split_rounds_nonempty (n : nat) (sep s : pystr) : split_rounds n sep s <> [].
Proof. destruct n; cbn; [|destruct (find sep s)]; discriminate. Qed.

Lemma join_cons (sep x : pystr) (rest : list pystr) :
  rest <> [] -> join sep (x :: rest) = x ++ sep ++ join sep rest.
Proof. destruct rest; [congruence | reflexivity]. Qed.

Lemma split_rounds_join (sep : pystr) (n : nat) :
  forall s, join sep (split_rounds n sep s) = s.
Proof.
  induction n as [|n IH]; intros s; cbn [split_rounds]; [reflexivity|].
  destruct (find sep s) as [i|] eqn:F; [|reflexivity].
  rewrite join_cons by apply split_rounds_nonempty.
  rewrite IH. symmetry. now apply find_Some.
Qed.

Lemma split_rounds_pieces (sep : pystr) (n : nat) :
  sep <> [] ->
  forall s, length s <= n ->
    Forall (fun piece => ~ substring sep piece) (split_rounds n sep s).
Proof.
  intros Hsep. induction n as [|n IH]; intros s Hn; cbn [split_rounds].
  - destruct s; [|cbn in Hn; lia]. constructor; [|constructor].
    intros H. now apply substring_nil in H.
  - destruct (find sep s) as [i|] eqn:F.
    + constructor; [now apply find_first|].
      apply IH. apply find_Some in F as [_ F].
      assert (length sep <> 0) by (destruct sep; [congruence | cbn; lia]).
      rewrite length_skipn. lia.
    + constructor; [now apply find_None | constructor].
Qed.

(** X17.  [split] loses nothing and cuts at every delimiter: joining the
    pieces with the delimiter gives back the text, and no piece contains
    the delimiter.  In particular the piece [generate_flashcards] parses
    never contains a fence. *)
Theorem X17_split_and_join (sep s : pystr) :
  sep <> [] ->
  join sep (split sep s) = s /\
  Forall (fun piece => ~ substring sep piece) (split sep s).
Proof.
  intros Hsep. split.
  - apply split_rounds_join.
  - now apply split_rounds_pieces.
Qed.

Lemma X17_witness :
  join fence (split fence ex_fence_in_payload) = ex_fence_in_payload /\
  Forall (fun piece => ~ substring fence piece) (split fence ex_fence_in_payload).
Proof.
  apply (@X17_split_and_join fence ex_fence_in_payload). discriminate.
Defined.

(** ** Induction on values *)

Lemma pyval_induction (P : pyval -> Prop) :
  P PyNone ->
  (forall b, P (PyBool b)) ->
  (forall z, P (PyInt z)) ->
  (forall f, P (PyFloat f)) ->
  (forall s, P (PyStr s)) ->
  (forall l, Forall P l -> P (PyList l)) ->
  (forall d, Forall (fun item => P (snd item)) d -> P (PyDict d)) ->
  forall v, P v.
Proof.
  intros HN HB HI HF HS HL HD. fix IH 1.
  intros [|b|z|f|s|l|d];
    [exact HN | apply HB | apply HI | apply HF | apply HS | | ].
  - apply HL. induction l as [|x l IHl]; constructor; [apply IH | exact IHl].
  - apply HD. induction d as [|[k x] d IHd]; constructor; [apply IH | exact IHd].
Qed.

Lemma keys_distinct_list (l : list pyval) :
  keys_distinct (PyList l) <-> Forall keys_distinct l.
Proof.
  cbn [keys_distinct]. induction l as [|x l IH].
  - split; auto.
  - split.
    + intros [Hx Hl]. constructor; [exact Hx | now apply IH].
    + intros H. inversion H; subst. split; [assumption | now apply IH].
Qed.

Lemma keys_distinct_dict (d : list (pystr * pyval)) :
  keys_distinct (PyDict d)
  <-> NoDup (map fst d) /\ Forall (fun item => keys_distinct (snd item)) d.
Proof.
  cbn [keys_distinct]. apply and_iff_compat_l. induction d as [|x d IH].
  - split; auto.
  - split.
    + intros [Hx Hd]. constructor; [exact Hx | now apply IH].
    + intros H. inversion H; subst. split; [assumption | now apply IH].
Qed.

Lemma no_float_list (l : list pyval) :
  no_float (PyList l) <-> Forall no_float l.
Proof.
  cbn [no_float]. induction l as [|x l IH].
  - split; auto.
  - split.
    + intros [Hx Hl]. constructor; [exact Hx | now apply IH].
    + intros H. inversion H; subst. split; [assumption | now apply IH].
Qed.

Lemma no_float_dict (d : list (pystr * pyval)) :
  no_float (PyDict d)
  <-> Forall (fun item => no_float (snd item)) d.
Proof.
  cbn [no_float]. induction d as [|x d IH].
  - split; auto.
  - split.
    + intros [Hx Hd]. constructor; [exact Hx | now apply IH].
    + intros H. inversion H; subst. split; [assumption | now apply IH].
Qed.

(** ** The keys of a decoded object *)

Lemma dict_setitem_keys (d : list (pystr * pyval)) (k : pystr) (v : pyval) :
  map fst (dict_setitem d k v)
  = if existsb (pystr_eqb k) (map fst d) then map fst d else map fst d ++ [k].
Proof.
  induction d as [|[k' v'] d IH]; cbn [dict_setitem map fst existsb]; auto.
  destruct (pystr_eqb k' k) eqn:E.
  - apply pystr_eqb_eq in E as ->. now rewrite pystr_eqb_refl.
  - replace (pystr_eqb k k') with false.
    2:{ symmetry. apply pystr_eqb_neq. intros ->.
        now rewrite pystr_eqb_refl in E. }
    cbn [orb map fst]. rewrite IH.
    now destruct (existsb (pystr_eqb k) (map fst d)).
Qed.

Lemma existsb_pystr_eqb (k : pystr) (ks : list pystr) :
  existsb (pystr_eqb k) ks = false -> ~ In k ks.
Proof.
  intros H Hin.
  assert (existsb (pystr_eqb k) ks = true); [|congruence].
  apply existsb_exists. exists k. split; [assumption | apply pystr_eqb_refl].
Qed.

Lemma dict_setitem_NoDup (d : list (pystr * pyval)) (k : pystr) (v : pyval) :
  NoDup (map fst d) -> NoDup (map fst (dict_setitem d k v)).
Proof.
  intros H. rewrite dict_setitem_keys.
  destruct (existsb (pystr_eqb k) (map fst d)) eqn:E; [assumption|].
  apply NoDup_app; [assumption | repeat constructor; intros [] |].
  intros x Hx [<-|[]]. now apply existsb_pystr_eqb in E.
Qed.

Lemma dict_NoDup (pairs : list (pystr * pyval)) : NoDup (map fst (dict pairs)).
Proof.
  unfold dict.
  assert (H : forall acc, NoDup (map fst acc) ->
                NoDup (map fst (fold_left
                                  (fun d kv => dict_setitem d (fst kv) (snd kv))
                                  pairs acc))).
  { induction pairs as [|[k v] pairs IH]; intros acc Hacc; cbn [fold_left].
    - assumption.
    - apply IH. now apply dict_setitem_NoDup. }
  apply H. constructor.
Qed.

Lemma Value_keys_distinct :
  (forall c v, Value c v -> keys_distinct v) /\
  (forall body l, Elements body l -> Forall keys_distinct l) /\
  (forall body l,
     Members body l -> Forall (fun item => keys_distinct (snd item)) l).
Proof.
  apply Value_mutind; try (intros; exact I).
  - intros c v Hn. destruct Hn; exact I.
  - intros w body l Hw Hb IH. now apply keys_distinct_list.
  - intros w Hw. apply keys_distinct_dict. split; constructor.
  - intros w body pairs Hw Hb IH. apply keys_distinct_dict. split.
    + apply dict_NoDup.
    + now apply dict_Forall.
  - intros c v w Hc IH Hw. now repeat constructor.
  - intros c v w w' rest l Hc IHc Hw Hw' Hr IHr. now constructor.
  - intros key k w1 w2 c v w3 Hk Hw1 Hw2 Hc IH Hw3. now repeat constructor.
  - intros key k w1 w2 c v w3 w4 rest l Hk Hw1 Hw2 Hc IHc Hw3 Hw4 Hr IHr.
    now constructor.
Qed.

Lemma decode_response_Value (raw : pystr) (v : pyval) :
  decode_response raw = Ok v -> exists c, Value c v.
Proof.
  intros H. destruct (remove_code_block_total (strip raw)) as [p Hp].
  rewrite (decode_response_payload _ Hp) in H.
  apply json_loads_sound in H as (w1 & c & w2 & _ & _ & _ & Hc). eauto.
Qed.

Lemma decoded_keys_distinct (raw : pystr) (v : pyval) :
  decode_response raw = Ok v -> keys_distinct v.
Proof.
  intros H. destruct (decode_response_Value raw H) as [c Hc].
  destruct Value_keys_distinct as (Hv & _ & _). eauto.
Qed.

(** X18.  Every object inside a decoded response has pairwise distinct
    keys: a key repeated in the text of an object is kept once. *)
Theorem X18_decoded_keys_are_distinct (raw : pystr) (v : pyval) :
  decode_response raw = Ok v -> keys_distinct v.
Proof. apply decoded_keys_distinct. Qed.

Lemma X18_witness : keys_distinct (PyDict [(lit "a", PyInt 2)]).
Proof.
  apply (@X18_decoded_keys_are_distinct ex_repeated_key).
  vm_compute. reflexivity.
Defined.

(** ** Looking up a key *)

Lemma dict_get_setitem (d : list (pystr * pyval)) (k' : pystr) (v' : pyval)
      (k : pystr) :
  dict_get (dict_setitem d k' v') k
  = if pystr_eqb k' k then Some v' else dict_get d k.
Proof.
  induction d as [|[k0 v0] d IH]; cbn [dict_setitem dict_get]; [reflexivity|].
  destruct (pystr_eqb k0 k') eqn:E0; cbn [dict_get].
  - apply pystr_eqb_eq in E0 as ->. now destruct (pystr_eqb k' k).
  - rewrite IH. destruct (pystr_eqb k0 k) eqn:E1; [|reflexivity].
    destruct (pystr_eqb k' k) eqn:E2; [|reflexivity].
    apply pystr_eqb_eq in E1, E2. subst. now rewrite pystr_eqb_refl in E0.
Qed.

Lemma dict_get_app (l : list (pystr * pyval)) (k' : pystr) (v' : pyval)
      (k : pystr) :
  dict_get (l ++ [(k', v')]) k
  = match dict_get l k with
    | Some v => Some v
    | None => if pystr_eqb k' k then Some v' else None
    end.
Proof.
  induction l as [|[k0 v0] l IH]; cbn [app dict_get]; [reflexivity|].
  now destruct (pystr_eqb k0 k).
Qed.

Lemma dict_get_fold (pairs : list (pystr * pyval)) (k : pystr) :
  forall acc,
    dict_get (fold_left (fun d kv => dict_setitem d (fst kv) (snd kv)) pairs acc) k
    = match dict_get (rev pairs) k with
      | Some v => Some v
      | None => dict_get acc k
      end.
Proof.
  induction pairs as [|[k' v'] pairs IH]; intros acc; cbn [fold_left rev];
    [reflexivity|].
  rewrite IH, dict_get_app, dict_get_setitem. cbn [fst snd].
  destruct (dict_get (rev pairs) k); [reflexivity|].
  now destruct (pystr_eqb k' k).
Qed.

Lemma dict_last_wins (pairs : list (pystr * pyval)) (key : pystr) :
  py_getitem (PyDict (dict pairs)) key
  = match dict_get (rev pairs) key with
    | Some v => Ok v
    | None => Raise KeyError
    end.
Proof.
  cbn [py_getitem]. unfold dict. rewrite dict_get_fold.
  now destruct (dict_get (rev pairs) key).
Qed.

Lemma Value_digit (d : N) :
  (49 <= d <= 57)%N -> Value [d] (PyInt (Z.of_N (d - 48))).
Proof.
  intros H. replace (PyInt (Z.of_N (d - 48))) with (PyInt (parse_int [d])).
  - apply V_number, Num_int, IP_digits.
    + apply is_digit_range. lia.
    + lia.
    + constructor.
  - cbn [parse_int]. destruct (N.eqb_spec d 45); [lia|].
    unfold digits_value. cbn [fold_left]. do 2 f_equal; lia.
Qed.

(** X19.  When the text of an object repeats a key, the last value wins.
    For every object text, with [pairs] its members in the order of the
    text, whenever the decoder returns a value for it, looking a key up in
    that value gives the value of the last member with that key, and
    raises [KeyError] when no member has it. *)
Theorem X19_last_repeated_key_wins (w body : pystr)
        (pairs : list (pystr * pyval)) (obj : pyval) (key : pystr) :
  Ws w -> Members body pairs ->
  decode_response (LBRACE :: w ++ DQUOTE :: body) = Ok obj ->
  py_getitem obj key
  = match dict_get (rev pairs) key with
    | Some v => Ok v
    | None => Raise KeyError
    end.
Proof.
  intros Hw Hm Hd.
  assert (E : decode_response (LBRACE :: w ++ DQUOTE :: body)
              = Ok (PyDict (dict pairs))).
  { apply decode_response_JsonText, Value_JsonText. now apply V_object. }
  rewrite E in Hd. injection Hd as <-. apply dict_last_wins.
Qed.

Lemma X19_witness :
  decode_response (LBRACE :: [] ++ DQUOTE :: skipn 2 ex_repeated_key)
  = Ok (PyDict [(lit "a", PyInt 2)]) /\
  py_getitem (PyDict [(lit "a", PyInt 2)]) (lit "a")
  = match dict_get (rev [(lit "a", PyInt 1); (lit "a", PyInt 2)]) (lit "a") with
    | Some v => Ok v
    | None => Raise KeyError
    end.
Proof.
  split; [vm_compute; reflexivity|].
  apply (@X19_last_repeated_key_wins [] (skipn 2 ex_repeated_key)
           [(lit "a", PyInt 1); (lit "a", PyInt 2)]
           (PyDict [(lit "a", PyInt 2)]) (lit "a")).
  - apply Ws_nil.
  - apply (@M_more (lit "a" ++ dq) (lit "a") [] [32%N] (lit "1") (PyInt 1)
             [] [32%N] (lit "a" ++ dq ++ lit ": 2}") [(lit "a", PyInt 2)]).
    + apply SB_char; [discriminate | discriminate | vm_compute; discriminate
                      | apply SB_end].
    + apply Ws_nil.
    + repeat constructor.
    + apply (@Value_digit 49). lia.
    + apply Ws_nil.
    + repeat constructor.
    + apply (@M_last (lit "a" ++ dq) (lit "a") [] [32%N] (lit "2") (PyInt 2) []).
      * apply SB_char; [discriminate | discriminate | vm_compute; discriminate
                        | apply SB_end].
      * apply Ws_nil.
      * repeat constructor.
      * apply (@Value_digit 50). lia.
      * apply Ws_nil.
  - vm_compute. reflexivity.
Defined.

(** ** [str] of an integer, read back *)

Lemma uint_chars_Digits (u : Decimal.uint) : Digits (uint_chars u).
Proof. induction u; cbn [uint_chars]; constructor; auto. Qed.

Lemma digits_value_acc (u : Decimal.uint) :
  forall acc,
    fold_left (fun a c => (a * 10 + (c - 48))%N) (uint_chars u) (Npos acc)
    = Npos (Pos.of_uint_acc u acc).
Proof.
  induction u; intros acc; cbn [uint_chars fold_left Pos.of_uint_acc];
    [reflexivity | rewrite <- IHu; f_equal; lia ..].
Qed.

Lemma digits_value_uint (u : Decimal.uint) :
  digits_value (uint_chars u) = N.of_uint u.
Proof.
  unfold digits_value, N.of_uint.
  induction u; cbn [uint_chars fold_left Pos.of_uint];
    [reflexivity | exact IHu | apply digits_value_acc ..].
Qed.

Lemma digits_value_str (n : N) : digits_value (str_of_N n) = n.
Proof.
  unfold str_of_N. rewrite digits_value_uint. apply DecimalN.Unsigned.of_to.
Qed.

Lemma unorm_IntegerPart (u : Decimal.uint) :
  IntegerPart (uint_chars (Decimal.unorm u)) /\
  is_digit (hd 0%N (uint_chars (Decimal.unorm u))) = true.
Proof.
  induction u;
    try (split; [apply IP_digits;
                   [reflexivity | discriminate | apply uint_chars_Digits]
                | reflexivity]).
  - split; [apply IP_zero | reflexivity].
  - exact IHu.
Qed.

Lemma str_of_N_IntegerPart (n : N) :
  IntegerPart (str_of_N n) /\ is_digit (hd 0%N (str_of_N n)) = true.
Proof.
  unfold str_of_N.
  pose proof (DecimalN.Unsigned.to_of (N.to_uint n)) as E.
  rewrite DecimalN.Unsigned.of_to in E. rewrite E. apply unorm_IntegerPart.
Qed.

Lemma parse_int_digits (i : pystr) :
  is_digit (hd 0%N i) = true -> parse_int i = Z.of_N (digits_value i).
Proof.
  destruct i as [|c i]; [discriminate|]. cbn [hd parse_int]. intros H.
  destruct (N.eqb_spec c 45) as [->|]; [discriminate | reflexivity].
Qed.

Lemma str_of_int_Number (z : Z) : Number (str_of_int z) (PyInt z).
Proof.
  destruct z as [|p|p]; cbn [str_of_int Z.to_N].
  - change (PyInt 0) with (PyInt (parse_int (str_of_N 0))).
    apply Num_int, IP_zero.
  - destruct (str_of_N_IntegerPart (Npos p)) as [Hi Hd].
    replace (PyInt (Zpos p)) with (PyInt (parse_int (str_of_N (Npos p)))).
    + now apply Num_int.
    + now rewrite parse_int_digits, digits_value_str.
  - destruct (str_of_N_IntegerPart (Npos p)) as [Hi Hd].
    replace (PyInt (Zneg p))
      with (PyInt (parse_int (45%N :: str_of_N (Npos p)))).
    + apply Num_int, IP_minus; [|assumption].
      intros E. rewrite E in Hd. discriminate.
    + cbn [parse_int]. now rewrite N.eqb_refl, digits_value_str.
Qed.

(** ** What [json.dump] writes denotes the value written *)

Lemma dict_distinct (d : list (pystr * pyval)) :
  NoDup (map fst d) -> dict d = d.
Proof.
  unfold dict.
  assert (H : forall l acc,
             NoDup (map fst (acc ++ l)) ->
             fold_left (fun d kv => dict_setitem d (fst kv) (snd kv)) l acc
             = acc ++ l).
  { induction l as [|[k v] l IH]; intros acc Hnd; cbn [fold_left].
    - now rewrite app_nil_r.
    - cbn [fst snd].
      assert (Hset : dict_setitem acc k v = acc ++ [(k, v)]).
      { rewrite map_app in Hnd. cbn [map fst] in Hnd.
        apply NoDup_remove_2 in Hnd.
        assert (Hk : ~ In k (map fst acc)).
        { intros Hin. apply Hnd. apply in_or_app. now left. }
        clear - Hk. induction acc as [|[k' v'] acc IHacc]; [reflexivity|].
        cbn [dict_setitem app]. cbn [map fst In] in Hk.
        rewrite pystr_eqb_neq by (intros ->; apply Hk; now left).
        f_equal. apply IHacc. intros Hin. apply Hk. now right. }
      rewrite Hset, IH; rewrite <- app_assoc; [reflexivity | exact Hnd]. }
  intros Hnd. now rewrite (H d []).
Qed.

Section ExportText.

Variable float_str : pystr -> pystr.

Lemma Elements_join (enc : pyval -> pystr) (w w' : pystr) :
  Ws w -> Ws w' ->
  forall (l : list pyval) (x : pyval),
    Forall (fun v => Value (enc v) v) (x :: l) ->
    Elements (join (44%N :: w') (map enc (x :: l)) ++ w ++ [93%N]) (x :: l).
Proof.
  intros Hw Hw'. induction l as [|y l IH]; intros x H;
    inversion H as [|? ? Hx Hl]; subst.
  - cbn [map join]. now apply E_last.
  - specialize (IH y Hl).
    change (map enc (x :: y :: l)) with (enc x :: map enc (y :: l)).
    rewrite join_cons by discriminate.
    rewrite <- !app_assoc. cbn [app].
    now apply (E_more (w := [])); auto using Ws_nil.
Qed.

Lemma Members_join (enc : pyval -> pystr) (w w' : pystr) :
  Ws w -> Ws w' ->
  forall (d : list (pystr * pyval)) (item : pystr * pyval),
    Forall (fun item => is_text (fst item) /\ Value (enc (snd item)) (snd item))
           (item :: d) ->
    exists body,
      join (44%N :: w')
           (map (fun item =>
                   py_encode_basestring_ascii (fst item)
                   ++ lit ": " ++ enc (snd item)) (item :: d))
      ++ w ++ [125%N]
      = 34%N :: body /\
      Members body (item :: d).
Proof.
  intros Hw Hw'. induction d as [|item' d IH]; intros [k v] H;
    inversion H as [|? ? [Hk Hv] Hd]; subst; cbn [fst snd] in *.
  - exists ((escape_ascii k ++ [34%N]) ++ [] ++ 58%N :: [32%N]
             ++ enc v ++ w ++ [125%N]).
    split.
    + cbn [map join fst snd]. unfold py_encode_basestring_ascii.
      cbn [app]. rewrite <- !app_assoc. reflexivity.
    + apply M_last; auto using Ws_nil.
      * now apply escape_ascii_StringBody.
      * repeat constructor.
  - destruct (IH item' Hd) as (body & E & Hb).
    exists ((escape_ascii k ++ [34%N]) ++ [] ++ 58%N :: [32%N]
            ++ enc v ++ [] ++ 44%N :: w' ++ 34%N :: body).
    split.
    + match goal with
      | |- context [map ?f (?a :: ?b :: ?r)] =>
          change (map f (a :: b :: r)) with (f a :: map f (b :: r))
      end.
      rewrite join_cons by discriminate.
      cbn [fst snd]. unfold py_encode_basestring_ascii at 1.
      cbn [app]. rewrite <- !app_assoc. cbn [app]. rewrite <- !app_assoc.
      rewrite E. reflexivity.
    + apply M_more; auto using Ws_nil.
      * now apply escape_ascii_StringBody.
      * repeat constructor.
Qed.

Theorem iterencode_Value (v : pyval) :
  exportable v -> forall level, Value (iterencode float_str v level) v.
Proof.
  unfold exportable. induction v as [|b|z|f|s|l IH|d IH] using pyval_induction;
    intros (Ht & Hk & Hf) level.
  - apply V_null.
  - destruct b; [apply V_true | apply V_false].
  - apply V_number, str_of_int_Number.
  - contradiction.
  - now apply encode_basestring_Value.
  - apply strings_are_text_list in Ht. apply keys_distinct_list in Hk.
    apply no_float_list in Hf.
    destruct l as [|x l]; [apply (V_array_empty Ws_nil)|].
    cbn [iterencode].
    change (lit "[") with [91%N]. change (lit "]") with [93%N]. cbn [app].
    apply V_array; [apply Ws_newline_indent|].
    apply (Elements_join (fun value => iterencode float_str value (S level)));
      try apply Ws_newline_indent.
    rewrite Forall_forall in *. intros y Hy. apply IH; auto.
  - apply strings_are_text_dict in Ht. apply keys_distinct_dict in Hk as [Hnd Hk].
    apply no_float_dict in Hf.
    destruct d as [|item d]; [apply (V_object_empty Ws_nil)|].
    cbn [iterencode].
    change (lit "{") with [123%N]. change (lit "}") with [125%N]. cbn [app].
    destruct (Members_join
                (fun value => iterencode float_str value (S level))
                (Ws_newline_indent level) (Ws_newline_indent (S level))
                (d := d) (item := item)) as (body & E & Hb).
    { rewrite Forall_forall in *. intros y Hy. split.
      - now apply Ht.
      - apply IH; auto. split; [now apply Ht | auto]. }
    rewrite E. rewrite <- (@dict_distinct (item :: d) Hnd).
    now apply V_object; [apply Ws_newline_indent|].
Qed.

End ExportText.

(** X20.  Export and re-import of any value.  For every value whose strings
    are texts, whose objects have distinct keys and which holds no float
    (nested lists and objects, empty ones, integers, [None] and the
    booleans included), whenever the text that [json.dump] with [indent=2]
    writes for it is decoded to a value, that value is the one exported. *)
Theorem X20_export_reads_back_as_exported (float_str : pystr -> pystr)
        (v v' : pyval) :
  exportable v ->
  decode_response (json_dump_indent2 float_str v) = Ok v' ->
  v' = v.
Proof.
  intros H Hd.
  assert (E : decode_response (json_dump_indent2 float_str v) = Ok v).
  { apply decode_response_JsonText, Value_JsonText. now apply iterencode_Value. }
  congruence.
Qed.

Lemma X20_witness :
  exists v',
    decode_response (json_dump_indent2 (fun l => l) ex_mixed_value) = Ok v' /\
    v' = ex_mixed_value.
Proof.
  exists ex_mixed_value. split; [vm_compute; reflexivity|].
  apply (@X20_export_reads_back_as_exported (fun l => l) ex_mixed_value
           ex_mixed_value).
  - unfold exportable, ex_mixed_value. cbn.
    repeat split; try (repeat constructor; fail).
    constructor; [cbn; intuition discriminate|].
    constructor; [cbn; intuition discriminate|].
    constructor; [cbn; intuition discriminate | constructor].
  - vm_compute. reflexivity.
Defined.

(** X21.  Whatever the decoder returned for a response made of Unicode
    scalar values, if it holds no float, its JSON export decodes back to
    the same value. *)
Theorem X21_decoded_value_survives_export (float_str : pystr -> pystr)
        (raw : pystr) (v : pyval) :
  Scalars raw ->
  decode_response raw = Ok v ->
  no_float v ->
  decode_response (json_dump_indent2 float_str v) = Ok v.
Proof.
  intros Hs Hd Hf. apply decode_response_JsonText, Value_JsonText.
  apply iterencode_Value. split; [|split].
  - now apply decode_response_strings with (raw := raw).
  - now apply decoded_keys_distinct with (raw := raw).
  - assumption.
Qed.

Lemma X21_witness :
  decode_response
    (json_dump_indent2 (fun l => l) (PyDict [(lit "a", PyInt 2)]))
  = Ok (PyDict [(lit "a", PyInt 2)]).
Proof.
  apply (@X21_decoded_value_survives_export (fun l => l) ex_repeated_key).
  - repeat constructor.
  - vm_compute. reflexivity.
  - cbn. auto.
Defined.

(** ** The characters of the export *)

Lemma reads_back_app (a b : pystr) :
  reads_back a -> reads_back b -> reads_back (a ++ b).
Proof. intros Ha Hb. apply Forall_app. now split. Qed.

Lemma reads_back_lit_digits (u : Decimal.uint) : reads_back (uint_chars u).
Proof. induction u; cbn [uint_chars]; constructor; auto. Qed.

Lemma reads_back_str_of_int (z : Z) : reads_back (str_of_int z).
Proof.
  destruct z as [|p|p]; cbn [str_of_int]; unfold str_of_N.
  - apply reads_back_lit_digits.
  - apply reads_back_lit_digits.
  - constructor; [reflexivity | apply reads_back_lit_digits].
Qed.

Lemma plain_hex_digit (d : N) : (d < 16)%N -> plain_ascii (hex_digit d) = true.
Proof.
  intros H. unfold hex_digit, plain_ascii.
  destruct (N.ltb_spec d 10); apply andb_true_iff; split;
    try (apply N.ltb_lt; lia); apply negb_true_iff, N.eqb_neq; lia.
Qed.

Lemma reads_back_u_escape (n : N) : (n < 65536)%N -> reads_back (u_escape n).
Proof.
  intros H. unfold u_escape.
  repeat (constructor; [first [reflexivity | apply plain_hex_digit]|]);
    try constructor.
  - apply N.Div0.div_lt_upper_bound. lia.
  - apply N.mod_upper_bound. lia.
  - apply N.mod_upper_bound. lia.
  - apply N.mod_upper_bound. lia.
Qed.

Lemma surrogate_bound (hi x : N) :
  (hi < 64)%N -> (N.lor (N.shiftl hi 10) (N.land x 1023) < 65536)%N.
Proof.
  intros H. change 1023%N with (N.ones 10). rewrite N.land_ones.
  assert (Hm : (x mod 2 ^ 10 < 2 ^ 10)%N) by (apply N.mod_upper_bound; discriminate).
  rewrite lor_shiftl_low by exact Hm.
  rewrite N.shiftl_mul_pow2. change (2 ^ 10)%N with 1024%N in *. lia.
Qed.

Lemma reads_back_replace (c : N) : reads_back (replace c).
Proof.
  unfold replace.
  repeat match goal with
         | |- context [if (c =? ?k)%N then _ else _] =>
             destruct (c =? k)%N; [repeat constructor|]
         end.
  destruct (N.ltb_spec c 65536).
  - now apply reads_back_u_escape.
  - apply reads_back_app; apply reads_back_u_escape.
    + apply (@surrogate_bound 54). reflexivity.
    + apply (@surrogate_bound 55). reflexivity.
Qed.

Lemma reads_back_escape_ascii (s : pystr) : reads_back (escape_ascii s).
Proof.
  unfold escape_ascii. induction s as [|c s IH]; cbn [flat_map]; [constructor|].
  apply reads_back_app; [|exact IH].
  destruct (needs_escape c) eqn:E; [apply reads_back_replace|].
  constructor; [|constructor].
  unfold needs_escape in E. bool_to_prop. unfold plain_ascii.
  apply andb_true_iff. split; [apply N.ltb_lt; lia|].
  apply negb_true_iff, N.eqb_neq. lia.
Qed.

Lemma reads_back_string (s : pystr) : reads_back (py_encode_basestring_ascii s).
Proof.
  unfold py_encode_basestring_ascii. constructor; [reflexivity|].
  apply reads_back_app; [apply reads_back_escape_ascii | repeat constructor].
Qed.

Lemma reads_back_newline_indent (level : nat) : reads_back (newline_indent level).
Proof.
  unfold newline_indent. constructor; [reflexivity|].
  apply Forall_forall. intros x Hx. apply repeat_spec in Hx. now subst.
Qed.

Lemma reads_back_join (sep : pystr) (chunks : list pystr) :
  reads_back sep -> Forall reads_back chunks -> reads_back (join sep chunks).
Proof.
  intros Hsep H. induction H as [|x chunks Hx Hc IH]; [constructor|].
  destruct chunks as [|y chunks]; [exact Hx|].
  rewrite join_cons by discriminate.
  repeat apply reads_back_app; auto.
Qed.

Section Characters.

Variable float_str : pystr -> pystr.
Hypothesis float_str_plain : forall l, reads_back (float_str l).

Lemma reads_back_iterencode (v : pyval) :
  forall level, reads_back (iterencode float_str v level).
Proof.
  induction v as [|b|z|f|s|l IH|d IH] using pyval_induction; intros level.
  - repeat constructor.
  - destruct b; repeat constructor.
  - apply reads_back_str_of_int.
  - destruct f; cbn [iterencode floatstr]; auto; repeat constructor.
  - apply reads_back_string.
  - destruct l as [|x l]; [repeat constructor|]. cbn [iterencode].
    repeat apply reads_back_app;
      try apply reads_back_newline_indent; try (repeat constructor; fail).
    apply reads_back_join.
    + constructor; [reflexivity | apply reads_back_newline_indent].
    + apply Forall_map. rewrite Forall_forall in *. intros y Hy. now apply IH.
  - destruct d as [|item d]; [repeat constructor|]. cbn [iterencode].
    repeat apply reads_back_app;
      try apply reads_back_newline_indent; try (repeat constructor; fail).
    apply reads_back_join.
    + constructor; [reflexivity | apply reads_back_newline_indent].
    + apply Forall_map. rewrite Forall_forall in *. intros y Hy.
      repeat apply reads_back_app.
      * apply reads_back_string.
      * repeat constructor.
      * now apply IH.
Qed.

End Characters.

(** X22.  The text [json.dump] writes holds ASCII characters only and no
    carriage return, whatever characters the strings of the value hold
    (given that the rendering of a float does): written to a file opened in
    text mode and read back in text mode, it comes back unchanged under
    every encoding that extends ASCII and every newline convention. *)
Theorem X22_json_export_is_plain_ascii (float_str : pystr -> pystr) (v : pyval) :
  (forall l, reads_back (float_str l)) ->
  reads_back (json_dump_indent2 float_str v).
Proof. intros H. now apply reads_back_iterencode. Qed.

Lemma X22_witness :
  reads_back (json_dump_indent2 (fun _ => lit "1.5") (flashcards_value ex_cards)).
Proof.
  apply (@X22_json_export_is_plain_ascii (fun _ => lit "1.5")
           (flashcards_value ex_cards)).
  intros l. repeat constructor.
Defined.
